(** * The tengo bytecode virtual machine ([runtime/vm.go])

    A shallow embedding of [VM.Run], its dispatch loop and [indexAssign],
    followed by the properties of the execution core that the specification
    states about them.

    Go values are modelled as the code has them: [int] as [Z], [int64] as
    [Z] with the two's-complement wrap written out, [byte] as [Byte.byte],
    [string] as [string], pointers as addresses into an explicit heap, slices
    of the operand stack as lists updated by index.  A Go runtime panic
    (index out of range, nil dereference, failed type assertion, an explicit
    [panic]) is a result of its own, distinct from an [error] returned by
    [Run]. *)

From Stdlib Require Import ZArith Lia.
From Stdlib.Strings Require Import Byte.
From stdpp Require Import base numbers option list strings gmap pretty.

Local Open Scope Z_scope.

(** ** Constants of the package *)

Definition StackSize : Z := 2048.
Definition GlobalsSize : Z := 1024.
Definition MaxFrames : Z := 1024.

(** ** Package [compiler]: the opcodes named by the dispatch [switch], in the
    order of its cases. *)
Module compiler.
Inductive Opcode :=
| OpConstant | OpNull
| OpAdd | OpSub | OpMul | OpDiv | OpRem
| OpBAnd | OpBOr | OpBXor | OpBAndNot | OpBShiftLeft | OpBShiftRight
| OpEqual | OpNotEqual | OpGreaterThan | OpGreaterThanEqual
| OpPop | OpTrue | OpFalse | OpLNot | OpBComplement | OpMinus
| OpJumpFalsy | OpAndJump | OpOrJump | OpJump
| OpSetGlobal | OpSetSelGlobal | OpGetGlobal
| OpArray | OpMap | OpError | OpImmutable | OpIndex | OpSliceIndex
| OpCall | OpReturnValue | OpReturn
| OpDefineLocal | OpSetLocal | OpSetSelLocal | OpGetLocal
| OpGetBuiltin | OpGetBuiltinModule | OpClosure
| OpGetFree | OpSetSelFree | OpSetFree
| OpIteratorInit | OpIteratorNext | OpIteratorKey | OpIteratorValue.

Definition Opcode_eqb (a b : Opcode) : bool :=
  match a, b with
  | OpConstant, OpConstant | OpNull, OpNull
  | OpAdd, OpAdd | OpSub, OpSub | OpMul, OpMul | OpDiv, OpDiv | OpRem, OpRem
  | OpBAnd, OpBAnd | OpBOr, OpBOr | OpBXor, OpBXor | OpBAndNot, OpBAndNot
  | OpBShiftLeft, OpBShiftLeft | OpBShiftRight, OpBShiftRight
  | OpEqual, OpEqual | OpNotEqual, OpNotEqual
  | OpGreaterThan, OpGreaterThan | OpGreaterThanEqual, OpGreaterThanEqual
  | OpPop, OpPop | OpTrue, OpTrue | OpFalse, OpFalse | OpLNot, OpLNot
  | OpBComplement, OpBComplement | OpMinus, OpMinus
  | OpJumpFalsy, OpJumpFalsy | OpAndJump, OpAndJump | OpOrJump, OpOrJump
  | OpJump, OpJump
  | OpSetGlobal, OpSetGlobal | OpSetSelGlobal, OpSetSelGlobal
  | OpGetGlobal, OpGetGlobal
  | OpArray, OpArray | OpMap, OpMap | OpError, OpError
  | OpImmutable, OpImmutable | OpIndex, OpIndex | OpSliceIndex, OpSliceIndex
  | OpCall, OpCall | OpReturnValue, OpReturnValue | OpReturn, OpReturn
  | OpDefineLocal, OpDefineLocal | OpSetLocal, OpSetLocal
  | OpSetSelLocal, OpSetSelLocal | OpGetLocal, OpGetLocal
  | OpGetBuiltin, OpGetBuiltin | OpGetBuiltinModule, OpGetBuiltinModule
  | OpClosure, OpClosure
  | OpGetFree, OpGetFree | OpSetSelFree, OpSetSelFree | OpSetFree, OpSetFree
  | OpIteratorInit, OpIteratorInit | OpIteratorNext, OpIteratorNext
  | OpIteratorKey, OpIteratorKey | OpIteratorValue, OpIteratorValue => true
  | _, _ => false
  end.
End compiler.

(** ** Package [token]: the operator tokens handed to [BinaryOp]. *)
Module token.
Inductive Token :=
| Add | Sub | Mul | Quo | Rem | And | Or | Xor | AndNot | Shl | Shr
| Greater | GreaterEq.
End token.

(** ** Package [objects]: the values

    An [objects.Object] is a Go interface value: a dynamic type and a pointer
    to a struct.  Immutable payloads ([Int], [String], ...) are carried by
    value; the mutable ones are references into the heap, so that two objects
    sharing storage stay shared:
    - a [*objects.Object] (an operand-stack handle) is a [Ptr]: the address
      of a heap cell, or [None] for [nil];
    - [Array.Value] and [ImmutableArray.Value] are Go slices: a window
      ([Slice]) on a backing array of the heap;
    - [Map.Value] and [ImmutableMap.Value] are Go maps: the address of a map
      of the heap;
    - [Error.Value] is a field whose address the VM takes ([&left.Value]):
      the address of the cell that holds it;
    - [*CompiledFunction] is the address of the function's struct, so that
      [callee.Fn == v.curFrame.fn] is pointer equality. *)

Definition Ptr := option nat.

Record Slice := { sl_arr : nat; sl_off : nat; sl_len : nat }.

Module objects.
Inductive Object :=
| Undefined
| Bool (b : bool)
| Int (Value : Z)
| Float (bits : Z)
| Char (Value : Z)
| String (Value : string)
| Bytes (Value : list byte)
| Array (Value : Slice)
| ImmutableArray (Value : Slice)
| Map (Value : nat)
| ImmutableMap (Value : nat)
| Error (Value : nat)
| CompiledFunction (p : nat)
| Closure (Fn : nat) (Free : list Ptr)
| BuiltinFunction (index : nat)
| Iterator (p : nat).

(** The struct behind a [*CompiledFunction].  [SourceMap] is a Go map from
    instruction offsets to source positions. *)
Record CompiledFunction_struct := {
  Instructions : list byte;
  NumLocals : Z;
  NumParameters : Z;
  SourceMap : gmap Z Z;
}.

(** Go [error] values: the sentinels of the packages, the structured
    [ErrInvalidArgumentType], and messages built by [fmt.Errorf]. *)
Inductive error :=
| ErrStackOverflow
| ErrInvalidOperator
| ErrInvalidIndexType
| ErrInvalidIndexValueType
| ErrWrongNumArguments
| ErrInvalidArgumentType (Name Expected Found : string)
| Errorf (msg : string).
End objects.

Abbreviation Object := objects.Object.
Abbreviation error := objects.error.

(** ** The heap *)

Record Heap := {
  cells : list Object;
  arrays : list (list Object);
  maps : list (gmap string Object);
  iters : list (list (Object * Object) * Z);
  funcs : list objects.CompiledFunction_struct;
}.

Definition set_cells (h : Heap) (c : list Object) : Heap :=
  {| cells := c; arrays := arrays h; maps := maps h; iters := iters h;
     funcs := funcs h |}.
Definition set_arrays (h : Heap) (a : list (list Object)) : Heap :=
  {| cells := cells h; arrays := a; maps := maps h; iters := iters h;
     funcs := funcs h |}.
Definition set_maps (h : Heap) (m : list (gmap string Object)) : Heap :=
  {| cells := cells h; arrays := arrays h; maps := m; iters := iters h;
     funcs := funcs h |}.

(** A fresh variable holding [o], and its address. *)
Definition alloc (h : Heap) (o : Object) : Heap * nat :=
  (set_cells h (cells h ++ [o]), length (cells h)).

(** [&x] for a fresh variable [x] *)
Definition new_cell (h : Heap) (o : Object) : Heap * Ptr :=
  (set_cells h (cells h ++ [o]), Some (length (cells h))).

(** A fresh backing array holding [l] and the slice that covers it. *)
Definition new_array (h : Heap) (l : list Object) : Heap * Slice :=
  (set_arrays h (arrays h ++ [l]),
   {| sl_arr := length (arrays h); sl_off := 0; sl_len := length l |}).

Definition new_map (h : Heap) (m : gmap string Object) : Heap * nat :=
  (set_maps h (maps h ++ [m]), length (maps h)).

(** The elements a slice shows. *)
Definition elems (h : Heap) (s : Slice) : list Object :=
  take (sl_len s) (drop (sl_off s) (default [] (arrays h !! sl_arr s))).

(** [s[lo:hi]] for [0 <= lo <= hi <= len(s)]: the same backing array. *)
Definition reslice (s : Slice) (lo hi : Z) : Slice :=
  {| sl_arr := sl_arr s;
     sl_off := (sl_off s + Z.to_nat lo)%nat;
     sl_len := Z.to_nat (hi - lo) |}.

(** The package-level objects [objects.UndefinedValue], [objects.TrueValue]
    and [objects.FalseValue] are the first three cells of the heap. *)
Definition undefinedPtr : Ptr := Some 0%nat.
Definition truePtr : Ptr := Some 1%nat.
Definition falsePtr : Ptr := Some 2%nat.

Definition base_cells : list Object :=
  [objects.Undefined; objects.Bool true; objects.Bool false].

(** ** Results of running Go code *)

Inductive panic :=
| IndexOutOfRange
| NilDereference
| TypeAssertion
| SliceBounds
| UnknownOpcode (b : byte)
| NonEmptyStack (sp : Z).

Inductive Outcome (A : Type) :=
| Ok (a : A)
| Err (e : error)
| Panic (p : panic).
Arguments Ok {A} a.
Arguments Err {A} e.
Arguments Panic {A} p.

Global Instance Outcome_ret : MRet Outcome := fun _ a => Ok a.
Global Instance Outcome_bind : MBind Outcome := fun _ _ f m =>
  match m with
  | Ok a => f a
  | Err e => Err e
  | Panic p => Panic p
  end.

(** [l[i]] with Go's bounds check. *)
Definition index {A} (l : list A) (i : Z) : Outcome A :=
  if bool_decide (0 <= i) then
    match l !! Z.to_nat i with
    | Some x => Ok x
    | None => Panic IndexOutOfRange
    end
  else Panic IndexOutOfRange.

(** [l[i] = x] with Go's bounds check. *)
Definition store {A} (l : list A) (i : Z) (x : A) : Outcome (list A) :=
  if bool_decide (0 <= i < Z.of_nat (length l)) then
    Ok (<[Z.to_nat i := x]> l)
  else Panic IndexOutOfRange.

(** [*p] *)
Definition deref (h : Heap) (p : Ptr) : Outcome Object :=
  match p with
  | Some a =>
      match cells h !! a with
      | Some o => Ok o
      | None => Panic NilDereference
      end
  | None => Panic NilDereference
  end.

(** [*p = o] *)
Definition assign (h : Heap) (p : Ptr) (o : Object) : Outcome Heap :=
  match p with
  | Some a =>
      if bool_decide (a < length (cells h))%nat then
        Ok (set_cells h (<[a := o]> (cells h)))
      else Panic NilDereference
  | None => Panic NilDereference
  end.

Definition int_of_byte (b : byte) : Z := Z.of_N (Byte.to_N b).

(** [int64] arithmetic wraps. *)
Definition wrap64 (z : Z) : Z := (z + 2 ^ 63) mod 2 ^ 64 - 2 ^ 63.

(** ** What the VM imports

    The packages [compiler], [source] and [objects] are not part of this
    file: the VM is stated over their operations.  Each operation of
    [objects] that may allocate or mutate takes the heap and gives it back.
    A type assertion to one of the interfaces ([Indexable],
    [IndexAssignable], [Iterable], [Iterator], [Callable]) is the boolean of
    that name. *)
Class Imports := {
  (** the byte values of [compiler.Op...], as the [switch] reads them *)
  opcode_of : byte -> option compiler.Opcode;
  (** [v.fileSet.Position(pos)] as [%s] prints it *)
  Position : Z -> string;
  (** [err.Error()] of the sentinel errors *)
  sentinel_text : error -> string;
  TypeName : Object -> string;
  (** [TypeName] called through a typed pointer that a failed type
      assertion left [nil] *)
  nil_Int_TypeName : string;
  nil_CompiledFunction_TypeName : string;
  BinaryOp : token.Token -> Object -> Object -> Heap -> Heap * (error + Object);
  Equals : Object -> Object -> Heap -> bool;
  IsFalsy : Object -> Heap -> bool;
  Indexable : Object -> bool;
  IndexGet : Object -> Object -> Heap -> Heap * (error + option Object);
  IndexAssignable : Object -> bool;
  IndexSet : Object -> Object -> Object -> Heap -> Heap * option error;
  Iterable : Object -> bool;
  Iterate : Object -> Heap -> Heap * Object;
  IsIterator : Object -> bool;
  Next : Object -> Heap -> Heap * bool;
  Key : Object -> Heap -> Heap * Object;
  Value : Object -> Heap -> Heap * Object;
  Callable : Object -> bool;
  Call : Object -> list Object -> Heap -> Heap * (error + option Object);
}.

(** ** Frames and the machine *)

Module Frame.
Record t := {
  fn : option nat;
  freeVars : list Ptr;
  ip : Z;
  basePointer : Z;
}.
Definition zero : t :=
  {| fn := None; freeVars := []; ip := 0; basePointer := 0 |}.
Definition set_ip (f : t) (i : Z) : t :=
  {| fn := fn f; freeVars := freeVars f; ip := i;
     basePointer := basePointer f |}.
End Frame.

(** [constants] and [builtinFuncs] are Go slices of [objects.Object]: the
    addresses of their elements, so that [&v.constants[i]] is an address.
    [curFrame] points into [frames]: an index.  [builtinFuncs] is the
    package-level variable. *)
Record VM := {
  heap : Heap;
  constants : list nat;
  stack : list Ptr;
  sp : Z;
  globals : list Ptr;
  frames : list Frame.t;
  framesIndex : Z;
  curFrame : nat;
  curInsts : list byte;
  curIPLimit : Z;
  ip : Z;
  aborting : Z;
  builtinModules : gmap string Ptr;
  builtinFuncs : list nat;
}.

Definition set_heap (v : VM) (x : Heap) : VM :=
  {| heap := x; constants := constants v; stack := stack v; sp := sp v;
     globals := globals v; frames := frames v; framesIndex := framesIndex v;
     curFrame := curFrame v; curInsts := curInsts v;
     curIPLimit := curIPLimit v; ip := ip v; aborting := aborting v;
     builtinModules := builtinModules v; builtinFuncs := builtinFuncs v |}.
Definition set_stack (v : VM) (x : list Ptr) : VM :=
  {| heap := heap v; constants := constants v; stack := x; sp := sp v;
     globals := globals v; frames := frames v; framesIndex := framesIndex v;
     curFrame := curFrame v; curInsts := curInsts v;
     curIPLimit := curIPLimit v; ip := ip v; aborting := aborting v;
     builtinModules := builtinModules v; builtinFuncs := builtinFuncs v |}.
Definition set_sp (v : VM) (x : Z) : VM :=
  {| heap := heap v; constants := constants v; stack := stack v; sp := x;
     globals := globals v; frames := frames v; framesIndex := framesIndex v;
     curFrame := curFrame v; curInsts := curInsts v;
     curIPLimit := curIPLimit v; ip := ip v; aborting := aborting v;
     builtinModules := builtinModules v; builtinFuncs := builtinFuncs v |}.
Definition set_globals (v : VM) (x : list Ptr) : VM :=
  {| heap := heap v; constants := constants v; stack := stack v; sp := sp v;
     globals := x; frames := frames v; framesIndex := framesIndex v;
     curFrame := curFrame v; curInsts := curInsts v;
     curIPLimit := curIPLimit v; ip := ip v; aborting := aborting v;
     builtinModules := builtinModules v; builtinFuncs := builtinFuncs v |}.
Definition set_frames (v : VM) (x : list Frame.t) : VM :=
  {| heap := heap v; constants := constants v; stack := stack v; sp := sp v;
     globals := globals v; frames := x; framesIndex := framesIndex v;
     curFrame := curFrame v; curInsts := curInsts v;
     curIPLimit := curIPLimit v; ip := ip v; aborting := aborting v;
     builtinModules := builtinModules v; builtinFuncs := builtinFuncs v |}.
Definition set_framesIndex (v : VM) (x : Z) : VM :=
  {| heap := heap v; constants := constants v; stack := stack v; sp := sp v;
     globals := globals v; frames := frames v; framesIndex := x;
     curFrame := curFrame v; curInsts := curInsts v;
     curIPLimit := curIPLimit v; ip := ip v; aborting := aborting v;
     builtinModules := builtinModules v; builtinFuncs := builtinFuncs v |}.
Definition set_curFrame (v : VM) (x : nat) : VM :=
  {| heap := heap v; constants := constants v; stack := stack v; sp := sp v;
     globals := globals v; frames := frames v; framesIndex := framesIndex v;
     curFrame := x; curInsts := curInsts v;
     curIPLimit := curIPLimit v; ip := ip v; aborting := aborting v;
     builtinModules := builtinModules v; builtinFuncs := builtinFuncs v |}.
Definition set_curInsts (v : VM) (x : list byte) : VM :=
  {| heap := heap v; constants := constants v; stack := stack v; sp := sp v;
     globals := globals v; frames := frames v; framesIndex := framesIndex v;
     curFrame := curFrame v; curInsts := x;
     curIPLimit := curIPLimit v; ip := ip v; aborting := aborting v;
     builtinModules := builtinModules v; builtinFuncs := builtinFuncs v |}.
Definition set_curIPLimit (v : VM) (x : Z) : VM :=
  {| heap := heap v; constants := constants v; stack := stack v; sp := sp v;
     globals := globals v; frames := frames v; framesIndex := framesIndex v;
     curFrame := curFrame v; curInsts := curInsts v;
     curIPLimit := x; ip := ip v; aborting := aborting v;
     builtinModules := builtinModules v; builtinFuncs := builtinFuncs v |}.
Definition set_ip (v : VM) (x : Z) : VM :=
  {| heap := heap v; constants := constants v; stack := stack v; sp := sp v;
     globals := globals v; frames := frames v; framesIndex := framesIndex v;
     curFrame := curFrame v; curInsts := curInsts v;
     curIPLimit := curIPLimit v; ip := x; aborting := aborting v;
     builtinModules := builtinModules v; builtinFuncs := builtinFuncs v |}.
Definition set_aborting (v : VM) (x : Z) : VM :=
  {| heap := heap v; constants := constants v; stack := stack v; sp := sp v;
     globals := globals v; frames := frames v; framesIndex := framesIndex v;
     curFrame := curFrame v; curInsts := curInsts v;
     curIPLimit := curIPLimit v; ip := ip v; aborting := x;
     builtinModules := builtinModules v; builtinFuncs := builtinFuncs v |}.

(** [compiler.Bytecode], as far as the VM reads it. *)
Record Bytecode := {
  MainFunction : nat;
  Constants : list nat;
}.

(** [p.Field] for a [*CompiledFunction] [p] *)
Definition fn_struct (h : Heap) (p : option nat)
  : Outcome objects.CompiledFunction_struct :=
  match p with
  | Some a =>
      match funcs h !! a with
      | Some f => Ok f
      | None => Panic NilDereference
      end
  | None => Panic NilDereference
  end.

Definition len {A} (l : list A) : Z := Z.of_nat (length l).

(** [NewVM]: [globals] and [builtinModules] may be [nil]; [stdlib_Modules]
    stands for [stdlib.Modules]. *)
Definition NewVM (h : Heap) (builtins : list nat)
    (stdlib_Modules : gmap string Ptr)
    (bytecode : Bytecode) (globals : option (list Ptr))
    (builtinModules : option (gmap string Ptr)) : Outcome VM :=
  let globals :=
    match globals with
    | None => replicate (Z.to_nat GlobalsSize) None
    | Some g => g
    end in
  let builtinModules :=
    match builtinModules with
    | None => stdlib_Modules
    | Some m => m
    end in
  let frames := replicate (Z.to_nat MaxFrames) Frame.zero in
  let frame0 :=
    {| Frame.fn := Some (MainFunction bytecode); Frame.freeVars := [];
       Frame.ip := -1; Frame.basePointer := 0 |} in
  let frames := <[0%nat := frame0]> frames in
  f ← fn_struct h (Some (MainFunction bytecode));
  Ok {| heap := h;
        constants := Constants bytecode;
        stack := replicate (Z.to_nat StackSize) None;
        sp := 0;
        globals := globals;
        frames := frames;
        framesIndex := 1;
        curFrame := 0%nat;
        curInsts := objects.Instructions f;
        curIPLimit := len (objects.Instructions f) - 1;
        ip := -1;
        aborting := 0;
        builtinModules := builtinModules;
        builtinFuncs := builtins |}.

(** [Abort]: [atomic.StoreInt64(&v.aborting, 1)] *)
Definition Abort (v : VM) : VM := set_aborting v 1.

(** ** [indexAssign]

    The calls made on the [objects] package are logged, in order: the index
    of the selector used, the receiver, the arguments and what the call
    returned. *)
Inductive IndexCall :=
| CallIndexGet (sidx : nat) (receiver key : Object)
    (result : error + option Object)
| CallIndexSet (sidx : nat) (receiver key value : Object)
    (result : option error).

Section Machine.
Context `{Imports}.

Definition Error_text (e : error) : string :=
  match e with
  | objects.Errorf msg => msg
  | _ => sentinel_text e
  end.

Definition is_sentinel (e s : error) : bool :=
  match e, s with
  | objects.ErrStackOverflow, objects.ErrStackOverflow
  | objects.ErrInvalidOperator, objects.ErrInvalidOperator
  | objects.ErrInvalidIndexType, objects.ErrInvalidIndexType
  | objects.ErrInvalidIndexValueType, objects.ErrInvalidIndexValueType
  | objects.ErrWrongNumArguments, objects.ErrWrongNumArguments => true
  | _, _ => false
  end.

(** The value of [*dst] in [indexAssign]: [dst] is first the handle passed in, then
    [&next], where the interface value [next] may be [nil]. *)
Definition load_dst (h : Heap) (dst : Ptr + option Object)
  : Outcome (option Object) :=
  match dst with
  | inl p => o ← deref h p; Ok (Some o)
  | inr o => Ok o
  end.

(** After the loop: the assignment to the leaf.  On a [nil] interface
    value the type assertion fails and [TypeName] is then called on
    [nil]. *)
Definition indexAssign_leaf (h : Heap) (dst : Ptr + option Object)
    (src : Ptr) (selectors : list Ptr) (log : list IndexCall)
  : Heap * list IndexCall * Outcome unit :=
  match load_dst h dst with
  | Ok (Some d) =>
      if IndexAssignable d then
        match index selectors 0 ≫= deref h with
        | Ok key =>
            match deref h src with
            | Ok val =>
                let '(h', r) := IndexSet d key val h in
                let log := log ++ [CallIndexSet 0 d key val r] in
                match r with
                | Some err =>
                    if is_sentinel err objects.ErrInvalidIndexValueType then
                      (h', log,
                       s ← deref h' src;
                       Err (objects.Errorf
                               ("invaid index value type: " +:+ TypeName s)))
                    else (h', log, Err err)
                | None => (h', log, Ok ())
                end
            | Err e => (h, log, Err e)
            | Panic p => (h, log, Panic p)
            end
        | Err e => (h, log, Err e)
        | Panic p => (h, log, Panic p)
        end
      else
        (h, log,
         Err (objects.Errorf ("not index-assignable: " +:+ TypeName d)))
  | Ok None => (h, log, Panic NilDereference)
  | Err e => (h, log, Err e)
  | Panic p => (h, log, Panic p)
  end.

(** The loop [for sidx := numSel - 1; sidx > 0; sidx--]. *)
Fixpoint indexAssign_walk (sidx : nat) (h : Heap)
    (dst : Ptr + option Object) (src : Ptr) (selectors : list Ptr)
    (log : list IndexCall) : Heap * list IndexCall * Outcome unit :=
  match sidx with
  | O => indexAssign_leaf h dst src selectors log
  | S sidx' =>
      match load_dst h dst with
      | Ok (Some d) =>
          if Indexable d then
            match index selectors (Z.of_nat sidx) ≫= deref h with
            | Ok key =>
                let '(h', r) := IndexGet d key h in
                let log := log ++ [CallIndexGet sidx d key r] in
                match r with
                | inl err =>
                    if is_sentinel err objects.ErrInvalidIndexType then
                      (h', log,
                       k ← index selectors (Z.of_nat sidx) ≫= deref h';
                       Err (objects.Errorf
                               ("invalid index type: " +:+ TypeName k)))
                    else (h', log, Err err)
                | inr next =>
                    indexAssign_walk sidx' h' (inr next) src selectors log
                end
            | Err e => (h, log, Err e)
            | Panic p => (h, log, Panic p)
            end
          else
            (h, log,
             Err (objects.Errorf ("not indexable: " +:+ TypeName d)))
      | Ok None => (h, log, Panic NilDereference)
      | Err e => (h, log, Err e)
      | Panic p => (h, log, Panic p)
      end
  end.

Definition indexAssign (h : Heap) (dst src : Ptr) (selectors : list Ptr)
  : Heap * list IndexCall * Outcome unit :=
  let numSel := length selectors in
  indexAssign_walk (numSel - 1) h (inl dst) src selectors [].

(** ** The dispatch loop: helpers *)

Definition inst (v : VM) (i : Z) : Outcome byte := index (curInsts v) i.

(** [int(v.curInsts[v.ip+2]) | int(v.curInsts[v.ip+1])<<8] *)
Definition operand16 (v : VM) : Outcome Z :=
  lo ← inst v (ip v + 2);
  hi ← inst v (ip v + 1);
  Ok (Z.lor (int_of_byte lo) (Z.shiftl (int_of_byte hi) 8)).

(** [int(v.curInsts[v.ip+k])] *)
Definition operand8 (v : VM) (k : Z) : Outcome Z :=
  b ← inst v (ip v + k);
  Ok (int_of_byte b).

Definition is_op (b : byte) (op : compiler.Opcode) : bool :=
  match opcode_of b with
  | Some o => compiler.Opcode_eqb o op
  | None => false
  end.

Definition cur_frame (v : VM) : Outcome Frame.t :=
  index (frames v) (Z.of_nat (curFrame v)).

(** [v.curFrame.fn], dereferenced *)
Definition cur_fn (v : VM) : Outcome objects.CompiledFunction_struct :=
  f ← cur_frame v;
  fn_struct (heap v) (Frame.fn f).

(** [v.fileSet.Position(v.curFrame.fn.SourceMap[at])] *)
Definition filePos (v : VM) (at_ip : Z) : Outcome string :=
  f ← cur_fn v;
  Ok (Position (default 0 (objects.SourceMap f !! at_ip))).

(** [fmt.Errorf("%s: " + msg, filePos)] *)
Definition fail_at {A} (v : VM) (at_ip : Z) (msg : string) : Outcome A :=
  pos ← filePos v at_ip;
  Err (objects.Errorf (pos +:+ ": " +:+ msg)).

(** [if v.sp >= StackSize { return ErrStackOverflow }] *)
Definition check_stack (v : VM) : Outcome unit :=
  if bool_decide (StackSize <= sp v) then Err objects.ErrStackOverflow
  else Ok ().

(** [v.stack[v.sp] = p; v.sp++] *)
Definition put (v : VM) (p : Ptr) : Outcome VM :=
  st ← store (stack v) (sp v) p;
  Ok (set_sp (set_stack v st) (sp v + 1)).

(** The overflow check followed by the push. *)
Definition push (v : VM) (p : Ptr) : Outcome VM :=
  check_stack v;; put v p.

(** [var x objects.Object = o; v.stack[v.sp] = &x; v.sp++] *)
Definition put_new (v : VM) (o : Object) : Outcome VM :=
  let '(h, p) := new_cell (heap v) o in
  put (set_heap v h) p.

(** [s[lo:hi]] on a slice whose capacity is its length *)
Definition subslice {A} (l : list A) (lo hi : Z) : Outcome (list A) :=
  if bool_decide (0 <= lo /\ lo <= hi /\ hi <= len l) then
    Ok (take (Z.to_nat (hi - lo)) (drop (Z.to_nat lo) l))
  else Panic SliceBounds.

(** The cases [OpAdd] ... [OpBShiftRight], [OpGreaterThan],
    [OpGreaterThanEqual]: alike but for the token and its spelling. *)
Definition exec_binary (tok : token.Token) (sym : string) (v : VM)
  : Outcome VM :=
  right ← index (stack v) (sp v - 1);
  left ← index (stack v) (sp v - 2);
  let v := set_sp v (sp v - 2) in
  l ← deref (heap v) left;
  r ← deref (heap v) right;
  let '(h, res) := BinaryOp tok l r (heap v) in
  let v := set_heap v h in
  match res with
  | inl err =>
      pos ← filePos v (ip v);
      if is_sentinel err objects.ErrInvalidOperator then
        l' ← deref h left;
        r' ← deref h right;
        Err (objects.Errorf
                (pos +:+ ": invalid operation: " +:+ TypeName l' +:+ " "
                 +:+ sym +:+ " " +:+ TypeName r'))
      else Err (objects.Errorf (pos +:+ ": " +:+ Error_text err))
  | inr res =>
      check_stack v;;
      put_new v res
  end.

(** [OpEqual] ([negate = false]) and [OpNotEqual] ([negate = true]) *)
Definition exec_equal (negate : bool) (v : VM) : Outcome VM :=
  right ← index (stack v) (sp v - 1);
  left ← index (stack v) (sp v - 2);
  let v := set_sp v (sp v - 2) in
  check_stack v;;
  l ← deref (heap v) left;
  r ← deref (heap v) right;
  if xorb (Equals l r (heap v)) negate then put v truePtr
  else put v falsePtr.

Definition exec_OpConstant (v : VM) : Outcome VM :=
  cidx ← operand16 v;
  let v := set_ip v (ip v + 2) in
  check_stack v;;
  a ← index (constants v) cidx;
  put v (Some a).

Definition exec_OpLNot (v : VM) : Outcome VM :=
  operand ← index (stack v) (sp v - 1);
  let v := set_sp v (sp v - 1) in
  check_stack v;;
  o ← deref (heap v) operand;
  if IsFalsy o (heap v) then put v truePtr else put v falsePtr.

Definition exec_OpBComplement (v : VM) : Outcome VM :=
  operand ← index (stack v) (sp v - 1);
  let v := set_sp v (sp v - 1) in
  x ← deref (heap v) operand;
  match x with
  | objects.Int x =>
      check_stack v;;
      put_new v (objects.Int (Z.lnot x))
  | _ =>
      fail_at v (ip v) ("invalid operation: ^" +:+ TypeName x)
  end.

Definition exec_OpMinus (v : VM) : Outcome VM :=
  operand ← index (stack v) (sp v - 1);
  let v := set_sp v (sp v - 1) in
  x ← deref (heap v) operand;
  match x with
  | objects.Int x =>
      check_stack v;;
      put_new v (objects.Int (wrap64 (- x)))
  | objects.Float x =>
      check_stack v;;
      put_new v (objects.Float (Z.lxor x (2 ^ 63)))
  | _ =>
      fail_at v (ip v) ("invalid operation: -" +:+ TypeName x)
  end.

Definition exec_OpJumpFalsy (v : VM) : Outcome VM :=
  pos ← operand16 v;
  let v := set_ip v (ip v + 2) in
  condition ← index (stack v) (sp v - 1);
  let v := set_sp v (sp v - 1) in
  c ← deref (heap v) condition;
  if IsFalsy c (heap v) then Ok (set_ip v (pos - 1)) else Ok v.

Definition exec_OpAndJump (v : VM) : Outcome VM :=
  pos ← operand16 v;
  let v := set_ip v (ip v + 2) in
  condition ← index (stack v) (sp v - 1) ≫= deref (heap v);
  if IsFalsy condition (heap v) then Ok (set_ip v (pos - 1))
  else Ok (set_sp v (sp v - 1)).

Definition exec_OpOrJump (v : VM) : Outcome VM :=
  pos ← operand16 v;
  let v := set_ip v (ip v + 2) in
  condition ← index (stack v) (sp v - 1) ≫= deref (heap v);
  if negb (IsFalsy condition (heap v)) then Ok (set_ip v (pos - 1))
  else Ok (set_sp v (sp v - 1)).

Definition exec_OpJump (v : VM) : Outcome VM :=
  pos ← operand16 v;
  Ok (set_ip v (pos - 1)).

Definition exec_OpSetGlobal (v : VM) : Outcome VM :=
  globalIndex ← operand16 v;
  let v := set_ip v (ip v + 2) in
  let v := set_sp v (sp v - 1) in
  x ← index (stack v) (sp v);
  g ← store (globals v) globalIndex x;
  Ok (set_globals v g).

Definition exec_OpGetGlobal (v : VM) : Outcome VM :=
  globalIndex ← operand16 v;
  let v := set_ip v (ip v + 2) in
  val ← index (globals v) globalIndex;
  push v val.

(** The tail shared by [OpSetSelGlobal], [OpSetSelLocal] and
    [OpSetSelFree]: the selectors and the right-hand side are taken from
    the stack, [dst] is evaluated, [indexAssign] runs.  [width] is the
    number of operand bytes, already added to [v.ip]. *)
Definition exec_setsel (v : VM) (numSelectors width : Z)
    (dst : VM -> Outcome Ptr) : list IndexCall * Outcome VM :=
  match
    (selectors ← subslice (stack v) (sp v - numSelectors) (sp v);
     val ← index (stack v) (sp v - numSelectors - 1);
     let v := set_sp v (sp v - (numSelectors + 1)) in
     d ← dst v;
     Ok (selectors, val, v, d))
  with
  | Ok (selectors, val, v, d) =>
      let '(h, log, r) := indexAssign (heap v) d val selectors in
      let v := set_heap v h in
      (log,
       match r with
       | Ok _ => Ok v
       | Err err => fail_at v (ip v - width) (Error_text err)
       | Panic p => Panic p
       end)
  | Err e => ([], Err e)
  | Panic p => ([], Panic p)
  end.

Definition exec_OpSetSelGlobal (v : VM) : list IndexCall * Outcome VM :=
  match
    (globalIndex ← operand16 v;
     numSelectors ← operand8 v 3;
     Ok (globalIndex, numSelectors))
  with
  | Ok (globalIndex, numSelectors) =>
      exec_setsel (set_ip v (ip v + 3)) numSelectors 3
        (fun v => index (globals v) globalIndex)
  | Err e => ([], Err e)
  | Panic p => ([], Panic p)
  end.

Definition exec_OpSetSelLocal (v : VM) : list IndexCall * Outcome VM :=
  match
    (localIndex ← operand8 v 1;
     numSelectors ← operand8 v 2;
     Ok (localIndex, numSelectors))
  with
  | Ok (localIndex, numSelectors) =>
      exec_setsel (set_ip v (ip v + 2)) numSelectors 2
        (fun v =>
           f ← cur_frame v;
           index (stack v) (Frame.basePointer f + localIndex))
  | Err e => ([], Err e)
  | Panic p => ([], Panic p)
  end.

Definition exec_OpSetSelFree (v : VM) : list IndexCall * Outcome VM :=
  match
    (freeIndex ← operand8 v 1;
     numSelectors ← operand8 v 2;
     Ok (freeIndex, numSelectors))
  with
  | Ok (freeIndex, numSelectors) =>
      exec_setsel (set_ip v (ip v + 2)) numSelectors 2
        (fun v =>
           f ← cur_frame v;
           index (Frame.freeVars f) freeIndex)
  | Err e => ([], Err e)
  | Panic p => ([], Panic p)
  end.

(** [for i := from; i < v.sp; i++ { elements = append(elements, ...) }];
    [n] bounds the number of rounds. *)
Fixpoint collect (n : nat) (v : VM) (i : Z) (elements : list Object)
  : Outcome (list Object) :=
  match n with
  | O => Ok elements
  | S n' =>
      if bool_decide (i < sp v) then
        o ← index (stack v) i ≫= deref (heap v);
        collect n' v (i + 1) (elements ++ [o])
      else Ok elements
  end.

Definition exec_OpArray (v : VM) : Outcome VM :=
  numElements ← operand16 v;
  let v := set_ip v (ip v + 2) in
  elements ← collect (Z.to_nat numElements) v (sp v - numElements) [];
  let v := set_sp v (sp v - numElements) in
  let '(h, s) := new_array (heap v) elements in
  let v := set_heap v h in
  check_stack v;;
  put_new v (objects.Array s).

(** [for i := from; i < v.sp; i += 2 { ... kv[k] = value }], where [k] is
    the key asserted to be a [String]; [n] bounds the number of rounds. *)
Fixpoint collect_kv (n : nat) (v : VM) (i : Z) (kv : gmap string Object)
  : Outcome (gmap string Object) :=
  match n with
  | O => Ok kv
  | S n' =>
      if bool_decide (i < sp v) then
        key ← index (stack v) i ≫= deref (heap v);
        value ← index (stack v) (i + 1) ≫= deref (heap v);
        match key with
        | objects.String k => collect_kv n' v (i + 2) (<[k := value]> kv)
        | _ => Panic TypeAssertion
        end
      else Ok kv
  end.

Definition exec_OpMap (v : VM) : Outcome VM :=
  numElements ← operand16 v;
  let v := set_ip v (ip v + 2) in
  kv ← collect_kv (Z.to_nat numElements) v (sp v - numElements) ∅;
  let v := set_sp v (sp v - numElements) in
  let '(h, m) := new_map (heap v) kv in
  let v := set_heap v h in
  check_stack v;;
  put_new v (objects.Map m).

Definition exec_OpError (v : VM) : Outcome VM :=
  value ← index (stack v) (sp v - 1);
  o ← deref (heap v) value;
  let '(h, field) := alloc (heap v) o in
  let '(h, p) := new_cell h (objects.Error field) in
  st ← store (stack v) (sp v - 1) p;
  Ok (set_stack (set_heap v h) st).

Definition exec_OpImmutable (v : VM) : Outcome VM :=
  value ← index (stack v) (sp v - 1);
  o ← deref (heap v) value;
  match o with
  | objects.Array s =>
      let '(h, p) := new_cell (heap v) (objects.ImmutableArray s) in
      st ← store (stack v) (sp v - 1) p;
      Ok (set_stack (set_heap v h) st)
  | objects.Map m =>
      let '(h, p) := new_cell (heap v) (objects.ImmutableMap m) in
      st ← store (stack v) (sp v - 1) p;
      Ok (set_stack (set_heap v h) st)
  | _ => Ok v
  end.

Definition exec_OpIndex (v : VM) : Outcome VM :=
  index_ ← index (stack v) (sp v - 1);
  left ← index (stack v) (sp v - 2);
  let v := set_sp v (sp v - 2) in
  l ← deref (heap v) left;
  if Indexable l then
    key ← deref (heap v) index_;
    let '(h, r) := IndexGet l key (heap v) in
    let v := set_heap v h in
    match r with
    | inl err =>
        pos ← filePos v (ip v);
        if is_sentinel err objects.ErrInvalidIndexType then
          k ← deref h index_;
          Err (objects.Errorf
                  (pos +:+ ": invalid index type: " +:+ TypeName k))
        else Err (objects.Errorf (pos +:+ ": " +:+ Error_text err))
    | inr val =>
        let val := default objects.Undefined val in
        check_stack v;;
        put_new v val
    end
  else
    match l with
    | objects.Error field =>
        key ← deref (heap v) index_;
        match key with
        | objects.String "value" =>
            check_stack v;;
            put v (Some field)
        | _ => fail_at v (ip v) "invalid index on error"
        end
    | _ => fail_at v (ip v) ("not indexable: " +:+ TypeName l)
    end.

(** [OpSliceIndex]: the decoding of the high bound, the test
    [lowIdx > highIdx] and the clamping, which the four container cases
    repeat word for word.  Gives the clamped pair. *)
Definition slice_bounds (v : VM) (lowIdx : Z) (high : Ptr)
    (numElements : Z) : Outcome (Z * Z) :=
  h ← deref (heap v) high;
  highIdx ←
    match h with
    | objects.Undefined => Ok numElements
    | objects.Int x => Ok x
    | _ =>
        fail_at v (ip v)
          ("invalid slice index type: " +:+ nil_Int_TypeName)
    end;
  if bool_decide (lowIdx > highIdx) then
    fail_at v (ip v)
      ("invalid slice index: " +:+ pretty lowIdx +:+ " > "
       +:+ pretty highIdx)
  else
    let lowIdx :=
      if bool_decide (lowIdx < 0) then 0
      else if bool_decide (lowIdx > numElements) then numElements
      else lowIdx in
    let highIdx :=
      if bool_decide (highIdx < 0) then 0
      else if bool_decide (highIdx > numElements) then numElements
      else highIdx in
    check_stack v;;
    Ok (lowIdx, highIdx).

(** [s[lo:hi]] on a string or on bytes *)
Definition substr (s : string) (lo hi : Z) : string :=
  String.substring (Z.to_nat lo) (Z.to_nat (hi - lo)) s.
Definition subbytes (s : list byte) (lo hi : Z) : list byte :=
  take (Z.to_nat (hi - lo)) (drop (Z.to_nat lo) s).

Definition exec_OpSliceIndex (v : VM) : Outcome VM :=
  high ← index (stack v) (sp v - 1);
  low ← index (stack v) (sp v - 2);
  left ← index (stack v) (sp v - 3);
  let v := set_sp v (sp v - 3) in
  lo ← deref (heap v) low;
  lowIdx ←
    match lo with
    | objects.Undefined => Ok 0
    | objects.Int x => Ok x
    | _ =>
        fail_at v (ip v)
          ("invalid slice index type: " +:+ nil_Int_TypeName)
    end;
  l ← deref (heap v) left;
  match l with
  | objects.Array s =>
      '(lowIdx, highIdx) ← slice_bounds v lowIdx high (Z.of_nat (sl_len s));
      put_new v (objects.Array (reslice s lowIdx highIdx))
  | objects.ImmutableArray s =>
      '(lowIdx, highIdx) ← slice_bounds v lowIdx high (Z.of_nat (sl_len s));
      put_new v (objects.Array (reslice s lowIdx highIdx))
  | objects.String s =>
      '(lowIdx, highIdx) ←
        slice_bounds v lowIdx high (Z.of_nat (String.length s));
      put_new v (objects.String (substr s lowIdx highIdx))
  | objects.Bytes s =>
      '(lowIdx, highIdx) ← slice_bounds v lowIdx high (len s);
      put_new v (objects.Bytes (subbytes s lowIdx highIdx))
  | _ => Ok v
  end.

(** [for p := 0; p < numArgs; p++ {
       v.stack[v.curFrame.basePointer+p] = v.stack[v.sp-numArgs+p] }],
    with [n] rounds left. *)
Fixpoint copy_args (n : nat) (p basePointer from : Z) (st : list Ptr)
  : Outcome (list Ptr) :=
  match n with
  | O => Ok st
  | S n' =>
      x ← index st (from + p);
      st ← store st (basePointer + p) x;
      copy_args n' (p + 1) basePointer from st
  end.

(** [nextOp == compiler.OpReturnValue ||
     (nextOp == compiler.OpPop && compiler.OpReturn == v.curInsts[v.ip+2])] *)
Definition in_tail_position (v : VM) : Outcome bool :=
  nextOp ← inst v (ip v + 1);
  if is_op nextOp compiler.OpReturnValue then Ok true
  else if is_op nextOp compiler.OpPop then
    b ← inst v (ip v + 2);
    Ok (is_op b compiler.OpReturn)
  else Ok false.

(** The body of the tail-call branch. *)
Definition tail_call (v : VM) (numArgs : Z) : Outcome VM :=
  f ← cur_frame v;
  st ← copy_args (Z.to_nat numArgs) 0 (Frame.basePointer f)
         (sp v - numArgs) (stack v);
  Ok (set_ip (set_sp (set_stack v st) (sp v - (numArgs + 1))) (-1)).

(** The lines under [// update call frame]. *)
Definition push_frame (v : VM) (numArgs : Z) (fn : nat)
    (callee : objects.CompiledFunction_struct) (free : list Ptr)
  : Outcome VM :=
  cur ← cur_frame v;
  frs ← store (frames v) (Z.of_nat (curFrame v)) (Frame.set_ip cur (ip v));
  slot ← index frs (framesIndex v);
  let frame :=
    {| Frame.fn := Some fn; Frame.freeVars := free;
       Frame.ip := Frame.ip slot;
       Frame.basePointer := sp v - numArgs |} in
  frs ← store frs (framesIndex v) frame;
  let v := set_frames v frs in
  let v := set_curFrame v (Z.to_nat (framesIndex v)) in
  let v := set_curInsts v (objects.Instructions callee) in
  let v := set_ip v (-1) in
  let v := set_curIPLimit v (len (objects.Instructions callee) - 1) in
  let v := set_framesIndex v (framesIndex v + 1) in
  Ok (set_sp v (sp v - numArgs + objects.NumLocals callee)).

(** The cases [*objects.Closure] ([fn = callee.Fn], [free = callee.Free])
    and [*objects.CompiledFunction] ([fn = callee], [free = nil]) of
    [OpCall], which differ in nothing else. *)
Definition call_function (v : VM) (numArgs : Z) (fn : nat)
    (free : list Ptr) : Outcome VM :=
  callee ← fn_struct (heap v) (Some fn);
  if bool_decide (numArgs ≠ objects.NumParameters callee) then
    fail_at v (ip v - 1)
      ("wrong number of arguments: want="
       +:+ pretty (objects.NumParameters callee)
       +:+ ", got=" +:+ pretty numArgs)
  else
    cur ← cur_frame v;
    tail ←
      (if bool_decide (Some fn = Frame.fn cur) then in_tail_position v
       else Ok false);
    if tail : bool then tail_call v numArgs
    else push_frame v numArgs fn callee free.

Fixpoint deref_all (h : Heap) (ps : list Ptr) : Outcome (list Object) :=
  match ps with
  | [] => Ok []
  | p :: ps =>
      o ← deref h p;
      os ← deref_all h ps;
      Ok (o :: os)
  end.

(** The case [objects.Callable] of [OpCall]. *)
Definition call_callable (v : VM) (numArgs : Z) (value : Object)
  : Outcome VM :=
  args ← subslice (stack v) (sp v - numArgs) (sp v) ≫= deref_all (heap v);
  let '(h, r) := Call value args (heap v) in
  let v := set_heap v h in
  let v := set_sp v (sp v - (numArgs + 1)) in
  match r with
  | inl err =>
      pos ← filePos v (ip v - 1);
      if is_sentinel err objects.ErrWrongNumArguments then
        Err (objects.Errorf
                (pos +:+ ": wrong number of arguments in call to '"
                 +:+ TypeName value +:+ "'"))
      else
        match err with
        | objects.ErrInvalidArgumentType name expected found =>
            Err (objects.Errorf
                    (pos +:+ ": invalid type for argument '" +:+ name
                     +:+ "' in call to '" +:+ TypeName value
                     +:+ "': expected " +:+ expected
                     +:+ ", found " +:+ found))
        | _ => Err (objects.Errorf (pos +:+ ": " +:+ Error_text err))
        end
  | inr ret =>
      let ret := default objects.Undefined ret in
      check_stack v;;
      put_new v ret
  end.

Definition exec_OpCall (v : VM) : Outcome VM :=
  numArgs ← operand8 v 1;
  let v := set_ip v (ip v + 1) in
  value ← index (stack v) (sp v - 1 - numArgs) ≫= deref (heap v);
  match value with
  | objects.Closure fn free => call_function v numArgs fn free
  | objects.CompiledFunction fn => call_function v numArgs fn []
  | _ =>
      if Callable value then call_callable v numArgs value
      else fail_at v (ip v - 1) ("not callable: " +:+ TypeName value)
  end.

(** What [OpReturnValue] and [OpReturn] do once the returned handle is
    chosen. *)
Definition pop_frame (v : VM) (retVal : Ptr) : Outcome VM :=
  let v := set_framesIndex v (framesIndex v - 1) in
  lastFrame ← index (frames v) (framesIndex v);
  _ ← index (frames v) (framesIndex v - 1);
  let v := set_curFrame v (Z.to_nat (framesIndex v - 1)) in
  f ← cur_fn v;
  let v := set_curInsts v (objects.Instructions f) in
  let v := set_curIPLimit v (len (objects.Instructions f) - 1) in
  cur ← cur_frame v;
  let v := set_ip v (Frame.ip cur) in
  let v := set_sp v (Frame.basePointer lastFrame) in
  st ← store (stack v) (sp v - 1) retVal;
  Ok (set_stack v st).

Definition exec_OpReturnValue (v : VM) : Outcome VM :=
  retVal ← index (stack v) (sp v - 1);
  pop_frame v retVal.

Definition exec_OpReturn (v : VM) : Outcome VM :=
  pop_frame v undefinedPtr.

Definition exec_OpDefineLocal (v : VM) : Outcome VM :=
  localIndex ← operand8 v 1;
  let v := set_ip v (ip v + 1) in
  f ← cur_frame v;
  let sp_ := Frame.basePointer f + localIndex in
  val ← index (stack v) (sp v - 1) ≫= deref (heap v);
  let v := set_sp v (sp v - 1) in
  let '(h, p) := new_cell (heap v) val in
  st ← store (stack v) sp_ p;
  Ok (set_stack (set_heap v h) st).

Definition exec_OpSetLocal (v : VM) : Outcome VM :=
  localIndex ← operand8 v 1;
  let v := set_ip v (ip v + 1) in
  f ← cur_frame v;
  let sp_ := Frame.basePointer f + localIndex in
  val ← index (stack v) (sp v - 1);
  let v := set_sp v (sp v - 1) in
  target ← index (stack v) sp_;
  o ← deref (heap v) val;
  h ← assign (heap v) target o;
  Ok (set_heap v h).

Definition exec_OpGetLocal (v : VM) : Outcome VM :=
  localIndex ← operand8 v 1;
  let v := set_ip v (ip v + 1) in
  f ← cur_frame v;
  val ← index (stack v) (Frame.basePointer f + localIndex);
  push v val.

Definition exec_OpGetBuiltin (v : VM) : Outcome VM :=
  builtinIndex ← operand8 v 1;
  let v := set_ip v (ip v + 1) in
  check_stack v;;
  a ← index (builtinFuncs v) builtinIndex;
  put v (Some a).

Definition exec_OpGetBuiltinModule (v : VM) : Outcome VM :=
  val ← index (stack v) (sp v - 1);
  let v := set_sp v (sp v - 1) in
  o ← deref (heap v) val;
  match o with
  | objects.String moduleName =>
      match builtinModules v !! moduleName with
      | None =>
          fail_at v (ip v - 3)
            ("module '" +:+ moduleName +:+ "' not found")
      | Some module => push v module
      end
  | _ => Panic TypeAssertion
  end.

(** [for i := 0; i < numFree; i++ { free[i] = v.stack[v.sp-numFree+i] }] *)
Fixpoint gather (n : nat) (st : list Ptr) (from : Z) : Outcome (list Ptr) :=
  match n with
  | O => Ok []
  | S n' =>
      x ← index st from;
      xs ← gather n' st (from + 1);
      Ok (x :: xs)
  end.

Definition exec_OpClosure (v : VM) : Outcome VM :=
  constIndex ← operand16 v;
  numFree ← operand8 v 3;
  let v := set_ip v (ip v + 3) in
  a ← index (constants v) constIndex;
  c ← deref (heap v) (Some a);
  match c with
  | objects.CompiledFunction fn =>
      free ← gather (Z.to_nat numFree) (stack v) (sp v - numFree);
      let v := set_sp v (sp v - numFree) in
      check_stack v;;
      put_new v (objects.Closure fn free)
  | _ =>
      fail_at v (ip v - 3)
        ("not function: " +:+ nil_CompiledFunction_TypeName)
  end.

Definition exec_OpGetFree (v : VM) : Outcome VM :=
  freeIndex ← operand8 v 1;
  let v := set_ip v (ip v + 1) in
  f ← cur_frame v;
  val ← index (Frame.freeVars f) freeIndex;
  push v val.

Definition exec_OpSetFree (v : VM) : Outcome VM :=
  freeIndex ← operand8 v 1;
  let v := set_ip v (ip v + 1) in
  val ← index (stack v) (sp v - 1);
  let v := set_sp v (sp v - 1) in
  f ← cur_frame v;
  target ← index (Frame.freeVars f) freeIndex;
  o ← deref (heap v) val;
  h ← assign (heap v) target o;
  Ok (set_heap v h).

Definition exec_OpIteratorInit (v : VM) : Outcome VM :=
  dst ← index (stack v) (sp v - 1);
  let v := set_sp v (sp v - 1) in
  d ← deref (heap v) dst;
  if Iterable d then
    let '(h, iterator) := Iterate d (heap v) in
    let v := set_heap v h in
    check_stack v;;
    put_new v iterator
  else fail_at v (ip v) ("not iterable: " +:+ TypeName d).

Definition exec_OpIteratorNext (v : VM) : Outcome VM :=
  iterator ← index (stack v) (sp v - 1);
  let v := set_sp v (sp v - 1) in
  it ← deref (heap v) iterator;
  if IsIterator it then
    let '(h, hasMore) := Next it (heap v) in
    let v := set_heap v h in
    check_stack v;;
    if hasMore : bool then put v truePtr else put v falsePtr
  else Panic TypeAssertion.

(** [OpIteratorKey] and [OpIteratorValue], [get] being [Key] or [Value] *)
Definition exec_iterator_get (get : Object -> Heap -> Heap * Object)
    (v : VM) : Outcome VM :=
  iterator ← index (stack v) (sp v - 1);
  let v := set_sp v (sp v - 1) in
  it ← deref (heap v) iterator;
  if IsIterator it then
    let '(h, val) := get it (heap v) in
    let v := set_heap v h in
    check_stack v;;
    put_new v val
  else Panic TypeAssertion.

(** ** The dispatch loop *)

(** The [switch].  The selector assignments also give the log of their
    [indexAssign]. *)
Definition exec (op : compiler.Opcode) (v : VM)
  : list IndexCall * Outcome VM :=
  match op with
  | compiler.OpConstant => ([], exec_OpConstant v)
  | compiler.OpNull => ([], push v undefinedPtr)
  | compiler.OpAdd => ([], exec_binary token.Add "+" v)
  | compiler.OpSub => ([], exec_binary token.Sub "-" v)
  | compiler.OpMul => ([], exec_binary token.Mul "*" v)
  | compiler.OpDiv => ([], exec_binary token.Quo "/" v)
  | compiler.OpRem => ([], exec_binary token.Rem "%" v)
  | compiler.OpBAnd => ([], exec_binary token.And "&" v)
  | compiler.OpBOr => ([], exec_binary token.Or "|" v)
  | compiler.OpBXor => ([], exec_binary token.Xor "^" v)
  | compiler.OpBAndNot => ([], exec_binary token.AndNot "&^" v)
  | compiler.OpBShiftLeft => ([], exec_binary token.Shl "<<" v)
  | compiler.OpBShiftRight => ([], exec_binary token.Shr ">>" v)
  | compiler.OpEqual => ([], exec_equal false v)
  | compiler.OpNotEqual => ([], exec_equal true v)
  | compiler.OpGreaterThan => ([], exec_binary token.Greater ">" v)
  | compiler.OpGreaterThanEqual => ([], exec_binary token.GreaterEq ">=" v)
  | compiler.OpPop => ([], Ok (set_sp v (sp v - 1)))
  | compiler.OpTrue => ([], push v truePtr)
  | compiler.OpFalse => ([], push v falsePtr)
  | compiler.OpLNot => ([], exec_OpLNot v)
  | compiler.OpBComplement => ([], exec_OpBComplement v)
  | compiler.OpMinus => ([], exec_OpMinus v)
  | compiler.OpJumpFalsy => ([], exec_OpJumpFalsy v)
  | compiler.OpAndJump => ([], exec_OpAndJump v)
  | compiler.OpOrJump => ([], exec_OpOrJump v)
  | compiler.OpJump => ([], exec_OpJump v)
  | compiler.OpSetGlobal => ([], exec_OpSetGlobal v)
  | compiler.OpSetSelGlobal => exec_OpSetSelGlobal v
  | compiler.OpGetGlobal => ([], exec_OpGetGlobal v)
  | compiler.OpArray => ([], exec_OpArray v)
  | compiler.OpMap => ([], exec_OpMap v)
  | compiler.OpError => ([], exec_OpError v)
  | compiler.OpImmutable => ([], exec_OpImmutable v)
  | compiler.OpIndex => ([], exec_OpIndex v)
  | compiler.OpSliceIndex => ([], exec_OpSliceIndex v)
  | compiler.OpCall => ([], exec_OpCall v)
  | compiler.OpReturnValue => ([], exec_OpReturnValue v)
  | compiler.OpReturn => ([], exec_OpReturn v)
  | compiler.OpDefineLocal => ([], exec_OpDefineLocal v)
  | compiler.OpSetLocal => ([], exec_OpSetLocal v)
  | compiler.OpSetSelLocal => exec_OpSetSelLocal v
  | compiler.OpGetLocal => ([], exec_OpGetLocal v)
  | compiler.OpGetBuiltin => ([], exec_OpGetBuiltin v)
  | compiler.OpGetBuiltinModule => ([], exec_OpGetBuiltinModule v)
  | compiler.OpClosure => ([], exec_OpClosure v)
  | compiler.OpGetFree => ([], exec_OpGetFree v)
  | compiler.OpSetSelFree => exec_OpSetSelFree v
  | compiler.OpSetFree => ([], exec_OpSetFree v)
  | compiler.OpIteratorInit => ([], exec_OpIteratorInit v)
  | compiler.OpIteratorNext => ([], exec_OpIteratorNext v)
  | compiler.OpIteratorKey => ([], exec_iterator_get Key v)
  | compiler.OpIteratorValue => ([], exec_iterator_get Value v)
  end.

(** One round of the loop body: [v.ip++] and the [switch]. *)
Definition step_log (v : VM) : list IndexCall * Outcome VM :=
  let v := set_ip v (ip v + 1) in
  match inst v (ip v) with
  | Ok b =>
      match opcode_of b with
      | Some op => exec op v
      | None => ([], Panic (UnknownOpcode b))
      end
  | Err e => ([], Err e)
  | Panic p => ([], Panic p)
  end.

Definition step (v : VM) : Outcome VM := (step_log v).2.

(** How a call of [Run] ends: it returns ([None] for [nil]), it panics,
    or the rounds given to the model ran out.  Each carries the machine as
    it was when the loop was last entered or left. *)
Inductive Result :=
| Returns (err : option error) (v : VM)
| Panics (p : panic) (v : VM)
| OutOfFuel (v : VM).

(** The abort flag is written by another thread.  [aborts n] tells whether
    a call of [Abort] has landed between the previous load of the flag and
    the [n]-th one (loads are counted from 0, after the store that clears
    the flag on entry); [atomic.LoadInt64(&v.aborting)] then reads the
    flag. *)
Definition load_aborting (aborts : nat -> bool) (n : nat) (v : VM) : VM :=
  if aborts n then Abort v else v.

(** The lines after the loop. *)
Definition after_loop (aborts : nat -> bool) (n : nat) (v : VM) : Result :=
  if bool_decide (sp v > 0) then
    let v := load_aborting aborts n v in
    if bool_decide (aborting v = 0) then Panics (NonEmptyStack (sp v)) v
    else Returns None v
  else Returns None v.

(** [for v.ip < v.curIPLimit && (atomic.LoadInt64(&v.aborting) == 0)] *)
Fixpoint mainloop (fuel : nat) (aborts : nat -> bool) (n : nat) (v : VM)
  : Result :=
  match fuel with
  | O => OutOfFuel v
  | S fuel' =>
      if bool_decide (ip v < curIPLimit v) then
        let v := load_aborting aborts n v in
        if bool_decide (aborting v = 0) then
          match step v with
          | Ok v' => mainloop fuel' aborts (S n) v'
          | Err e => Returns (Some e) v
          | Panic p => Panics p v
          end
        else after_loop aborts (S n) v
      else after_loop aborts n v
  end.

(** The lines under [// reset VM states]. *)
Definition reset (v : VM) : Outcome VM :=
  let v := set_sp v 0 in
  _ ← index (frames v) 0;
  let v := set_curFrame v 0%nat in
  f ← cur_fn v;
  let v := set_curInsts v (objects.Instructions f) in
  let v := set_curIPLimit v (len (curInsts v) - 1) in
  let v := set_framesIndex v 1 in
  let v := set_ip v (-1) in
  Ok (set_aborting v 0).

Definition Run (fuel : nat) (aborts : nat -> bool) (v : VM) : Result :=
  match reset v with
  | Ok v => mainloop fuel aborts 0 v
  | Err e => Returns (Some e) v
  | Panic p => Panics p v
  end.

(** [FrameInfo] *)
Definition FrameInfo (v : VM) : Z * Z := (framesIndex v - 1, ip v).

End Machine.

(** [n] rounds of the loop body, without the loop condition. *)
Fixpoint steps `{Imports} (n : nat) (v : VM) : Outcome VM :=
  match n with
  | O => Ok v
  | S n' => v' ← step v; steps n' v'
  end.

(** ** A concrete instance

    Modelled from the spec: the opcode numbering of package [compiler], the
    rendering of positions of package [source] and the operations of package
    [objects] are not in [runtime/vm.go].  The instance below gives them the
    behaviour the specification describes (§3 capability contracts, §4.1
    arithmetic), as far as the examples of this file use them: integers with
    wrap-around, maps and arrays that can be indexed and assigned, nothing
    callable or iterable.  The general results do not depend on it. *)
Module Sample.
Import compiler.

Definition all_opcodes : list Opcode :=
  [OpConstant; OpNull; OpAdd; OpSub; OpMul; OpDiv; OpRem; OpBAnd; OpBOr;
   OpBXor; OpBAndNot; OpBShiftLeft; OpBShiftRight; OpEqual; OpNotEqual;
   OpGreaterThan; OpGreaterThanEqual; OpPop; OpTrue; OpFalse; OpLNot;
   OpBComplement; OpMinus; OpJumpFalsy; OpAndJump; OpOrJump; OpJump;
   OpSetGlobal; OpSetSelGlobal; OpGetGlobal; OpArray; OpMap; OpError;
   OpImmutable; OpIndex; OpSliceIndex; OpCall; OpReturnValue; OpReturn;
   OpDefineLocal; OpSetLocal; OpSetSelLocal; OpGetLocal; OpGetBuiltin;
   OpGetBuiltinModule; OpClosure; OpGetFree; OpSetSelFree; OpSetFree;
   OpIteratorInit; OpIteratorNext; OpIteratorKey; OpIteratorValue].

(** The byte of an opcode: its rank in the list. *)
Fixpoint rank (op : Opcode) (l : list Opcode) (n : N) : N :=
  match l with
  | [] => n
  | o :: l => if Opcode_eqb o op then n else rank op l (n + 1)%N
  end.

Definition Op (op : Opcode) : byte :=
  default x00 (Byte.of_N (rank op all_opcodes 0)).

Definition opcode_of (b : byte) : option Opcode :=
  all_opcodes !! N.to_nat (Byte.to_N b).

Definition TypeName (o : Object) : string :=
  match o with
  | objects.Undefined => "undefined"
  | objects.Bool _ => "bool"
  | objects.Int _ => "int"
  | objects.Float _ => "float"
  | objects.Char _ => "char"
  | objects.String _ => "string"
  | objects.Bytes _ => "bytes"
  | objects.Array _ => "array"
  | objects.ImmutableArray _ => "immutable-array"
  | objects.Map _ => "map"
  | objects.ImmutableMap _ => "immutable-map"
  | objects.Error _ => "error"
  | objects.CompiledFunction _ => "compiled-function"
  | objects.Closure _ _ => "closure"
  | objects.BuiltinFunction _ => "builtin-function"
  | objects.Iterator _ => "iterator"
  end.

Definition sentinel_text (e : error) : string :=
  match e with
  | objects.ErrStackOverflow => "stack overflow"
  | objects.ErrInvalidOperator => "invalid operator"
  | objects.ErrInvalidIndexType => "invalid index type"
  | objects.ErrInvalidIndexValueType => "invalid index value type"
  | objects.ErrWrongNumArguments => "wrong number of arguments"
  | objects.ErrInvalidArgumentType _ _ _ => "invalid argument type"
  | objects.Errorf msg => msg
  end.

Definition BinaryOp (tok : token.Token) (l r : Object) (h : Heap)
  : Heap * (error + Object) :=
  match l, r with
  | objects.Int a, objects.Int b =>
      match tok with
      | token.Add => (h, inr (objects.Int (wrap64 (a + b))))
      | token.Sub => (h, inr (objects.Int (wrap64 (a - b))))
      | token.Mul => (h, inr (objects.Int (wrap64 (a * b))))
      | token.Greater => (h, inr (objects.Bool (bool_decide (a > b))))
      | token.GreaterEq => (h, inr (objects.Bool (bool_decide (a >= b))))
      | _ => (h, inl objects.ErrInvalidOperator)
      end
  | _, _ => (h, inl objects.ErrInvalidOperator)
  end.

Definition Equals (l r : Object) (h : Heap) : bool :=
  match l, r with
  | objects.Undefined, objects.Undefined => true
  | objects.Bool a, objects.Bool b => bool_decide (a = b)
  | objects.Int a, objects.Int b => bool_decide (a = b)
  | objects.String a, objects.String b => bool_decide (a = b)
  | _, _ => false
  end.

Definition IsFalsy (o : Object) (h : Heap) : bool :=
  match o with
  | objects.Undefined => true
  | objects.Bool b => negb b
  | objects.Int z => bool_decide (z = 0)
  | objects.String s => bool_decide (s = "")
  | _ => false
  end.

Definition Indexable (o : Object) : bool :=
  match o with
  | objects.Array _ | objects.ImmutableArray _
  | objects.Map _ | objects.ImmutableMap _ => true
  | _ => false
  end.

Definition IndexGet (o key : Object) (h : Heap)
  : Heap * (error + option Object) :=
  match o, key with
  | objects.Map m, objects.String k
  | objects.ImmutableMap m, objects.String k =>
      (h, inr (Some (default objects.Undefined
                       (default ∅ (maps h !! m) !! k))))
  | objects.Array s, objects.Int i
  | objects.ImmutableArray s, objects.Int i =>
      if bool_decide (0 <= i) then
        match elems h s !! Z.to_nat i with
        | Some x => (h, inr (Some x))
        | None => (h, inl (objects.Errorf "index out of bounds"))
        end
      else (h, inl (objects.Errorf "index out of bounds"))
  | _, _ => (h, inl objects.ErrInvalidIndexType)
  end.

Definition IndexAssignable (o : Object) : bool :=
  match o with
  | objects.Array _ | objects.Map _ => true
  | _ => false
  end.

Definition IndexSet (o key val : Object) (h : Heap) : Heap * option error :=
  match o, key with
  | objects.Map m, objects.String k =>
      (set_maps h (alter (fun kv => <[k := val]> kv) m (maps h)), None)
  | objects.Array s, objects.Int i =>
      if bool_decide (0 <= i < Z.of_nat (sl_len s)) then
        (set_arrays h
           (alter (fun b => <[(sl_off s + Z.to_nat i)%nat := val]> b)
              (sl_arr s) (arrays h)), None)
      else (h, Some (objects.Errorf "index out of bounds"))
  | _, _ => (h, Some objects.ErrInvalidIndexType)
  end.

#[export] Instance imports : Imports :=
  Build_Imports opcode_of (fun pos => "test:" +:+ pretty pos)
    sentinel_text TypeName "int" "compiled-function"
    BinaryOp Equals IsFalsy Indexable IndexGet IndexAssignable IndexSet
    (fun _ => false) (fun o h => (h, o))
    (fun _ => false) (fun _ h => (h, false))
    (fun o h => (h, o)) (fun o h => (h, o))
    (fun _ => false) (fun _ _ h => (h, inr None)).

(** A heap holding the three package-level objects, the constants [cs]
    and the function structs [fs]; a machine made by [NewVM] over it, for
    the main function [funcs[0]], with no globals and no modules given;
    [never] is the schedule on which no thread calls [Abort]. *)
Definition heap_of (cs : list Object)
    (fs : list objects.CompiledFunction_struct) : Heap :=
  {| cells := base_cells ++ cs; arrays := []; maps := []; iters := [];
     funcs := fs |}.

Definition bytecode_of (cs : list Object) : Bytecode :=
  {| MainFunction := 0%nat;
     Constants := seq (length base_cells) (length cs) |}.

Definition machine (cs : list Object)
    (fs : list objects.CompiledFunction_struct) : Outcome VM :=
  NewVM (heap_of cs fs) [] ∅ (bytecode_of cs) None None.

Definition never : nat -> bool := fun _ => false.

Definition func (code : list byte) (numLocals numParameters : Z)
  : objects.CompiledFunction_struct :=
  {| objects.Instructions := code; objects.NumLocals := numLocals;
     objects.NumParameters := numParameters; objects.SourceMap := ∅ |}.
End Sample.

(** The bytes [bs] are the code of the current function from offset [i]. *)
Definition code_at (v : VM) (i : Z) (bs : list byte) : Prop :=
  0 <= i /\ take (length bs) (drop (Z.to_nat i) (curInsts v)) = bs.

(** A 16-bit operand, high byte first. *)
Definition u16 (hi lo : byte) : Z :=
  Z.lor (int_of_byte lo) (Z.shiftl (int_of_byte hi) 8).

(** Two machines that differ at most in the abort flag. *)
Definition same_but_flag (v v' : VM) : Prop :=
  set_aborting v' 0 = set_aborting v 0.

(** ** Examples *)

Module Examples.
Import compiler Sample.

Definition blank : VM :=
  {| heap := heap_of [] []; constants := []; stack := []; sp := 0;
     globals := []; frames := []; framesIndex := 0; curFrame := 0%nat;
     curInsts := []; curIPLimit := 0; ip := 0; aborting := 0;
     builtinModules := ∅; builtinFuncs := [] |}.

(** The machine [n] rounds into the program. *)
Definition state_after (n : nat) (cs : list Object)
    (fs : list objects.CompiledFunction_struct) : VM :=
  match machine cs fs ≫= steps n with
  | Ok v => v
  | _ => blank
  end.

(** [f := func() { return 1 + f() }; f()] *)
Definition deep_consts : list Object :=
  [objects.CompiledFunction 1; objects.Int 1].
Definition deep_funcs : list objects.CompiledFunction_struct :=
  [func [Op OpClosure; x00; x00; x00; Op OpSetGlobal; x00; x00;
         Op OpGetGlobal; x00; x00; Op OpCall; x00; Op OpPop] 0 0;
   func [Op OpConstant; x00; x01; Op OpGetGlobal; x00; x00;
         Op OpCall; x00; Op OpAdd; Op OpReturnValue] 0 0].

(** [f := func(x) { return f(x) }; f(1)] *)
Definition tail_consts : list Object :=
  [objects.CompiledFunction 1; objects.Int 1].
Definition tail_funcs : list objects.CompiledFunction_struct :=
  [func [Op OpClosure; x00; x00; x00; Op OpSetGlobal; x00; x00;
         Op OpGetGlobal; x00; x00; Op OpConstant; x00; x01;
         Op OpCall; x01; Op OpPop] 0 0;
   func [Op OpGetGlobal; x00; x00; Op OpGetLocal; x00;
         Op OpCall; x01; Op OpReturnValue] 1 1].

(** [a := [7, 7, 7]; f(1)] for a function [f] of one parameter and two
    locals, held as a constant *)
Definition stale_consts : list Object :=
  [objects.CompiledFunction 1; objects.Int 1; objects.Int 7].
Definition stale_funcs : list objects.CompiledFunction_struct :=
  [func [Op OpConstant; x00; x02; Op OpConstant; x00; x02;
         Op OpConstant; x00; x02; Op OpArray; x00; x03;
         Op OpSetGlobal; x00; x00;
         Op OpConstant; x00; x00; Op OpConstant; x00; x01;
         Op OpCall; x01; Op OpPop] 0 0;
   func [Op OpReturn] 2 1].

(** [{a: 1}] *)
Definition map_consts : list Object :=
  [objects.String "a"; objects.Int 1].
Definition map_funcs : list objects.CompiledFunction_struct :=
  [func [Op OpConstant; x00; x00; Op OpConstant; x00; x01;
         Op OpMap; x00; x02; Op OpPop] 0 0].

(** [OpClosure] over the constant [7] *)
Definition notfn_consts : list Object := [objects.Int 7].
Definition notfn_funcs : list objects.CompiledFunction_struct :=
  [func [Op OpClosure; x00; x00; x00; Op OpPop] 0 0].



(** [m := {a: {b: 1}}; m.a.b = 5] *)
Definition chain_consts : list Object :=
  [objects.String "a"; objects.String "b"; objects.Int 1; objects.Int 5].
Definition chain_funcs : list objects.CompiledFunction_struct :=
  [func [Op OpConstant; x00; x00; Op OpConstant; x00; x01;
         Op OpConstant; x00; x02; Op OpMap; x00; x02; Op OpMap; x00; x02;
         Op OpSetGlobal; x00; x00;
         Op OpConstant; x00; x03; Op OpConstant; x00; x01;
         Op OpConstant; x00; x00; Op OpSetSelGlobal; x00; x00; x02] 0 0].

(** [for { true }], left running, and the scripts [true] and the lone
    [OpPop] *)
Definition spin_funcs : list objects.CompiledFunction_struct :=
  [func [Op OpTrue; Op OpJump; x00; x00] 0 0].
Definition pop_funcs : list objects.CompiledFunction_struct :=
  [func [Op OpPop] 0 0].
Definition true_pop_funcs : list objects.CompiledFunction_struct :=
  [func [Op OpTrue; Op OpPop] 0 0].
Definition lone_true_funcs : list objects.CompiledFunction_struct :=
  [func [Op OpTrue] 0 0].

(** The machines the examples are stated at, each reached from [NewVM] by
    the rounds counted. *)
Definition deep_start : VM :=
  Eval vm_compute in state_after 0 deep_consts deep_funcs.
Definition tail_state : VM :=
  Eval vm_compute in state_after 7 tail_consts tail_funcs.
Definition tail_loop : VM :=
  Eval vm_compute in state_after 8 tail_consts tail_funcs.
Definition stale_state : VM :=
  Eval vm_compute in state_after 7 stale_consts stale_funcs.
Definition map_state : VM :=
  Eval vm_compute in state_after 2 map_consts map_funcs.
Definition notfn_state : VM :=
  Eval vm_compute in state_after 0 notfn_consts notfn_funcs.
Definition chain_state : VM :=
  Eval vm_compute in state_after 9 chain_consts chain_funcs.
Definition spin_state : VM :=
  Eval vm_compute in state_after 4 [] spin_funcs.
Definition pop_start : VM :=
  Eval vm_compute in state_after 0 [] pop_funcs.
Definition true_pop_start : VM :=
  Eval vm_compute in state_after 0 [] true_pop_funcs.
Definition lone_true_state : VM :=
  Eval vm_compute in state_after 1 [] lone_true_funcs.

(** Another thread calls [Abort] just before the load numbered [k]. *)
Definition abort_at (k : nat) : nat -> bool := fun n => bool_decide (n = k).
End Examples.

(** ** More examples

    Programs for the opcodes the examples above do not reach, and a second
    instance that has one builtin function. *)

Module Programs.
Import compiler Sample Examples.




(** A machine with builtin functions and modules of its own. *)
Definition machine_with (cs : list Object)
    (fs : list objects.CompiledFunction_struct) (builtins : list nat)
    (modules : gmap string Ptr) : Outcome VM :=
  NewVM (heap_of cs fs) builtins ∅ (bytecode_of cs) None (Some modules).

Definition state_with (I : Imports) (n : nat) (cs : list Object)
    (fs : list objects.CompiledFunction_struct) (builtins : list nat)
    (modules : gmap string Ptr) : VM :=
  match machine_with cs fs builtins modules ≫= @steps I n with
  | Ok v => v
  | _ => blank
  end.

(** A byte that is no opcode, a return and an addition in the main
    function, and the program with no instruction *)
Definition unknown_funcs : list objects.CompiledFunction_struct :=
  [func [xff; Op OpPop] 0 0].
Definition return_funcs : list objects.CompiledFunction_struct :=
  [func [Op OpReturn; Op OpPop] 0 0].
Definition add_funcs : list objects.CompiledFunction_struct :=
  [func [Op OpAdd; Op OpPop] 0 0].
Definition empty_funcs : list objects.CompiledFunction_struct :=
  [func [] 0 0].

(** [f(1, ...)] with [na] arguments, for a function of one parameter held
    as a constant, and [7()] *)
Definition arity_consts : list Object :=
  [objects.CompiledFunction 1; objects.Int 7].
Definition arity_funcs (callee na : byte)
  : list objects.CompiledFunction_struct :=
  [func [Op OpConstant; x00; callee; Op OpCall; na; Op OpPop] 0 0;
   func [Op OpReturn] 1 1].

(** [f := func(x) { x = 5 }; f(1)] *)
Definition param_consts : list Object :=
  [objects.CompiledFunction 1; objects.Int 1; objects.Int 5].
Definition param_funcs : list objects.CompiledFunction_struct :=
  [func [Op OpConstant; x00; x00; Op OpConstant; x00; x01;
         Op OpCall; x01; Op OpPop] 0 0;
   func [Op OpConstant; x00; x02; Op OpSetLocal; x00; Op OpReturn] 1 1].

(** [func() { a := 1 }()] *)
Definition local_consts : list Object :=
  [objects.CompiledFunction 1; objects.Int 1].
Definition local_funcs : list objects.CompiledFunction_struct :=
  [func [Op OpConstant; x00; x00; Op OpCall; x00; Op OpPop] 0 0;
   func [Op OpConstant; x00; x01; Op OpDefineLocal; x00; Op OpReturn] 1 0].

(** A closure over one variable, called; its body assigns 5 to the
    variable. *)
Definition free_consts : list Object :=
  [objects.CompiledFunction 1; objects.Int 1; objects.Int 5].
Definition free_funcs : list objects.CompiledFunction_struct :=
  [func [Op OpConstant; x00; x01; Op OpClosure; x00; x00; x01;
         Op OpCall; x00; Op OpPop] 0 0;
   func [Op OpConstant; x00; x02; Op OpSetFree; x00; Op OpReturn] 0 0].

(** [immutable([7])] and [error(7).value] *)
Definition frozen_consts : list Object := [objects.Int 7].
Definition frozen_funcs : list objects.CompiledFunction_struct :=
  [func [Op OpConstant; x00; x00; Op OpArray; x00; x01;
         Op OpImmutable; Op OpPop] 0 0].
Definition wrapped_consts : list Object :=
  [objects.Int 7; objects.String "value"].
Definition wrapped_funcs : list objects.CompiledFunction_struct :=
  [func [Op OpConstant; x00; x00; Op OpError; Op OpConstant; x00; x01;
         Op OpIndex; Op OpPop] 0 0].

(** [g = true; g] for the global numbered [hi * 256] *)
Definition global_funcs (hi : byte) : list objects.CompiledFunction_struct :=
  [func [Op OpTrue; Op OpSetGlobal; hi; x00; Op OpGetGlobal; hi; x00;
         Op OpPop] 0 0].

(** [import("math")] and [import("nope")], and [import(7)] *)
Definition module_consts : list Object :=
  [objects.String "math"; objects.String "nope"; objects.Int 7].
Definition module_funcs (name : byte) : list objects.CompiledFunction_struct :=
  [func [Op OpConstant; x00; name; Op OpGetBuiltinModule; Op OpPop] 0 0].
Definition module_table : gmap string Ptr := {[ "math" := undefinedPtr ]}.

(** [1 + 2] and [1 + "a"]; [-x] for the least integer *)
Definition sum_consts : list Object :=
  [objects.Int 1; objects.Int 2; objects.String "a"].
Definition sum_funcs (right : byte) : list objects.CompiledFunction_struct :=
  [func [Op OpConstant; x00; x00; Op OpConstant; x00; right; Op OpAdd;
         Op OpPop] 0 0].
Definition least_consts : list Object := [objects.Int (- 2 ^ 63)].
Definition least_funcs : list objects.CompiledFunction_struct :=
  [func [Op OpConstant; x00; x00; Op OpMinus; Op OpPop] 0 0].

(** [1 == 2] and [1 != 2]; [for x in 7 {}], and an iterator opcode on 7 *)
Definition compare_funcs (op : byte) : list objects.CompiledFunction_struct :=
  [func [Op OpConstant; x00; x00; Op OpConstant; x00; x01; op;
         Op OpPop] 0 0].
Definition iterate_funcs (op : byte) : list objects.CompiledFunction_struct :=
  [func [Op OpConstant; x00; x00; op; Op OpPop] 0 0].



(** The machines, each reached from [NewVM] by the rounds counted.
    [full_state] is [for { true }] after 2048 rounds of the loop: the stack
    is full. *)
Definition full_state : VM :=
  Eval vm_compute in state_after 4096 [] spin_funcs.
Definition unknown_start : VM :=
  Eval vm_compute in state_after 0 [] unknown_funcs.
Definition return_start : VM :=
  Eval vm_compute in state_after 0 [] return_funcs.
Definition add_start : VM :=
  Eval vm_compute in state_after 0 [] add_funcs.
Definition empty_start : VM :=
  Eval vm_compute in state_after 0 [] empty_funcs.
Definition stale_called : VM :=
  Eval vm_compute in state_after 8 stale_consts stale_funcs.
Definition arity_state : VM :=
  Eval vm_compute in state_after 1 arity_consts (arity_funcs x00 x00).
Definition seven_state : VM :=
  Eval vm_compute in state_after 1 arity_consts (arity_funcs x01 x00).
Definition param_state : VM :=
  Eval vm_compute in state_after 4 param_consts param_funcs.
Definition local_state : VM :=
  Eval vm_compute in state_after 3 local_consts local_funcs.
Definition capture_state : VM :=
  Eval vm_compute in state_after 1 free_consts free_funcs.
Definition free_state : VM :=
  Eval vm_compute in state_after 4 free_consts free_funcs.
Definition frozen_state : VM :=
  Eval vm_compute in state_after 2 frozen_consts frozen_funcs.
Definition wrapped_state : VM :=
  Eval vm_compute in state_after 1 wrapped_consts wrapped_funcs.
Definition global_state : VM :=
  Eval vm_compute in state_after 1 [] (global_funcs x00).
Definition global_state_far : VM :=
  Eval vm_compute in state_after 1 [] (global_funcs x04).
Definition module_state : VM :=
  Eval vm_compute in
    state_with imports 1 module_consts (module_funcs x00) [] module_table.
Definition module_state_none : VM :=
  Eval vm_compute in
    state_with imports 1 module_consts (module_funcs x01) [] module_table.
Definition module_state_int : VM :=
  Eval vm_compute in
    state_with imports 1 module_consts (module_funcs x02) [] module_table.
Definition array_state : VM :=
  Eval vm_compute in state_after 3 stale_consts stale_funcs.
Definition sum_state : VM :=
  Eval vm_compute in state_after 2 sum_consts (sum_funcs x01).
Definition sum_state_bad : VM :=
  Eval vm_compute in state_after 2 sum_consts (sum_funcs x02).
Definition least_state : VM :=
  Eval vm_compute in state_after 1 least_consts least_funcs.
Definition equal_state : VM :=
  Eval vm_compute in state_after 2 sum_consts (compare_funcs (Op OpEqual)).
Definition unequal_state : VM :=
  Eval vm_compute in state_after 2 sum_consts (compare_funcs (Op OpNotEqual)).
Definition iterate_state : VM :=
  Eval vm_compute in
    state_after 1 frozen_consts (iterate_funcs (Op OpIteratorInit)).
Definition next_state : VM :=
  Eval vm_compute in
    state_after 1 frozen_consts (iterate_funcs (Op OpIteratorNext)).
End Programs.

(** ** The words of the specification, as definitions *)

(** The function a callee of [OpCall] runs and the free variables it brings:
    the cases [*objects.Closure] and [*objects.CompiledFunction]. *)
Definition callee_of (value : Object) : option (nat * list Ptr) :=
  match value with
  | objects.Closure fn free => Some (fn, free)
  | objects.CompiledFunction fn => Some (fn, [])
  | _ => None
  end.

(** The opcode after a call is [OpReturnValue], or [OpPop] followed by
    [OpReturn]. *)
Definition tail_form `{Imports} (v : VM) (at_ip : Z) : Prop :=
  (exists r, code_at v at_ip [r] /\ opcode_of r = Some compiler.OpReturnValue) \/
  (exists p r,
      code_at v at_ip [p; r] /\ opcode_of p = Some compiler.OpPop /\
      opcode_of r = Some compiler.OpReturn).










(** The map built from key/value pairs, later pairs winning. *)
Definition kv_of (pairs : list (string * Object)) : gmap string Object :=
  foldl (fun kv p => <[p.1 := p.2]> kv) ∅ pairs.

(** The stack slots from [from] hold the pairs, key then value, the keys
    being [String]s. *)
Definition pairs_on_stack (v : VM) (from : Z) (pairs : list (string * Object))
  : Prop :=
  forall (j : nat) k x,
    pairs !! j = Some (k, x) ->
    index (stack v) (from + 2 * Z.of_nat j) ≫= deref (heap v)
      = Ok (objects.String k) /\
    index (stack v) (from + 2 * Z.of_nat j + 1) ≫= deref (heap v) = Ok x.


(** ** Further words for the properties of the other opcodes *)

(** The handle an [OpNull], [OpTrue] or [OpFalse] pushes. *)
Definition literal_ptr (op : compiler.Opcode) : Ptr :=
  match op with
  | compiler.OpTrue => truePtr
  | compiler.OpFalse => falsePtr
  | _ => undefinedPtr
  end.

Definition is_literal (op : compiler.Opcode) : bool :=
  match op with
  | compiler.OpNull | compiler.OpTrue | compiler.OpFalse => true
  | _ => false
  end.

(** The opcodes that take two operands from the stack: the token and the
    spelling of the operators, [None] for the two equality tests. *)
Definition binary_of (op : compiler.Opcode) : option (option (token.Token * string)) :=
  match op with
  | compiler.OpAdd => Some (Some (token.Add, "+"))
  | compiler.OpSub => Some (Some (token.Sub, "-"))
  | compiler.OpMul => Some (Some (token.Mul, "*"))
  | compiler.OpDiv => Some (Some (token.Quo, "/"))
  | compiler.OpRem => Some (Some (token.Rem, "%"))
  | compiler.OpBAnd => Some (Some (token.And, "&"))
  | compiler.OpBOr => Some (Some (token.Or, "|"))
  | compiler.OpBXor => Some (Some (token.Xor, "^"))
  | compiler.OpBAndNot => Some (Some (token.AndNot, "&^"))
  | compiler.OpBShiftLeft => Some (Some (token.Shl, "<<"))
  | compiler.OpBShiftRight => Some (Some (token.Shr, ">>"))
  | compiler.OpGreaterThan => Some (Some (token.Greater, ">"))
  | compiler.OpGreaterThanEqual => Some (Some (token.GreaterEq, ">="))
  | compiler.OpEqual | compiler.OpNotEqual => Some None
  | _ => None
  end.

(** The opcodes that move between frames. *)
Definition moves_frame (op : compiler.Opcode) : bool :=
  match op with
  | compiler.OpCall | compiler.OpReturnValue | compiler.OpReturn => true
  | _ => false
  end.

(** What no instruction changes: the sizes of the stack, of the frame array
    and of the globals, the constants, the builtins, the modules and the
    abort flag. *)
Definition same_shape (v v' : VM) : Prop :=
  length (stack v') = length (stack v) /\
  length (frames v') = length (frames v) /\
  length (globals v') = length (globals v) /\
  constants v' = constants v /\
  builtinFuncs v' = builtinFuncs v /\
  builtinModules v' = builtinModules v /\
  aborting v' = aborting v.

(** What only calls and returns change: the frames and the function being
    run. *)
Definition same_frame (v v' : VM) : Prop :=
  frames v' = frames v /\ framesIndex v' = framesIndex v /\
  curFrame v' = curFrame v /\ curInsts v' = curInsts v /\
  curIPLimit v' = curIPLimit v.

(** The value a handle of the stack leads to. *)
Definition value_at (v : VM) (i : Z) : Outcome Object :=
  index (stack v) i ≫= deref (heap v).

(** [int64] *)
Definition int64 (z : Z) : Prop := - 2 ^ 63 <= z < 2 ^ 63.
(** What [OpImmutable] makes of a value, if anything. *)
Definition frozen (o : Object) : option Object :=
  match o with
  | objects.Array s => Some (objects.ImmutableArray s)
  | objects.Map m => Some (objects.ImmutableMap m)
  | _ => None
  end.

(** The stack slots from [from] hold handles of the values [os], in
    order. *)
Definition values_on_stack (v : VM) (from : Z) (os : list Object) : Prop :=
  forall (j : nat) x,
    os !! j = Some x -> value_at v (from + Z.of_nat j) = Ok x.

(** ** Proof tools *)

Ltac vm_proj :=
  cbn [heap constants stack sp globals frames framesIndex curFrame curInsts
       curIPLimit ip aborting builtinModules builtinFuncs
       set_heap set_stack set_sp set_globals set_frames set_framesIndex
       set_curFrame set_curInsts set_curIPLimit set_ip set_aborting] in *.
Ltac bind_ok := cbn [mbind Outcome_bind].
Ltac by_running := vm_compute; first [reflexivity | discriminate | congruence].
Ltac code_here := split; [vm_compute; discriminate | vm_compute; reflexivity].

(** ** Basic facts about the helpers *)

Lemma index_Ok {A} (l : list A) (i : Z) (x : A) :
  index l i = Ok x <-> 0 <= i /\ l !! Z.to_nat i = Some x.
Proof.
  unfold index. case_bool_decide.
  - destruct (l !! Z.to_nat i) eqn:E; split.
    + intros [= ->]. auto.
    + intros [_ [= ->]]. reflexivity.
    + discriminate.
    + intros [_ [=]].
  - split; [discriminate | intros [? _]; lia].
Qed.

Lemma index_lt {A} (l : list A) (i : Z) :
  0 <= i < len l -> exists x, index l i = Ok x.
Proof.
  intros Hi. unfold len in Hi.
  destruct (lookup_lt_is_Some_2 l (Z.to_nat i)) as [x Hx]; [lia |].
  exists x. apply index_Ok. split; [lia | exact Hx].
Qed.

Lemma store_Ok {A} (l : list A) (i : Z) (x : A) :
  0 <= i < len l -> store l i x = Ok (<[Z.to_nat i := x]> l).
Proof.
  intros Hi. unfold store, len in *. rewrite bool_decide_eq_true_2; auto.
Qed.

Lemma code_at_inst (v : VM) (i : Z) (bs : list byte) (k : nat) (b : byte)
    (z : Z) :
  code_at v i bs -> bs !! k = Some b -> z = i + Z.of_nat k ->
  inst v z = Ok b.
Proof.
  intros [Hi Hbs] Hk ->. unfold inst. apply index_Ok. split; [lia |].
  rewrite <- Hbs in Hk.
  apply lookup_take_Some in Hk as [Hk _].
  rewrite lookup_drop in Hk.
  replace (Z.to_nat (i + Z.of_nat k)) with (Z.to_nat i + k)%nat by lia.
  exact Hk.
Qed.

Lemma index_store_eq {A} (l : list A) (i : Z) (x : A) :
  0 <= i < len l -> index (<[Z.to_nat i := x]> l) i = Ok x.
Proof.
  intros Hi. apply index_Ok. split; [lia |].
  apply list_lookup_insert_eq. unfold len in Hi. lia.
Qed.

Lemma index_store_ne {A} (l : list A) (i j : Z) (x : A) :
  0 <= i -> i <> j -> index (<[Z.to_nat i := x]> l) j = index l j.
Proof.
  intros Hi Hne. unfold index. case_bool_decide; [| reflexivity].
  rewrite list_lookup_insert_ne by lia. reflexivity.
Qed.

Section Loop.
Context `{Imports}.

Lemma step_exec (v : VM) (b : byte) (op : compiler.Opcode) :
  inst v (ip v + 1) = Ok b -> opcode_of b = Some op ->
  step v = (exec op (set_ip v (ip v + 1))).2.
Proof.
  intros Hb Hop. unfold step, step_log. simpl.
  change (inst (set_ip v (ip v + 1)) (ip v + 1)) with (inst v (ip v + 1)).
  rewrite Hb, Hop. reflexivity.
Qed.

Lemma load_aborting_same (aborts : nat -> bool) (n : nat) (v : VM) :
  same_but_flag v (load_aborting aborts n v).
Proof. unfold load_aborting, same_but_flag. destruct (aborts n); reflexivity. Qed.

Lemma load_aborting_zero (aborts : nat -> bool) (n : nat) (v : VM) :
  aborting (load_aborting aborts n v) = 0 -> load_aborting aborts n v = v.
Proof. unfold load_aborting. destruct (aborts n); [discriminate | reflexivity]. Qed.

Lemma load_aborting_set (aborts : nat -> bool) (n : nat) (v : VM) :
  aborting v <> 0 -> aborting (load_aborting aborts n v) <> 0.
Proof. unfold load_aborting. destruct (aborts n); simpl; [lia | auto]. Qed.

Lemma after_loop_nil (aborts : nat -> bool) (n : nat) (v v' : VM) :
  after_loop aborts n v = Returns None v' ->
  same_but_flag v v' /\ (aborting v' = 0 -> sp v' <= 0).
Proof.
  unfold after_loop. case_bool_decide as Hsp.
  - case_bool_decide as Hab; [discriminate |].
    intros [= <-]. split; [apply load_aborting_same | tauto].
  - intros [= <-]. split; [reflexivity | lia].
Qed.

Lemma mainloop_nil (fuel : nat) (aborts : nat -> bool) (n : nat) (v v' : VM) :
  mainloop fuel aborts n v = Returns None v' ->
  aborting v' = 0 -> sp v' <= 0.
Proof.
  revert n v. induction fuel as [| fuel IH]; intros n v; simpl; [discriminate |].
  case_bool_decide as Hip.
  - case_bool_decide as Hab.
    + destruct (step _) as [v1 | e | p]; try discriminate. apply IH.
    + intros Hr. apply after_loop_nil in Hr. tauto.
  - intros Hr. apply after_loop_nil in Hr. tauto.
Qed.

Lemma after_loop_aborted (aborts : nat -> bool) (n : nat) (v : VM) :
  aborting v <> 0 ->
  exists v', after_loop aborts n v = Returns None v' /\ same_but_flag v v'.
Proof.
  intros Hab. unfold after_loop. case_bool_decide as Hsp.
  - rewrite bool_decide_eq_false_2 by (apply load_aborting_set; exact Hab).
    eexists. split; [reflexivity | apply load_aborting_same].
  - eexists. split; reflexivity.
Qed.
Lemma steps_add (n m : nat) (v : VM) :
  steps (n + m) v = steps n v ≫= steps m.
Proof.
  revert v. induction n as [| n IH]; intros v; [reflexivity |].
  cbn [Nat.add steps]. destruct (step v) as [v1 | e | p]; bind_ok;
    [apply IH | reflexivity | reflexivity].
Qed.

(** An error of a step is what [Run] returns, and a panic of a step is a
    panic of [Run]. *)
Lemma step_error_is_returned (fuel : nat) (aborts : nat -> bool) (n : nat)
    (v : VM) (e : error) :
  ip v < curIPLimit v -> aborting (load_aborting aborts n v) = 0 ->
  step v = Err e ->
  mainloop (S fuel) aborts n v = Returns (Some e) v.
Proof.
  intros Hip Hab Hs. simpl.
  rewrite bool_decide_eq_true_2 by exact Hip.
  rewrite bool_decide_eq_true_2 by exact Hab.
  rewrite (load_aborting_zero _ _ _ Hab), Hs. reflexivity.
Qed.

Lemma step_panic_is_panic (fuel : nat) (aborts : nat -> bool) (n : nat)
    (v : VM) (p : panic) :
  ip v < curIPLimit v -> aborting (load_aborting aborts n v) = 0 ->
  step v = Panic p ->
  mainloop (S fuel) aborts n v = Panics p v.
Proof.
  intros Hip Hab Hs. simpl.
  rewrite bool_decide_eq_true_2 by exact Hip.
  rewrite bool_decide_eq_true_2 by exact Hab.
  rewrite (load_aborting_zero _ _ _ Hab), Hs. reflexivity.
Qed.
End Loop.

Section EntryAndExit.
Context `{Imports}.

Lemma same_but_flag_trans (a b c : VM) :
  same_but_flag a b -> same_but_flag b c -> same_but_flag a c.
Proof. unfold same_but_flag. congruence. Qed.

(** C4: [Run] clears the abort flag on entry (its reset ends with the flag
    at 0, and the loop starts from there); and whenever the flag is set when
    the loop condition is evaluated, be it set already or by an [Abort] that
    lands before this load, [Run] returns [nil] without executing another
    instruction: the machine it leaves is the one it had, stack and stack
    pointer included, but for the flag, and a non-empty stack causes no
    panic. *)
Theorem abort_exits_cleanly :
  (forall v v0, reset v = Ok v0 -> aborting v0 = 0) /\
  (forall fuel aborts v v0,
      reset v = Ok v0 -> Run fuel aborts v = mainloop fuel aborts 0 v0) /\
  (forall fuel aborts n v,
      aborting (load_aborting aborts n v) <> 0 ->
      exists v',
        mainloop (S fuel) aborts n v = Returns None v' /\
        same_but_flag v v').
Proof.
  split; [| split].
  - intros v v0. unfold reset.
    destruct (index _ _); simpl; try discriminate.
    destruct (cur_fn _); simpl; try discriminate.
    intros [= <-]. reflexivity.
  - intros fuel aborts v v0 Hr. unfold Run. rewrite Hr. reflexivity.
  - intros fuel aborts n v Hab. simpl. case_bool_decide as Hip.
    + rewrite bool_decide_eq_false_2 by exact Hab.
      destruct (after_loop_aborted aborts (S n) _ Hab) as [v' [Hv' Hs]].
      exists v'. split; [exact Hv' |].
      eapply same_but_flag_trans; [apply load_aborting_same | exact Hs].
    + unfold after_loop. case_bool_decide as Hsp.
      * rewrite bool_decide_eq_false_2 by exact Hab.
        eexists. split; [reflexivity | apply load_aborting_same].
      * eexists. split; reflexivity.
Qed.

(** C3, as amended: a [Run] that returns [nil] with the abort flag unset
    leaves a stack pointer that is not positive ([sp <= 0], hence 0 unless
    the program popped below the empty stack); and when the loop ends with
    [sp > 0] and the flag unset, [Run] panics with "non empty stack" instead
    of returning an error. *)
Theorem clean_exit_stack_not_positive :
  (forall fuel aborts v v',
      Run fuel aborts v = Returns None v' -> aborting v' = 0 ->
      sp v' <= 0 /\ (0 <= sp v' -> sp v' = 0)) /\
  (forall fuel aborts n v,
      ~ ip v < curIPLimit v -> sp v > 0 ->
      aborting (load_aborting aborts n v) = 0 ->
      mainloop (S fuel) aborts n v = Panics (NonEmptyStack (sp v)) v).
Proof.
  split.
  - intros fuel aborts v v'. unfold Run.
    destruct (reset v) as [v0 | e | p]; try discriminate.
    intros Hr Hab. pose proof (mainloop_nil _ _ _ _ _ Hr Hab). lia.
  - intros fuel aborts n v Hip Hsp Hab. simpl.
    rewrite bool_decide_eq_false_2 by exact Hip.
    unfold after_loop. rewrite bool_decide_eq_true_2 by exact Hsp.
    rewrite bool_decide_eq_true_2 by exact Hab.
    rewrite (load_aborting_zero _ _ _ Hab). reflexivity.
Qed.

(** C9: when the loop is about to execute an [OpClosure] whose constant is
    not a [*CompiledFunction], [Run] returns an error (it does not panic):
    the position of the opcode, then "not function: " and a type name. *)
Theorem closure_over_non_function_fails
    (fuel : nat) (aborts : nat -> bool) (n : nat) (v : VM)
    (b hi lo nf : byte) (a : nat) (c : Object)
    (f : objects.CompiledFunction_struct) :
  ip v < curIPLimit v ->
  aborting (load_aborting aborts n v) = 0 ->
  code_at v (ip v + 1) [b; hi; lo; nf] ->
  opcode_of b = Some compiler.OpClosure ->
  index (constants v) (u16 hi lo) = Ok a ->
  deref (heap v) (Some a) = Ok c ->
  (forall fn, c <> objects.CompiledFunction fn) ->
  cur_fn v = Ok f ->
  mainloop (S fuel) aborts n v =
    Returns
      (Some (objects.Errorf
               (Position (default 0 (objects.SourceMap f !! (ip v + 1)))
                +:+ ": not function: " +:+ nil_CompiledFunction_TypeName)))
      v.
Proof.
  intros Hip Hab Hcode Hop Ha Hc Hnf Hf. simpl.
  rewrite bool_decide_eq_true_2 by exact Hip.
  rewrite bool_decide_eq_true_2 by exact Hab.
  rewrite (load_aborting_zero _ _ _ Hab).
  pose proof (code_at_inst v _ _ 0 b (ip v + 1) Hcode eq_refl ltac:(lia)) as H0.
  pose proof (code_at_inst v _ _ 1 hi (ip v + 1 + 1) Hcode eq_refl ltac:(lia)) as H1.
  pose proof (code_at_inst v _ _ 2 lo (ip v + 1 + 2) Hcode eq_refl ltac:(lia)) as H2.
  pose proof (code_at_inst v _ _ 3 nf (ip v + 1 + 3) Hcode eq_refl ltac:(lia)) as H3.
  rewrite (step_exec v b _ H0 Hop).
  unfold inst in *. cbn [exec snd].
  unfold exec_OpClosure, operand16, operand8, inst. vm_proj.
  rewrite H2. bind_ok. rewrite H1. bind_ok. rewrite H3. bind_ok. vm_proj.
  fold (u16 hi lo). rewrite Ha. bind_ok. rewrite Hc. bind_ok.
  assert (Hfail : forall A v',
             cur_fn v' = cur_fn v -> ip v' - 3 = ip v + 1 ->
             @fail_at _ A v' (ip v' - 3)
               ("not function: " +:+ nil_CompiledFunction_TypeName) =
             Err (objects.Errorf
                     (Position (default 0 (objects.SourceMap f !! (ip v + 1)))
                      +:+ ": not function: " +:+ nil_CompiledFunction_TypeName))).
  { intros A v' Hfn Hip'. unfold fail_at, filePos. rewrite Hfn, Hf, Hip'.
    reflexivity. }
  destruct c; try (rewrite Hfail; [reflexivity | reflexivity | vm_proj; lia]).
  exfalso. eapply Hnf. reflexivity.
Qed.
End EntryAndExit.

Section Calls.
Context `{Imports}.

Lemma copy_args_spec (n : nat) (basePointer from : Z) :
  forall (p : Z) (st : list Ptr),
    0 <= p -> 0 <= basePointer -> basePointer <= from ->
    from + p + Z.of_nat n <= len st ->
    exists st',
      copy_args n p basePointer from st = Ok st' /\
      len st' = len st /\
      (forall q, p <= q < p + Z.of_nat n ->
                 index st' (basePointer + q) = index st (from + q)) /\
      (forall i, ~ (basePointer + p <= i < basePointer + p + Z.of_nat n) ->
                 index st' i = index st i).
Proof.
  induction n as [| n IH]; intros p st Hp Hbp Hle Hlen.
  - exists st. cbn [copy_args].
    split; [reflexivity |]. split; [reflexivity |].
    split; [intros; lia | auto].
  - cbn [copy_args].
    destruct (index_lt st (from + p)) as [x Hx]; [lia |].
    rewrite Hx. bind_ok.
    rewrite store_Ok by lia. bind_ok.
    destruct (IH (p + 1) (<[Z.to_nat (basePointer + p) := x]> st))
      as (st' & Hcopy & Hlen' & Hargs & Hrest);
      [lia | lia | lia | unfold len; rewrite length_insert; fold (len st); lia |].
    exists st'. split; [exact Hcopy |]. split.
    { rewrite Hlen'. unfold len. rewrite length_insert. reflexivity. }
    split.
    + intros q Hq. destruct (decide (q = p)) as [-> | Hne].
      * rewrite Hrest by lia. rewrite index_store_eq by lia. auto.
      * rewrite Hargs by lia. apply index_store_ne; lia.
    + intros i Hi. rewrite Hrest by lia. apply index_store_ne; lia.
Qed.

(** [OpCall] on a closure or a compiled function whose arity is the
    number of arguments reaches the choice between the tail call and the
    new frame. *)
Lemma step_OpCall_function (v : VM) (b na : byte) (value : Object)
    (fn : nat) (free : list Ptr)
    (callee : objects.CompiledFunction_struct) (cur : Frame.t) :
  code_at v (ip v + 1) [b; na] ->
  opcode_of b = Some compiler.OpCall ->
  index (stack v) (sp v - 1 - int_of_byte na) ≫= deref (heap v) = Ok value ->
  callee_of value = Some (fn, free) ->
  fn_struct (heap v) (Some fn) = Ok callee ->
  objects.NumParameters callee = int_of_byte na ->
  cur_frame v = Ok cur ->
  step v =
    let v1 := set_ip v (ip v + 1 + 1) in
    tail ← (if bool_decide (Some fn = Frame.fn cur) then in_tail_position v1
            else Ok false);
    if tail : bool then tail_call v1 (int_of_byte na)
    else push_frame v1 (int_of_byte na) fn callee free.
Proof.
  intros Hcode Hop Hval Hcallee Hfn Harity Hcur.
  pose proof (code_at_inst v _ _ 0 b (ip v + 1) Hcode eq_refl ltac:(lia)) as H0.
  pose proof (code_at_inst v _ _ 1 na (ip v + 1 + 1) Hcode eq_refl ltac:(lia)) as H1.
  rewrite (step_exec v b _ H0 Hop).
  unfold inst in *. cbn [exec snd].
  unfold exec_OpCall, operand8, inst. vm_proj.
  rewrite H1. bind_ok. vm_proj. rewrite Hval. bind_ok.
  assert (Hcf : call_function (set_ip (set_ip v (ip v + 1)) (ip v + 1 + 1))
                  (int_of_byte na) fn free =
                (let v1 := set_ip v (ip v + 1 + 1) in
                 tail ← (if bool_decide (Some fn = Frame.fn cur)
                         then in_tail_position v1 else Ok false);
                 if tail : bool then tail_call v1 (int_of_byte na)
                 else push_frame v1 (int_of_byte na) fn callee free)).
  { unfold call_function. vm_proj. rewrite Hfn. bind_ok.
    rewrite bool_decide_eq_false_2 by (rewrite Harity; auto).
    change (cur_frame (set_ip (set_ip v (ip v + 1)) (ip v + 1 + 1)))
      with (cur_frame v).
    rewrite Hcur. bind_ok. reflexivity. }
  destruct value; try discriminate; cbn in Hcallee;
    injection Hcallee as <- <-; exact Hcf.
Qed.

Lemma int_of_byte_nonneg (b : byte) : 0 <= int_of_byte b.
Proof. unfold int_of_byte. lia. Qed.

Lemma tail_form_in_tail_position (v : VM) :
  tail_form v (ip v + 1) -> in_tail_position v = Ok true.
Proof.
  unfold in_tail_position.
  intros [(r & Hc & Hr) | (p & r & Hc & Hp & Hr)].
  - rewrite (code_at_inst v _ _ 0 r (ip v + 1) Hc eq_refl ltac:(lia)).
    bind_ok. unfold is_op. rewrite Hr. reflexivity.
  - rewrite (code_at_inst v _ _ 0 p (ip v + 1) Hc eq_refl ltac:(lia)).
    bind_ok. unfold is_op at 1 2. rewrite Hp. cbn [compiler.Opcode_eqb].
    rewrite (code_at_inst v _ _ 1 r (ip v + 2) Hc eq_refl ltac:(lia)).
    bind_ok. unfold is_op. rewrite Hr. reflexivity.
Qed.

Lemma tail_call_frames (v v' : VM) (numArgs : Z) :
  tail_call v numArgs = Ok v' ->
  framesIndex v' = framesIndex v /\ frames v' = frames v /\
  curFrame v' = curFrame v /\ curInsts v' = curInsts v /\
  heap v' = heap v /\ ip v' = -1 /\
  sp v' = sp v - (numArgs + 1).
Proof.
  unfold tail_call. destruct (cur_frame v); try discriminate. bind_ok.
  destruct (copy_args _ _ _ _ _); try discriminate. bind_ok.
  intros [= <-]. vm_proj. repeat split.
Qed.

(** C2: an [OpCall] whose callee (a closure or a compiled function) runs the
    function of the current frame, with as many arguments as the function
    has parameters, and which is followed by [OpReturnValue] or by [OpPop]
    and [OpReturn], pushes no frame: whenever the step completes, the frame
    index, the frames and the current frame are unchanged, [ip] is -1 (the
    next instruction is the first of the frame) and callee and arguments are
    popped.  In a frame whose base pointer lies at or below the arguments
    the step does complete, and parameter slot [p] then holds the handle of
    argument [p]; no other stack slot changes. *)
Theorem tail_call_reuses_frame (v : VM) (b na : byte) (value : Object)
    (fn : nat) (free : list Ptr)
    (callee : objects.CompiledFunction_struct) (cur : Frame.t) :
  code_at v (ip v + 1) [b; na] ->
  opcode_of b = Some compiler.OpCall ->
  index (stack v) (sp v - 1 - int_of_byte na) ≫= deref (heap v) = Ok value ->
  callee_of value = Some (fn, free) ->
  fn_struct (heap v) (Some fn) = Ok callee ->
  objects.NumParameters callee = int_of_byte na ->
  cur_frame v = Ok cur ->
  Frame.fn cur = Some fn ->
  tail_form v (ip v + 3) ->
  (forall v', step v = Ok v' ->
     framesIndex v' = framesIndex v /\ frames v' = frames v /\
     curFrame v' = curFrame v /\ curInsts v' = curInsts v /\
     heap v' = heap v /\ ip v' = -1 /\
     sp v' = sp v - (int_of_byte na + 1)) /\
  (0 <= Frame.basePointer cur <= sp v - int_of_byte na ->
   sp v <= len (stack v) ->
   exists v',
     step v = Ok v' /\
     (forall p, 0 <= p < int_of_byte na ->
        index (stack v') (Frame.basePointer cur + p) =
        index (stack v) (sp v - int_of_byte na + p)) /\
     (forall i,
        ~ (Frame.basePointer cur <= i
           < Frame.basePointer cur + int_of_byte na) ->
        index (stack v') i = index (stack v) i)).
Proof.
  intros Hcode Hop Hval Hcallee Hfn Harity Hcur Hsame Htail.
  rewrite (step_OpCall_function v b na value fn free callee cur) by assumption.
  cbv zeta. rewrite bool_decide_eq_true_2 by (symmetry; exact Hsame).
  rewrite tail_form_in_tail_position
    by (vm_proj; replace (ip v + 1 + 1 + 1) with (ip v + 3) by lia;
        exact Htail).
  bind_ok. split.
  - intros v' Hv'. apply tail_call_frames in Hv'. vm_proj. tauto.
  - intros Hbp Hsp. unfold tail_call.
    change (cur_frame (set_ip v (ip v + 1 + 1))) with (cur_frame v).
    rewrite Hcur. bind_ok. vm_proj.
    pose proof (int_of_byte_nonneg na) as Hna.
    destruct (copy_args_spec (Z.to_nat (int_of_byte na))
                (Frame.basePointer cur) (sp v - int_of_byte na) 0 (stack v))
      as (st' & Hcopy & Hlen & Hargs & Hrest); [lia | lia | lia | lia |].
    rewrite Hcopy. bind_ok. eexists. split; [reflexivity |]. vm_proj. split.
    + intros p Hp. apply Hargs. lia.
    + intros i Hi. apply Hrest. lia.
Qed.

Lemma push_frame_spec (v : VM) (numArgs : Z) (fn : nat)
    (callee : objects.CompiledFunction_struct) (free : list Ptr)
    (cur : Frame.t) :
  cur_frame v = Ok cur ->
  0 <= framesIndex v < len (frames v) ->
  exists v' fr,
    push_frame v numArgs fn callee free = Ok v' /\
    cur_frame v' = Ok fr /\
    Frame.fn fr = Some fn /\ Frame.freeVars fr = free /\
    Frame.basePointer fr = sp v - numArgs /\
    framesIndex v' = framesIndex v + 1 /\
    sp v' = sp v - numArgs + objects.NumLocals callee /\
    stack v' = stack v /\ heap v' = heap v /\
    curInsts v' = objects.Instructions callee /\ ip v' = -1.
Proof.
  intros Hcur Hfi. unfold push_frame. rewrite Hcur. bind_ok.
  pose proof Hcur as Hc. unfold cur_frame in Hc. apply index_Ok in Hc as [_ Hc].
  apply lookup_lt_Some in Hc.
  rewrite store_Ok by (unfold len; lia). bind_ok.
  set (frs := <[Z.to_nat (Z.of_nat (curFrame v)) := Frame.set_ip cur (ip v)]> (frames v)).
  assert (Hlen : len frs = len (frames v)).
  { unfold frs, len. rewrite length_insert. reflexivity. }
  destruct (index_lt frs (framesIndex v)) as [slot Hslot]; [lia |].
  rewrite Hslot. bind_ok. rewrite store_Ok by lia. bind_ok.
  eexists. eexists. split; [reflexivity |]. vm_proj.
  split.
  { unfold cur_frame. vm_proj. rewrite Z2Nat.id by lia.
    apply index_store_eq. lia. }
  cbn. repeat split.
Qed.

Lemma push_frame_full (v : VM) (numArgs : Z) (fn : nat)
    (callee : objects.CompiledFunction_struct) (free : list Ptr)
    (cur : Frame.t) :
  cur_frame v = Ok cur ->
  framesIndex v = len (frames v) ->
  push_frame v numArgs fn callee free = Panic IndexOutOfRange.
Proof.
  intros Hcur Hfi. unfold push_frame. rewrite Hcur. bind_ok.
  pose proof Hcur as Hc. unfold cur_frame in Hc. apply index_Ok in Hc as [_ Hc].
  apply lookup_lt_Some in Hc.
  rewrite store_Ok by (unfold len; lia). bind_ok.
  unfold index. rewrite bool_decide_eq_true_2 by (unfold len in Hfi; lia).
  rewrite lookup_ge_None_2; [reflexivity |].
  rewrite length_insert. unfold len in Hfi. lia.
Qed.

(** C6, as amended: a call of a closure or compiled function with as many
    arguments as parameters that pushes a frame leaves the stack and the
    heap untouched and sets the base pointer to [sp - nArgs]: local slot [p]
    of the callee is the stack slot [sp - nArgs + p] as it was, that is the
    handle of argument [p] itself for [p < nArgs], and, for the locals above
    the parameters, whatever handle was resident there.  Nothing is
    initialised. *)
Theorem new_frame_locals (v : VM) (b na : byte) (value : Object)
    (fn : nat) (free : list Ptr)
    (callee : objects.CompiledFunction_struct) (cur : Frame.t) :
  code_at v (ip v + 1) [b; na] ->
  opcode_of b = Some compiler.OpCall ->
  index (stack v) (sp v - 1 - int_of_byte na) ≫= deref (heap v) = Ok value ->
  callee_of value = Some (fn, free) ->
  fn_struct (heap v) (Some fn) = Ok callee ->
  objects.NumParameters callee = int_of_byte na ->
  cur_frame v = Ok cur ->
  Frame.fn cur <> Some fn \/
    in_tail_position (set_ip v (ip v + 1 + 1)) = Ok false ->
  0 <= framesIndex v < len (frames v) ->
  exists v' fr,
    step v = Ok v' /\
    cur_frame v' = Ok fr /\
    Frame.fn fr = Some fn /\ Frame.freeVars fr = free /\
    Frame.basePointer fr = sp v - int_of_byte na /\
    framesIndex v' = framesIndex v + 1 /\
    sp v' = sp v - int_of_byte na + objects.NumLocals callee /\
    stack v' = stack v /\ heap v' = heap v /\
    (forall p,
       index (stack v') (Frame.basePointer fr + p) =
       index (stack v) (sp v - int_of_byte na + p)).
Proof.
  intros Hcode Hop Hval Hcallee Hfn Harity Hcur Hnew Hfi.
  rewrite (step_OpCall_function v b na value fn free callee cur) by assumption.
  cbv zeta.
  destruct (push_frame_spec (set_ip v (ip v + 1 + 1)) (int_of_byte na) fn
              callee free cur Hcur Hfi)
    as (v' & fr & Hpush & Hfr & Hfn' & Hfree & Hbp & Hidx & Hsp & Hst & Hh & _).
  vm_proj.
  assert (Hgo : (tail ← (if bool_decide (Some fn = Frame.fn cur)
                         then in_tail_position (set_ip v (ip v + 1 + 1))
                         else Ok false);
                 if tail : bool
                 then tail_call (set_ip v (ip v + 1 + 1)) (int_of_byte na)
                 else push_frame (set_ip v (ip v + 1 + 1)) (int_of_byte na)
                        fn callee free) = Ok v').
  { destruct Hnew as [Hne | Hnt].
    - rewrite bool_decide_eq_false_2 by congruence. bind_ok. exact Hpush.
    - case_bool_decide; [rewrite Hnt |]; bind_ok; exact Hpush. }
  exists v', fr. rewrite Hgo, Hst, Hbp. repeat split; auto.
Qed.

Lemma call_beyond_MaxFrames (v : VM) (b na : byte) (value : Object)
    (fn : nat) (free : list Ptr)
    (callee : objects.CompiledFunction_struct) (cur : Frame.t) :
  code_at v (ip v + 1) [b; na] ->
  opcode_of b = Some compiler.OpCall ->
  index (stack v) (sp v - 1 - int_of_byte na) ≫= deref (heap v) = Ok value ->
  callee_of value = Some (fn, free) ->
  fn_struct (heap v) (Some fn) = Ok callee ->
  objects.NumParameters callee = int_of_byte na ->
  cur_frame v = Ok cur ->
  Frame.fn cur <> Some fn \/
    in_tail_position (set_ip v (ip v + 1 + 1)) = Ok false ->
  len (frames v) = MaxFrames ->
  framesIndex v = MaxFrames ->
  step v = Panic IndexOutOfRange.
Proof.
  intros Hcode Hop Hval Hcallee Hfn Harity Hcur Hnew Hlen Hfi.
  rewrite (step_OpCall_function v b na value fn free callee cur) by assumption.
  cbv zeta.
  assert (Hpush : push_frame (set_ip v (ip v + 1 + 1)) (int_of_byte na) fn
                    callee free = Panic IndexOutOfRange).
  { apply (push_frame_full _ _ _ _ _ cur); [exact Hcur | vm_proj; lia]. }
  destruct Hnew as [Hne | Hnt].
  - rewrite bool_decide_eq_false_2 by congruence. bind_ok. exact Hpush.
  - case_bool_decide; [rewrite Hnt |]; bind_ok; exact Hpush.
Qed.
End Calls.

Section Slices.
Context `{Imports}.

Lemma put_new_Ok (v : VM) (o : Object) :
  0 <= sp v < len (stack v) ->
  exists v',
    put_new v o = Ok v' /\
    sp v' = sp v + 1 /\ ip v' = ip v /\
    index (stack v') (sp v) ≫= deref (heap v') = Ok o /\
    (forall i, i <> sp v -> index (stack v') i = index (stack v) i) /\
    cells (heap v') = cells (heap v) ++ [o] /\
    arrays (heap v') = arrays (heap v) /\
    maps (heap v') = maps (heap v) /\
    framesIndex v' = framesIndex v /\ frames v' = frames v.
Proof.
  intros Hsp. unfold put_new, new_cell, put. vm_proj.
  rewrite store_Ok by exact Hsp. bind_ok.
  eexists. split; [reflexivity |]. vm_proj.
  split; [reflexivity |]. split; [reflexivity |]. split.
  { rewrite index_store_eq by exact Hsp. bind_ok. unfold deref. cbn [cells set_cells].
    rewrite lookup_app_r by lia. rewrite Nat.sub_diag. reflexivity. }
  split.
  { intros i Hi. apply index_store_ne; lia. }
  repeat split.
Qed.







Lemma elems_reslice (h : Heap) (s : Slice) (lo hi : Z) :
  0 <= lo <= hi -> hi <= Z.of_nat (sl_len s) ->
  elems h (reslice s lo hi) =
  take (Z.to_nat (hi - lo)) (drop (Z.to_nat lo) (elems h s)).
Proof.
  intros Hlo Hhi. unfold elems, reslice. cbn [sl_arr sl_off sl_len].
  set (B := default [] (arrays h !! sl_arr s)).
  replace (sl_len s) with (Z.to_nat lo + (sl_len s - Z.to_nat lo))%nat by lia.
  rewrite <- take_drop_commute, take_take, drop_drop.
  f_equal. lia.
Qed.
End Slices.

Section Maps.
Context `{Imports}.

Lemma collect_kv_spec (v : VM) (pairs : list (string * Object)) :
  forall (fuel : nat) (i : Z) (acc : gmap string Object),
    (length pairs <= fuel)%nat ->
    i + 2 * len pairs = sp v ->
    pairs_on_stack v i pairs ->
    collect_kv fuel v i acc =
      Ok (foldl (fun kv p => <[p.1 := p.2]> kv) acc pairs).
Proof.
  induction pairs as [| [k x] rest IH]; intros fuel i acc Hfuel Hi Hst.
  - unfold len in Hi. cbn in Hi. destruct fuel; cbn [collect_kv]; [reflexivity |].
    rewrite bool_decide_eq_false_2 by lia. reflexivity.
  - unfold len in Hi. cbn [length] in *.
    destruct fuel as [| fuel]; [lia |]. cbn [collect_kv].
    rewrite bool_decide_eq_true_2 by lia.
    destruct (Hst 0%nat k x eq_refl) as [Hk Hx].
    replace (i + 2 * Z.of_nat 0) with i in * by lia.
    rewrite Hk. bind_ok. rewrite Hx. bind_ok.
    cbn [foldl fst snd]. apply IH.
    + lia.
    + unfold len. lia.
    + intros j k' x' Hj. destruct (Hst (S j) k' x' Hj) as [Hk' Hx'].
      replace (i + 2 + 2 * Z.of_nat j) with (i + 2 * Z.of_nat (S j)) by lia.
      split; assumption.
Qed.

(** C8, as amended: the operand of [OpMap] counts stack slots, not pairs.
    With operand [n = 2 * m] and [m] key/value pairs on top of the stack,
    the keys being strings, the step pops the [n] slots and pushes one map
    built from the [m] pairs. *)
Theorem map_pops_operand_slots (v : VM) (b hi lo : byte)
    (pairs : list (string * Object)) :
  code_at v (ip v + 1) [b; hi; lo] ->
  opcode_of b = Some compiler.OpMap ->
  u16 hi lo = 2 * len pairs ->
  pairs_on_stack v (sp v - u16 hi lo) pairs ->
  0 <= sp v - u16 hi lo < len (stack v) ->
  sp v - u16 hi lo < StackSize ->
  exists v' m,
    step v = Ok v' /\
    sp v' = sp v - u16 hi lo + 1 /\
    ip v' = ip v + 3 /\
    index (stack v') (sp v - u16 hi lo) ≫= deref (heap v') =
      Ok (objects.Map m) /\
    maps (heap v') !! m = Some (kv_of pairs).
Proof.
  intros Hcode Hop Hn Hst Hsp Hov.
  pose proof (code_at_inst v _ _ 0 b (ip v + 1) Hcode eq_refl ltac:(lia)) as H0.
  pose proof (code_at_inst v _ _ 1 hi (ip v + 1 + 1) Hcode eq_refl ltac:(lia)) as H1.
  pose proof (code_at_inst v _ _ 2 lo (ip v + 1 + 2) Hcode eq_refl ltac:(lia)) as H2.
  rewrite (step_exec v b _ H0 Hop). cbn [exec snd].
  unfold inst in *. unfold exec_OpMap, operand16, inst. vm_proj.
  rewrite H2. bind_ok. rewrite H1. bind_ok. fold (u16 hi lo). vm_proj.
  set (n := u16 hi lo) in *.
  rewrite (collect_kv_spec _ pairs); [| unfold len in Hn; lia | vm_proj; lia | exact Hst].
  bind_ok. unfold new_map. vm_proj. fold (kv_of pairs).
  unfold check_stack. vm_proj.
  rewrite bool_decide_eq_false_2 by lia. bind_ok.
  match goal with
  | |- context [put_new ?v1 ?o] =>
      destruct (put_new_Ok v1 o)
        as (v' & Hput & Hsp' & Hip' & Htop & _ & _ & _ & Hmaps & _);
        [vm_proj; lia |]
  end.
  exists v', (length (maps (heap v))). vm_proj.
  split; [exact Hput |]. split; [lia |]. split; [lia |].
  split; [exact Htop |].
  rewrite Hmaps. cbn [maps set_maps].
  rewrite lookup_app_r by lia. rewrite Nat.sub_diag. reflexivity.
Qed.

End Maps.

Section Assign.
Context `{Imports}.




End Assign.

Section SetSel.
Context `{Imports}.

(** The selector assignments hand [indexAssign] the [k] stack slots below
    [sp] as selectors and the slot below them as the value; they return its
    error behind the position of the opcode. *)
Lemma setsel_runs_indexAssign (v : VM) (k width : Z)
    (dstf : VM -> Outcome Ptr) (sels : list Ptr) (val p : Ptr) :
  subslice (stack v) (sp v - k) (sp v) = Ok sels ->
  index (stack v) (sp v - k - 1) = Ok val ->
  dstf (set_sp v (sp v - (k + 1))) = Ok p ->
  length sels = Z.to_nat k /\
  (exec_setsel v k width dstf).1 = (indexAssign (heap v) p val sels).1.2 /\
  (exec_setsel v k width dstf).2 =
    let v' := set_heap (set_sp v (sp v - (k + 1)))
                (indexAssign (heap v) p val sels).1.1 in
    match (indexAssign (heap v) p val sels).2 with
    | Ok _ => Ok v'
    | Err err => fail_at v' (ip v - width) (Error_text err)
    | Panic q => Panic q
    end.
Proof.
  intros Hs Hv Hd. split.
  - unfold subslice in Hs. case_bool_decide; [| discriminate].
    injection Hs as <-. rewrite length_take, length_drop.
    unfold len in *. lia.
  - unfold exec_setsel. rewrite Hs. bind_ok. rewrite Hv. bind_ok.
    rewrite Hd. bind_ok. vm_proj.
    destruct (indexAssign (heap v) p val sels) as [[h' log] r].
    split; reflexivity.
Qed.

(** The three opcodes differ in where the assigned variable is found: a
    global, a local of the current frame, a free variable of it. *)
Lemma setsel_opcodes (v : VM) :
  (forall hi lo ns,
      code_at v (ip v + 1) [hi; lo; ns] ->
      exec_OpSetSelGlobal v =
        exec_setsel (set_ip v (ip v + 3)) (int_of_byte ns) 3
          (fun v => index (globals v) (u16 hi lo))) /\
  (forall li ns,
      code_at v (ip v + 1) [li; ns] ->
      exec_OpSetSelLocal v =
        exec_setsel (set_ip v (ip v + 2)) (int_of_byte ns) 2
          (fun v => f ← cur_frame v;
                    index (stack v) (Frame.basePointer f + int_of_byte li))) /\
  (forall fi ns,
      code_at v (ip v + 1) [fi; ns] ->
      exec_OpSetSelFree v =
        exec_setsel (set_ip v (ip v + 2)) (int_of_byte ns) 2
          (fun v => f ← cur_frame v;
                    index (Frame.freeVars f) (int_of_byte fi))).
Proof.
  split; [| split].
  - intros hi lo ns Hc.
    pose proof (code_at_inst v _ _ 0 hi (ip v + 1) Hc eq_refl ltac:(lia)) as H1.
    pose proof (code_at_inst v _ _ 1 lo (ip v + 2) Hc eq_refl ltac:(lia)) as H2.
    pose proof (code_at_inst v _ _ 2 ns (ip v + 3) Hc eq_refl ltac:(lia)) as H3.
    unfold exec_OpSetSelGlobal, operand16, operand8.
    rewrite H2. bind_ok. rewrite H1. bind_ok. rewrite H3. bind_ok.
    reflexivity.
  - intros li ns Hc.
    pose proof (code_at_inst v _ _ 0 li (ip v + 1) Hc eq_refl ltac:(lia)) as H1.
    pose proof (code_at_inst v _ _ 1 ns (ip v + 2) Hc eq_refl ltac:(lia)) as H2.
    unfold exec_OpSetSelLocal, operand8.
    rewrite H1. bind_ok. rewrite H2. bind_ok. reflexivity.
  - intros fi ns Hc.
    pose proof (code_at_inst v _ _ 0 fi (ip v + 1) Hc eq_refl ltac:(lia)) as H1.
    pose proof (code_at_inst v _ _ 1 ns (ip v + 2) Hc eq_refl ltac:(lia)) as H2.
    unfold exec_OpSetSelFree, operand8.
    rewrite H1. bind_ok. rewrite H2. bind_ok. reflexivity.
Qed.
End SetSel.

(** ** The rest of the machine

    Properties of the instructions and entry points the sections above do
    not reach, each read off the code of [runtime/vm.go]. *)

Section Pushes.
Context `{Imports}.

Lemma put_Ok (v : VM) (p : Ptr) :
  0 <= sp v < len (stack v) ->
  put v p = Ok (set_sp (set_stack v (<[Z.to_nat (sp v) := p]> (stack v)))
                  (sp v + 1)).
Proof. intros Hsp. unfold put. rewrite store_Ok by exact Hsp. reflexivity. Qed.

Lemma push_spec (v : VM) (p : Ptr) :
  (StackSize <= sp v -> push v p = Err objects.ErrStackOverflow) /\
  (0 <= sp v < StackSize -> sp v < len (stack v) ->
   push v p = Ok (set_sp (set_stack v (<[Z.to_nat (sp v) := p]> (stack v)))
                    (sp v + 1))).
Proof.
  unfold push, check_stack. split.
  - intros Hov. rewrite bool_decide_eq_true_2 by exact Hov. reflexivity.
  - intros Hsp Hlen. rewrite bool_decide_eq_false_2 by lia.
    cbn [mbind Outcome_bind]. apply put_Ok. lia.
Qed.

(** X1: [OpNull], [OpTrue] and [OpFalse] push the shared package-level
    handle and allocate nothing; with [sp >= StackSize] they return
    [ErrStackOverflow], bare, with no position, and [Run] returns it. *)
Theorem literal_push_or_overflow (v : VM) (b : byte) (op : compiler.Opcode) :
  code_at v (ip v + 1) [b] ->
  opcode_of b = Some op ->
  is_literal op = true ->
  (StackSize <= sp v ->
   step v = Err objects.ErrStackOverflow /\
   forall fuel aborts k,
     ip v < curIPLimit v -> aborting (load_aborting aborts k v) = 0 ->
     mainloop (S fuel) aborts k v =
       Returns (Some objects.ErrStackOverflow) v) /\
  (0 <= sp v < StackSize -> sp v < len (stack v) ->
   exists v',
     step v = Ok v' /\
     sp v' = sp v + 1 /\ ip v' = ip v + 1 /\ heap v' = heap v /\
     index (stack v') (sp v) = Ok (literal_ptr op) /\
     forall i, i <> sp v -> index (stack v') i = index (stack v) i).
Proof.
  intros Hcode Hop Hlit.
  pose proof (code_at_inst v _ _ 0 b (ip v + 1) Hcode eq_refl ltac:(lia)) as H0.
  rewrite (step_exec v b _ H0 Hop).
  assert (Hex : (exec op (set_ip v (ip v + 1))).2 =
                push (set_ip v (ip v + 1)) (literal_ptr op)).
  { destruct op; try discriminate Hlit; reflexivity. }
  rewrite Hex.
  destruct (push_spec (set_ip v (ip v + 1)) (literal_ptr op)) as [Hov Hok].
  vm_proj. split.
  - intros Hsp. split; [exact (Hov Hsp) |].
    intros fuel aborts k Hip Hab. apply step_error_is_returned; auto.
    rewrite (step_exec v b _ H0 Hop), Hex. exact (Hov Hsp).
  - intros Hsp Hlen. eexists. split; [exact (Hok Hsp Hlen) |]. vm_proj.
    split; [reflexivity |]. split; [reflexivity |]. split; [reflexivity |].
    split; [apply index_store_eq; lia | intros i Hi; apply index_store_ne; lia].
Qed.

(** X2: a byte that is no opcode makes [Run] panic with "unknown opcode";
    no error is returned. *)
Theorem unknown_opcode_panics (fuel : nat) (aborts : nat -> bool) (k : nat)
    (v : VM) (b : byte) :
  ip v < curIPLimit v ->
  aborting (load_aborting aborts k v) = 0 ->
  code_at v (ip v + 1) [b] ->
  opcode_of b = None ->
  step v = Panic (UnknownOpcode b) /\
  mainloop (S fuel) aborts k v = Panics (UnknownOpcode b) v.
Proof.
  intros Hip Hab Hcode Hop.
  pose proof (code_at_inst v _ _ 0 b (ip v + 1) Hcode eq_refl ltac:(lia)) as H0.
  assert (Hs : step v = Panic (UnknownOpcode b)).
  { unfold step, step_log. vm_proj.
    change (inst (set_ip v (ip v + 1)) (ip v + 1)) with (inst v (ip v + 1)).
    rewrite H0, Hop. reflexivity. }
  split; [exact Hs | apply step_panic_is_panic; assumption].
Qed.

Lemma index_cases {A} (l : list A) (i : Z) :
  (exists x, index l i = Ok x) \/ index l i = Panic IndexOutOfRange.
Proof.
  unfold index. case_bool_decide; [| right; reflexivity].
  destruct (l !! Z.to_nat i); [left; eexists; reflexivity | right; reflexivity].
Qed.

Lemma index_negative {A} (l : list A) (i : Z) :
  i < 0 -> index l i = Panic IndexOutOfRange.
Proof. intros Hi. unfold index. rewrite bool_decide_eq_false_2 by lia. reflexivity. Qed.

Lemma pop_frame_in_main (v : VM) (retVal : Ptr) :
  framesIndex v = 1 -> pop_frame v retVal = Panic IndexOutOfRange.
Proof.
  intros Hfi. unfold pop_frame. vm_proj. rewrite Hfi.
  destruct (index_cases (frames v) (1 - 1)) as [[x ->] | ->];
    cbn [mbind Outcome_bind]; [| reflexivity].
  rewrite index_negative by lia. reflexivity.
Qed.

(** X3: a return executed in the main function (frame index 1) is no way
    to end the program: [OpReturn] and [OpReturnValue] then index the frame
    array at -1 and panic. *)
Theorem return_in_main_panics (v : VM) (b : byte) (op : compiler.Opcode) :
  code_at v (ip v + 1) [b] ->
  opcode_of b = Some op ->
  op = compiler.OpReturn \/ op = compiler.OpReturnValue ->
  framesIndex v = 1 ->
  step v = Panic IndexOutOfRange.
Proof.
  intros Hcode Hop Hret Hfi.
  pose proof (code_at_inst v _ _ 0 b (ip v + 1) Hcode eq_refl ltac:(lia)) as H0.
  rewrite (step_exec v b _ H0 Hop).
  destruct Hret as [-> | ->]; cbn [exec snd].
  - unfold exec_OpReturn. apply pop_frame_in_main. exact Hfi.
  - unfold exec_OpReturnValue. vm_proj.
    destruct (index_cases (stack v) (sp v - 1)) as [[x ->] | ->];
      cbn [mbind Outcome_bind]; [| reflexivity].
    apply pop_frame_in_main. exact Hfi.
Qed.

(** X4: the operators that take two operands ([OpAdd] ... [OpGreaterThanEqual],
    [OpEqual], [OpNotEqual]) do not check the stack depth: with fewer than
    two values on the stack they panic with an index out of range. *)
Theorem binary_underflow_panics (v : VM) (b : byte) (op : compiler.Opcode) :
  code_at v (ip v + 1) [b] ->
  opcode_of b = Some op ->
  is_Some (binary_of op) ->
  sp v < 2 ->
  step v = Panic IndexOutOfRange.
Proof.
  intros Hcode Hop Hbin Hsp.
  pose proof (code_at_inst v _ _ 0 b (ip v + 1) Hcode eq_refl ltac:(lia)) as H0.
  rewrite (step_exec v b _ H0 Hop).
  assert (Hgo : forall (k : Ptr -> Ptr -> Outcome VM),
             (right ← index (stack v) (sp v - 1);
              left ← index (stack v) (sp v - 2); k right left)
             = Panic IndexOutOfRange).
  { intros k.
    destruct (index_cases (stack v) (sp v - 1)) as [[x ->] | ->];
      cbn [mbind Outcome_bind]; [| reflexivity].
    rewrite index_negative by lia. reflexivity. }
  destruct Hbin as [t Ht].
  destruct op; try discriminate Ht; cbn [exec snd];
    unfold exec_binary, exec_equal; vm_proj; apply Hgo.
Qed.
End Pushes.

Section Fresh.
Context `{Imports}.

Lemma NewVM_Ok (h : Heap) (builtins : list nat)
    (stdlib_Modules : gmap string Ptr) (bytecode : Bytecode)
    (gs : option (list Ptr)) (modules : option (gmap string Ptr))
    (v : VM) :
  NewVM h builtins stdlib_Modules bytecode gs modules = Ok v ->
  exists f,
    fn_struct h (Some (MainFunction bytecode)) = Ok f /\
    heap v = h /\ sp v = 0 /\ curFrame v = 0%nat /\
    curInsts v = objects.Instructions f /\
    curIPLimit v = len (objects.Instructions f) - 1 /\
    framesIndex v = 1 /\ ip v = -1 /\ aborting v = 0 /\
    stack v = replicate (Z.to_nat StackSize) None /\
    frames v =
      <[0%nat := {| Frame.fn := Some (MainFunction bytecode);
                    Frame.freeVars := []; Frame.ip := -1;
                    Frame.basePointer := 0 |}]>
        (replicate (Z.to_nat MaxFrames) Frame.zero) /\
    globals v =
      match gs with
      | None => replicate (Z.to_nat GlobalsSize) None
      | Some g => g
      end /\
    builtinModules v = match modules with
                       | None => stdlib_Modules
                       | Some m => m
                       end /\
    constants v = Constants bytecode /\ builtinFuncs v = builtins.
Proof.
  unfold NewVM.
  destruct (fn_struct h (Some (MainFunction bytecode))) as [f | e | p];
    cbn [mbind Outcome_bind]; try discriminate.
  intros [= <-]. exists f. repeat (split; [reflexivity |]). reflexivity.
Qed.

Lemma first_frame (fr : Frame.t) :
  index (<[0%nat := fr]> (replicate (Z.to_nat MaxFrames) Frame.zero)) 0
  = Ok fr.
Proof.
  apply (index_store_eq (replicate (Z.to_nat MaxFrames) Frame.zero) 0 fr).
  unfold len. rewrite length_replicate. unfold MaxFrames. lia.
Qed.

Lemma reset_fresh (h : Heap) (builtins : list nat)
    (stdlib_Modules : gmap string Ptr) (bytecode : Bytecode)
    (gs : option (list Ptr)) (modules : option (gmap string Ptr))
    (v : VM) :
  NewVM h builtins stdlib_Modules bytecode gs modules = Ok v ->
  reset v = Ok v.
Proof.
  intros Hnew.
  destruct (NewVM_Ok _ _ _ _ _ _ _ Hnew)
    as (f & Hf & Hh & Hsp & Hcur & Hins & Hlim & Hfi & Hip & Hab & _ & Hfr & _).
  destruct v. vm_proj. subst.
  unfold reset. vm_proj. rewrite first_frame. bind_ok.
  unfold cur_fn, cur_frame. vm_proj. change (Z.of_nat 0) with 0.
  rewrite first_frame. bind_ok. cbn [Frame.fn]. rewrite Hf. bind_ok.
  vm_proj. reflexivity.
Qed.

(** X5: the machine [NewVM] makes has an empty stack of [StackSize] slots
    and [MaxFrames] frames of which the first runs the main function from
    base pointer 0; with no globals given it has [GlobalsSize] globals, all
    [nil].  The reset at the head of [Run] changes nothing in it: on a
    fresh machine [Run] is its loop. *)
Theorem new_vm_is_reset (h : Heap) (builtins : list nat)
    (stdlib_Modules : gmap string Ptr) (bytecode : Bytecode)
    (gs : option (list Ptr)) (modules : option (gmap string Ptr))
    (v : VM) :
  NewVM h builtins stdlib_Modules bytecode gs modules = Ok v ->
  reset v = Ok v /\
  (forall fuel aborts, Run fuel aborts v = mainloop fuel aborts 0 v) /\
  FrameInfo v = (0, -1) /\
  sp v = 0 /\ aborting v = 0 /\
  len (stack v) = StackSize /\
  (forall i, 0 <= i < StackSize -> index (stack v) i = Ok None) /\
  len (frames v) = MaxFrames /\
  cur_frame v ≫= (fun f => Ok (Frame.fn f, Frame.basePointer f))
    = Ok (Some (MainFunction bytecode), 0) /\
  (gs = None ->
   len (globals v) = GlobalsSize /\
   forall i, 0 <= i < GlobalsSize -> index (globals v) i = Ok None) /\
  (modules = None -> builtinModules v = stdlib_Modules).
Proof.
  intros Hnew. pose proof (reset_fresh _ _ _ _ _ _ _ Hnew) as Hreset.
  destruct (NewVM_Ok _ _ _ _ _ _ _ Hnew)
    as (f & Hf & Hh & Hsp & Hcur & Hins & Hlim & Hfi & Hip & Hab & Hst & Hfr
        & Hgl & Hmod & _).
  split; [exact Hreset |].
  split; [intros fuel aborts; unfold Run; rewrite Hreset; reflexivity |].
  split; [unfold FrameInfo; rewrite Hfi, Hip; reflexivity |].
  split; [exact Hsp |]. split; [exact Hab |].
  split; [unfold len; rewrite Hst, length_replicate; reflexivity |].
  split.
  { intros i Hi. rewrite Hst. apply index_Ok. split; [lia |].
    apply lookup_replicate_2. unfold StackSize in *. lia. }
  split; [unfold len; rewrite Hfr, length_insert, length_replicate; reflexivity |].
  split.
  { unfold cur_frame. rewrite Hcur, Hfr. change (Z.of_nat 0) with 0.
    rewrite first_frame. reflexivity. }
  split.
  - intros ->. rewrite Hgl. split.
    + unfold len. rewrite length_replicate. reflexivity.
    + intros i Hi. apply index_Ok. split; [lia |].
      apply lookup_replicate_2. unfold GlobalsSize in *. lia.
  - intros ->. exact Hmod.
Qed.

(** X6: a main function with no instructions: [Run] executes nothing and
    returns [nil], leaving the fresh machine as it is, abort or not. *)
Theorem run_empty_program (h : Heap) (builtins : list nat)
    (stdlib_Modules : gmap string Ptr) (bytecode : Bytecode)
    (gs : option (list Ptr)) (modules : option (gmap string Ptr))
    (v : VM) (fuel : nat) (aborts : nat -> bool) :
  NewVM h builtins stdlib_Modules bytecode gs modules = Ok v ->
  curInsts v = [] ->
  Run (S fuel) aborts v = Returns None v.
Proof.
  intros Hnew Hempty. pose proof (reset_fresh _ _ _ _ _ _ _ Hnew) as Hreset.
  destruct (NewVM_Ok _ _ _ _ _ _ _ Hnew)
    as (f & Hf & Hh & Hsp & Hcur & Hins & Hlim & Hfi & Hip & _).
  unfold Run. rewrite Hreset. cbn [mainloop].
  rewrite bool_decide_eq_false_2
    by (rewrite Hip, Hlim, <- Hins, Hempty; unfold len; cbn; lia).
  unfold after_loop. rewrite bool_decide_eq_false_2 by lia. reflexivity.
Qed.
End Fresh.

Section CallAndReturn.
Context `{Imports}.

(** What [push_frame] leaves in the frame array. *)
Lemma push_frame_frames (v v1 : VM) (numArgs : Z) (fn : nat)
    (callee : objects.CompiledFunction_struct) (free : list Ptr)
    (cur : Frame.t) :
  cur_frame v = Ok cur ->
  Z.of_nat (curFrame v) = framesIndex v - 1 ->
  push_frame v numArgs fn callee free = Ok v1 ->
  framesIndex v1 = framesIndex v + 1 /\
  index (frames v1) (framesIndex v - 1) = Ok (Frame.set_ip cur (ip v)) /\
  (exists fr, index (frames v1) (framesIndex v) = Ok fr /\
              Frame.basePointer fr = sp v - numArgs) /\
  heap v1 = heap v /\ stack v1 = stack v /\ len (frames v1) = len (frames v).
Proof.
  intros Hcur Htop. unfold push_frame. rewrite Hcur. bind_ok.
  pose proof Hcur as Hc. unfold cur_frame in Hc. apply index_Ok in Hc as [_ Hc].
  apply lookup_lt_Some in Hc.
  rewrite store_Ok by (unfold len; lia). bind_ok.
  set (frs := <[Z.to_nat (Z.of_nat (curFrame v)) := Frame.set_ip cur (ip v)]>
                (frames v)).
  assert (Hlen : len frs = len (frames v)).
  { unfold frs, len. rewrite length_insert. reflexivity. }
  destruct (index_cases frs (framesIndex v)) as [[slot Hslot] | Hslot];
    rewrite Hslot; bind_ok; [| discriminate].
  pose proof Hslot as Hs. apply index_Ok in Hs as [Hs0 Hs].
  apply lookup_lt_Some in Hs.
  assert (Hin : 0 <= framesIndex v < len frs) by (unfold len; lia).
  rewrite store_Ok by exact Hin. bind_ok. intros [= <-]. vm_proj.
  split; [reflexivity |]. split.
  { rewrite index_store_ne by lia. rewrite <- Htop. unfold frs.
    apply index_store_eq. unfold len. lia. }
  split.
  { eexists. split; [apply index_store_eq; exact Hin | reflexivity]. }
  split; [reflexivity |]. split; [reflexivity |].
  unfold len. rewrite length_insert. exact Hlen.
Qed.

(** X7: a call and the return that ends it.  [v] is the machine at an
    [OpCall] that pushes a frame (as in C6), [v2] any later machine in which
    that frame is the last one and the caller's frame is as the call left
    it.  A return executed at [v2] resumes the caller behind the operand of
    its [OpCall], in its own instructions, with the callee and the
    arguments popped and one handle in the place of the callee: the handle
    on top of the callee's stack for [OpReturnValue], the shared Undefined
    for [OpReturn]. *)
Theorem call_then_return (v v2 : VM) (b na r : byte) (value : Object)
    (fn : nat) (free : list Ptr)
    (callee main : objects.CompiledFunction_struct) (cur : Frame.t)
    (op : compiler.Opcode) (top : Ptr) :
  code_at v (ip v + 1) [b; na] ->
  opcode_of b = Some compiler.OpCall ->
  index (stack v) (sp v - 1 - int_of_byte na) ≫= deref (heap v) = Ok value ->
  callee_of value = Some (fn, free) ->
  fn_struct (heap v) (Some fn) = Ok callee ->
  objects.NumParameters callee = int_of_byte na ->
  cur_frame v = Ok cur ->
  Frame.fn cur <> Some fn \/
    in_tail_position (set_ip v (ip v + 1 + 1)) = Ok false ->
  Z.of_nat (curFrame v) = framesIndex v - 1 ->
  1 <= framesIndex v ->
  forall v1, step v = Ok v1 ->
  framesIndex v2 = framesIndex v1 ->
  index (frames v2) (framesIndex v - 1) = index (frames v1) (framesIndex v - 1) ->
  (exists last, index (frames v2) (framesIndex v) = Ok last /\
                Frame.basePointer last = sp v - int_of_byte na) ->
  fn_struct (heap v2) (Frame.fn cur) = Ok main ->
  1 <= sp v - int_of_byte na <= len (stack v2) ->
  code_at v2 (ip v2 + 1) [r] ->
  opcode_of r = Some op ->
  op = compiler.OpReturn /\ top = undefinedPtr \/
    op = compiler.OpReturnValue /\ index (stack v2) (sp v2 - 1) = Ok top ->
  exists v3,
    step v2 = Ok v3 /\
    framesIndex v3 = framesIndex v /\ curFrame v3 = curFrame v /\
    ip v3 = ip v + 2 /\
    curInsts v3 = objects.Instructions main /\
    curIPLimit v3 = len (objects.Instructions main) - 1 /\
    sp v3 = sp v - int_of_byte na /\
    index (stack v3) (sp v - int_of_byte na - 1) = Ok top /\
    (forall i, i <> sp v - int_of_byte na - 1 ->
               index (stack v3) i = index (stack v2) i) /\
    heap v3 = heap v2 /\ frames v3 = frames v2.
Proof.
  intros Hcode Hop Hval Hcallee Hfn Harity Hcur Hnew Htop Hfi1 v1 Hstep
    Hfi2 Hcaller (last & Hlast & Hbp) Hmain Hsp Hcode2 Hop2 Hret.
  rewrite (step_OpCall_function v b na value fn free callee cur) in Hstep
    by assumption.
  cbv zeta in Hstep.
  assert (Hpush : push_frame (set_ip v (ip v + 1 + 1)) (int_of_byte na) fn
                    callee free = Ok v1).
  { destruct Hnew as [Hne | Hnt].
    - rewrite bool_decide_eq_false_2 in Hstep by congruence. exact Hstep.
    - case_bool_decide; [rewrite Hnt in Hstep |]; exact Hstep. }
  apply (push_frame_frames _ _ _ _ _ _ cur) in Hpush;
    [| exact Hcur | exact Htop].
  vm_proj. destruct Hpush as (Hfi & Hcaller1 & _).
  rewrite Hcaller1 in Hcaller. rewrite Hfi in Hfi2.
  assert (Hpop : forall x, pop_frame (set_ip v2 x) top =
                 Ok (set_stack
                       (set_sp
                          (set_ip
                             (set_curIPLimit
                                (set_curInsts
                                   (set_curFrame
                                      (set_framesIndex v2 (framesIndex v2 - 1))
                                      (Z.to_nat (framesIndex v2 - 1 - 1)))
                                   (objects.Instructions main))
                                (len (objects.Instructions main) - 1))
                             (ip v + 1 + 1))
                          (sp v - int_of_byte na))
                       (<[Z.to_nat (sp v - int_of_byte na - 1) := top]>
                          (stack v2)))).
  { intros x. unfold pop_frame. vm_proj. rewrite Hfi2.
    replace (framesIndex v + 1 - 1) with (framesIndex v) by lia.
    rewrite Hlast. bind_ok. rewrite Hcaller. bind_ok.
    unfold cur_fn, cur_frame. vm_proj. rewrite Z2Nat.id by lia.
    rewrite Hcaller. bind_ok. cbn [Frame.fn Frame.set_ip]. rewrite Hmain.
    bind_ok. vm_proj. cbn [Frame.ip Frame.set_ip]. rewrite Hbp.
    rewrite store_Ok by lia. reflexivity. }
  pose proof (code_at_inst v2 _ _ 0 r (ip v2 + 1) Hcode2 eq_refl ltac:(lia))
    as H0.
  assert (Hs : step v2 = pop_frame (set_ip v2 (ip v2 + 1)) top).
  { rewrite (step_exec v2 r _ H0 Hop2).
    destruct Hret as [[-> ->] | [-> Htopv]]; cbn [exec snd].
    - reflexivity.
    - unfold exec_OpReturnValue. vm_proj. rewrite Htopv. reflexivity. }
  rewrite Hs, Hpop. eexists. split; [reflexivity |].
  vm_proj. rewrite Hfi2.
  split; [lia |]. split; [lia |]. split; [lia |].
  split; [reflexivity |]. split; [reflexivity |]. split; [reflexivity |].
  split; [apply index_store_eq; lia |].
  split; [intros i Hi; apply index_store_ne; lia |].
  split; reflexivity.
Qed.

(** X8: a call of a closure or compiled function with another number of
    arguments than the function has parameters fails, before any frame or
    stack slot is touched, with the error "wrong number of arguments:
    want=P, got=N" at the position of the [OpCall]; [Run] returns it. *)
Theorem wrong_number_of_arguments (v : VM) (b na : byte) (value : Object)
    (fn : nat) (free : list Ptr)
    (callee main : objects.CompiledFunction_struct) :
  code_at v (ip v + 1) [b; na] ->
  opcode_of b = Some compiler.OpCall ->
  index (stack v) (sp v - 1 - int_of_byte na) ≫= deref (heap v) = Ok value ->
  callee_of value = Some (fn, free) ->
  fn_struct (heap v) (Some fn) = Ok callee ->
  objects.NumParameters callee <> int_of_byte na ->
  cur_fn v = Ok main ->
  let e := objects.Errorf
             (Position (default 0 (objects.SourceMap main !! (ip v + 1)))
              +:+ ": wrong number of arguments: want="
              +:+ pretty (objects.NumParameters callee)
              +:+ ", got=" +:+ pretty (int_of_byte na)) in
  step v = Err e /\
  forall fuel aborts k,
    ip v < curIPLimit v -> aborting (load_aborting aborts k v) = 0 ->
    mainloop (S fuel) aborts k v = Returns (Some e) v.
Proof.
  intros Hcode Hop Hval Hcallee Hfn Harity Hmain e.
  pose proof (code_at_inst v _ _ 0 b (ip v + 1) Hcode eq_refl ltac:(lia)) as H0.
  pose proof (code_at_inst v _ _ 1 na (ip v + 1 + 1) Hcode eq_refl ltac:(lia)) as H1.
  assert (Hs : step v = Err e).
  { rewrite (step_exec v b _ H0 Hop).
    unfold inst in *. cbn [exec snd].
    unfold exec_OpCall, operand8, inst. vm_proj.
    rewrite H1. bind_ok. vm_proj. rewrite Hval. bind_ok.
    assert (Hcf : call_function (set_ip (set_ip v (ip v + 1)) (ip v + 1 + 1))
                    (int_of_byte na) fn free = Err e).
    { unfold call_function. vm_proj. rewrite Hfn. bind_ok.
      rewrite bool_decide_eq_true_2 by congruence.
      unfold fail_at, filePos.
      change (cur_fn (set_ip (set_ip v (ip v + 1)) (ip v + 1 + 1)))
        with (cur_fn v).
      rewrite Hmain. bind_ok.
      replace (ip v + 1 + 1 - 1) with (ip v + 1) by lia. reflexivity. }
    destruct value; try discriminate; cbn in Hcallee;
      injection Hcallee as <- <-; exact Hcf. }
  split; [exact Hs |].
  intros fuel aborts k Hip Hab. apply step_error_is_returned; assumption.
Qed.

(** X9: a call of a value that is no closure, no compiled function and
    not [Callable] fails with "not callable: " and the type name of the
    value at the position of the [OpCall], the stack pointer unmoved. *)
Theorem not_callable_fails (v : VM) (b na : byte) (value : Object)
    (main : objects.CompiledFunction_struct) :
  code_at v (ip v + 1) [b; na] ->
  opcode_of b = Some compiler.OpCall ->
  index (stack v) (sp v - 1 - int_of_byte na) ≫= deref (heap v) = Ok value ->
  callee_of value = None ->
  Callable value = false ->
  cur_fn v = Ok main ->
  let e := objects.Errorf
             (Position (default 0 (objects.SourceMap main !! (ip v + 1)))
              +:+ ": not callable: " +:+ TypeName value) in
  step v = Err e /\
  forall fuel aborts k,
    ip v < curIPLimit v -> aborting (load_aborting aborts k v) = 0 ->
    mainloop (S fuel) aborts k v = Returns (Some e) v.
Proof.
  intros Hcode Hop Hval Hcallee Hcall Hmain e.
  pose proof (code_at_inst v _ _ 0 b (ip v + 1) Hcode eq_refl ltac:(lia)) as H0.
  pose proof (code_at_inst v _ _ 1 na (ip v + 1 + 1) Hcode eq_refl ltac:(lia)) as H1.
  assert (Hs : step v = Err e).
  { rewrite (step_exec v b _ H0 Hop).
    unfold inst in *. cbn [exec snd].
    unfold exec_OpCall, operand8, inst. vm_proj.
    rewrite H1. bind_ok. vm_proj. rewrite Hval. bind_ok.
    assert (Hf : @fail_at _ VM (set_ip (set_ip v (ip v + 1)) (ip v + 1 + 1))
                   (ip v + 1 + 1 - 1) ("not callable: " +:+ TypeName value)
                 = Err e).
    { unfold fail_at, filePos.
      change (cur_fn (set_ip (set_ip v (ip v + 1)) (ip v + 1 + 1)))
        with (cur_fn v).
      rewrite Hmain. bind_ok.
      replace (ip v + 1 + 1 - 1) with (ip v + 1) by lia. reflexivity. }
    destruct value; try discriminate Hcallee; rewrite Hcall; exact Hf. }
  split; [exact Hs |].
  intros fuel aborts k Hip Hab. apply step_error_is_returned; assumption.
Qed.
End CallAndReturn.

Section Bindings.
Context `{Imports}.

Lemma deref_Some (h : Heap) (p : Ptr) (o : Object) :
  deref h p = Ok o <-> exists a, p = Some a /\ cells h !! a = Some o.
Proof.
  unfold deref. destruct p as [a |].
  - destruct (cells h !! a) eqn:E; split.
    + intros [= ->]. eauto.
    + intros (a' & [= <-] & Ha). congruence.
    + discriminate.
    + intros (a' & [= <-] & Ha). congruence.
  - split; [discriminate | intros (a & Ha & _); discriminate].
Qed.

(** [*p = o] on a variable that exists changes that variable and nothing
    else. *)
Lemma assign_spec (h : Heap) (a : nat) (o : Object) :
  (a < length (cells h))%nat ->
  exists h',
    assign h (Some a) o = Ok h' /\
    (forall p, deref h' p = if decide (p = Some a) then Ok o else deref h p) /\
    length (cells h') = length (cells h) /\
    arrays h' = arrays h /\ maps h' = maps h /\ funcs h' = funcs h /\
    iters h' = iters h.
Proof.
  intros Ha. unfold assign. rewrite bool_decide_eq_true_2 by exact Ha.
  eexists. split; [reflexivity |]. split.
  - intros p. destruct (decide (p = Some a)) as [-> | Hne].
    + unfold deref. cbn [cells set_cells].
      rewrite list_lookup_insert_eq by exact Ha. reflexivity.
    + unfold deref. destruct p as [a' |]; [| reflexivity].
      cbn [cells set_cells]. rewrite list_lookup_insert_ne by congruence.
      reflexivity.
  - cbn [cells set_cells arrays maps funcs iters]. rewrite length_insert.
    repeat split.
Qed.

(** A fresh variable leaves every variable there was as it is. *)
Lemma new_cell_spec (h : Heap) (o : Object) :
  forall h' p, new_cell h o = (h', p) ->
    p = Some (length (cells h)) /\
    cells h' = cells h ++ [o] /\
    deref h' p = Ok o /\
    (forall q x, deref h q = Ok x -> deref h' q = Ok x) /\
    arrays h' = arrays h /\ maps h' = maps h /\ funcs h' = funcs h.
Proof.
  intros h' p [= <- <-]. split; [reflexivity |]. split; [reflexivity |]. split.
  - unfold deref. cbn [cells set_cells].
    rewrite lookup_app_r by lia. rewrite Nat.sub_diag. reflexivity.
  - split; [| repeat split].
    intros q x Hq. apply deref_Some in Hq as (a & -> & Ha).
    unfold deref. cbn [cells set_cells].
    rewrite lookup_app_l by (apply lookup_lt_Some in Ha; exact Ha).
    rewrite Ha. reflexivity.
Qed.

(** X10: [OpSetLocal] does not replace the handle in the local's slot: it
    copies the popped value into the variable that slot points to.  The
    stack is unchanged, and every holder of that handle (another slot, a
    global, a closure's free variable, the pool of constants when the slot
    is an argument that was pushed by [OpConstant]) reads the new value
    from then on; no other variable changes. *)
Theorem set_local_writes_through (v : VM) (b li : byte) (cur : Frame.t)
    (val : Ptr) (o : Object) (a : nat) :
  code_at v (ip v + 1) [b; li] ->
  opcode_of b = Some compiler.OpSetLocal ->
  cur_frame v = Ok cur ->
  index (stack v) (sp v - 1) = Ok val ->
  deref (heap v) val = Ok o ->
  index (stack v) (Frame.basePointer cur + int_of_byte li) = Ok (Some a) ->
  (a < length (cells (heap v)))%nat ->
  exists v',
    step v = Ok v' /\
    stack v' = stack v /\ sp v' = sp v - 1 /\ ip v' = ip v + 2 /\
    frames v' = frames v /\ globals v' = globals v /\
    constants v' = constants v /\
    length (cells (heap v')) = length (cells (heap v)) /\
    forall p, deref (heap v') p =
              if decide (p = Some a) then Ok o else deref (heap v) p.
Proof.
  intros Hcode Hop Hcur Hval Ho Hslot Ha.
  pose proof (code_at_inst v _ _ 0 b (ip v + 1) Hcode eq_refl ltac:(lia)) as H0.
  pose proof (code_at_inst v _ _ 1 li (ip v + 1 + 1) Hcode eq_refl ltac:(lia)) as H1.
  rewrite (step_exec v b _ H0 Hop).
  unfold inst in *. cbn [exec snd].
  unfold exec_OpSetLocal, operand8, inst. vm_proj.
  rewrite H1. bind_ok. vm_proj.
  change (cur_frame (set_ip (set_ip v (ip v + 1)) (ip v + 1 + 1)))
    with (cur_frame v).
  rewrite Hcur. bind_ok. rewrite Hval. bind_ok. vm_proj.
  rewrite Hslot. bind_ok. rewrite Ho. bind_ok.
  destruct (assign_spec (heap v) a o Ha) as (h' & -> & Hd & Hl & _).
  bind_ok. eexists. split; [reflexivity |]. vm_proj.
  repeat (split; [first [reflexivity | lia | exact Hl] |]). exact Hd.
Qed.

(** X11: [OpDefineLocal] makes a new variable: the popped value is copied
    into a fresh cell and the local's slot is pointed at it.  Whatever
    handle the slot held before keeps its value, and so does every other
    variable. *)
Theorem define_local_is_fresh (v : VM) (b li : byte) (cur : Frame.t)
    (o : Object) :
  code_at v (ip v + 1) [b; li] ->
  opcode_of b = Some compiler.OpDefineLocal ->
  cur_frame v = Ok cur ->
  value_at v (sp v - 1) = Ok o ->
  0 <= Frame.basePointer cur + int_of_byte li < len (stack v) ->
  exists v',
    step v = Ok v' /\
    sp v' = sp v - 1 /\ ip v' = ip v + 2 /\
    index (stack v') (Frame.basePointer cur + int_of_byte li)
      = Ok (Some (length (cells (heap v)))) /\
    (forall i, i <> Frame.basePointer cur + int_of_byte li ->
               index (stack v') i = index (stack v) i) /\
    cells (heap v') = cells (heap v) ++ [o] /\
    (forall q x, deref (heap v) q = Ok x -> deref (heap v') q = Ok x) /\
    frames v' = frames v /\ globals v' = globals v.
Proof.
  intros Hcode Hop Hcur Hval Hslot.
  pose proof (code_at_inst v _ _ 0 b (ip v + 1) Hcode eq_refl ltac:(lia)) as H0.
  pose proof (code_at_inst v _ _ 1 li (ip v + 1 + 1) Hcode eq_refl ltac:(lia)) as H1.
  rewrite (step_exec v b _ H0 Hop).
  unfold inst in *. cbn [exec snd].
  unfold exec_OpDefineLocal, operand8, inst. vm_proj.
  rewrite H1. bind_ok. vm_proj.
  change (cur_frame (set_ip (set_ip v (ip v + 1)) (ip v + 1 + 1)))
    with (cur_frame v).
  rewrite Hcur. bind_ok. unfold value_at in Hval. rewrite Hval. bind_ok.
  vm_proj.
  destruct (new_cell (heap v) o) as [h' p] eqn:Hnew.
  destruct (new_cell_spec _ _ _ _ Hnew) as (-> & Hcells & _ & Hold & _).
  rewrite store_Ok by exact Hslot. bind_ok.
  eexists. split; [reflexivity |]. vm_proj.
  split; [reflexivity |]. split; [lia |].
  split; [apply index_store_eq; exact Hslot |].
  split; [intros i Hi; apply index_store_ne; lia |].
  split; [exact Hcells |]. split; [exact Hold |]. split; reflexivity.
Qed.

Lemma gather_spec (st : list Ptr) (n : nat) :
  forall from, 0 <= from -> from + Z.of_nat n <= len st ->
  exists free,
    gather n st from = Ok free /\
    length free = n /\
    forall i, 0 <= i < Z.of_nat n -> index free i = index st (from + i).
Proof.
  induction n as [| n IH]; intros from Hfrom Hlen.
  - exists []. split; [reflexivity |]. split; [reflexivity |]. intros; lia.
  - cbn [gather].
    destruct (index_lt st from) as [x Hx]; [lia |]. rewrite Hx. bind_ok.
    destruct (IH (from + 1)) as (free & -> & Hl & Hi); [lia | lia |].
    bind_ok. exists (x :: free). split; [reflexivity |].
    split; [cbn; lia |].
    intros i Hi'. destruct (decide (i = 0)) as [-> | Hne].
    + rewrite Z.add_0_r, Hx. reflexivity.
    + replace (from + i) with (from + 1 + (i - 1)) by lia.
      rewrite <- Hi by lia. unfold index.
      rewrite !bool_decide_eq_true_2 by lia.
      replace (Z.to_nat i) with (S (Z.to_nat (i - 1))) by lia. reflexivity.
Qed.

(** X12: [OpClosure] over a compiled function captures variables, not
    values: free variable [i] of the closure is the very handle in stack
    slot [sp - numFree + i].  The slots are popped and the new closure is
    pushed in a fresh cell. *)
Theorem closure_captures_handles (v : VM) (b hi lo nf : byte) (a fn : nat) :
  code_at v (ip v + 1) [b; hi; lo; nf] ->
  opcode_of b = Some compiler.OpClosure ->
  index (constants v) (u16 hi lo) = Ok a ->
  deref (heap v) (Some a) = Ok (objects.CompiledFunction fn) ->
  0 <= sp v - int_of_byte nf ->
  sp v <= len (stack v) ->
  sp v - int_of_byte nf < StackSize ->
  sp v - int_of_byte nf < len (stack v) ->
  exists v' free,
    step v = Ok v' /\
    sp v' = sp v - int_of_byte nf + 1 /\ ip v' = ip v + 4 /\
    value_at v' (sp v - int_of_byte nf) = Ok (objects.Closure fn free) /\
    len free = int_of_byte nf /\
    (forall i, 0 <= i < int_of_byte nf ->
               index free i = index (stack v) (sp v - int_of_byte nf + i)) /\
    (forall i, i <> sp v - int_of_byte nf ->
               index (stack v') i = index (stack v) i) /\
    cells (heap v') = cells (heap v) ++ [objects.Closure fn free].
Proof.
  intros Hcode Hop Hconst Hfn Hlow Hsp Hfull Hroom.
  pose proof (int_of_byte_nonneg nf) as Hnf.
  pose proof (code_at_inst v _ _ 0 b (ip v + 1) Hcode eq_refl ltac:(lia)) as H0.
  pose proof (code_at_inst v _ _ 1 hi (ip v + 1 + 1) Hcode eq_refl ltac:(lia)) as H1.
  pose proof (code_at_inst v _ _ 2 lo (ip v + 1 + 2) Hcode eq_refl ltac:(lia)) as H2.
  pose proof (code_at_inst v _ _ 3 nf (ip v + 1 + 3) Hcode eq_refl ltac:(lia)) as H3.
  rewrite (step_exec v b _ H0 Hop).
  unfold inst in *. cbn [exec snd].
  unfold exec_OpClosure, operand16, operand8, inst. vm_proj.
  rewrite H2. bind_ok. rewrite H1. bind_ok. rewrite H3. bind_ok. vm_proj.
  fold (u16 hi lo). rewrite Hconst. bind_ok. rewrite Hfn. bind_ok.
  destruct (gather_spec (stack v) (Z.to_nat (int_of_byte nf))
              (sp v - int_of_byte nf)) as (free & -> & Hl & Hfree);
    [lia | lia |].
  bind_ok. unfold check_stack. vm_proj.
  rewrite bool_decide_eq_false_2 by lia. bind_ok.
  unfold put_new. vm_proj.
  destruct (new_cell (heap v) (objects.Closure fn free)) as [h' p] eqn:Hnew.
  destruct (new_cell_spec _ _ _ _ Hnew) as (Hp & Hcells & Hd & _).
  unfold put. vm_proj. rewrite store_Ok by lia. bind_ok.
  exists (set_sp
            (set_stack
               (set_heap
                  (set_sp (set_ip (set_ip v (ip v + 1)) (ip v + 1 + 3))
                     (sp v - int_of_byte nf)) h')
               (<[Z.to_nat (sp v - int_of_byte nf) := p]> (stack v)))
            (sp v - int_of_byte nf + 1)), free.
  split; [reflexivity |]. vm_proj.
  split; [reflexivity |]. split; [lia |].
  split.
  { unfold value_at. vm_proj. rewrite index_store_eq by lia. bind_ok.
    exact Hd. }
  split; [unfold len; lia |].
  split; [intros i Hi; apply Hfree; lia |].
  split; [intros i Hi; apply index_store_ne; lia | exact Hcells].
Qed.

(** X13: [OpSetFree] writes through the captured handle: the popped value
    is copied into the variable free variable [i] of the current frame
    points to, so the frame that defined the variable and every closure
    that captured it read the new value; the handles themselves, the
    frames and the stack stay as they are. *)
Theorem set_free_writes_through (v : VM) (b fi : byte) (cur : Frame.t)
    (val : Ptr) (o : Object) (a : nat) :
  code_at v (ip v + 1) [b; fi] ->
  opcode_of b = Some compiler.OpSetFree ->
  cur_frame v = Ok cur ->
  index (stack v) (sp v - 1) = Ok val ->
  deref (heap v) val = Ok o ->
  index (Frame.freeVars cur) (int_of_byte fi) = Ok (Some a) ->
  (a < length (cells (heap v)))%nat ->
  exists v',
    step v = Ok v' /\
    stack v' = stack v /\ sp v' = sp v - 1 /\ ip v' = ip v + 2 /\
    frames v' = frames v /\ globals v' = globals v /\
    length (cells (heap v')) = length (cells (heap v)) /\
    forall p, deref (heap v') p =
              if decide (p = Some a) then Ok o else deref (heap v) p.
Proof.
  intros Hcode Hop Hcur Hval Ho Hslot Ha.
  pose proof (code_at_inst v _ _ 0 b (ip v + 1) Hcode eq_refl ltac:(lia)) as H0.
  pose proof (code_at_inst v _ _ 1 fi (ip v + 1 + 1) Hcode eq_refl ltac:(lia)) as H1.
  rewrite (step_exec v b _ H0 Hop).
  unfold inst in *. cbn [exec snd].
  unfold exec_OpSetFree, operand8, inst. vm_proj.
  rewrite H1. bind_ok. vm_proj. rewrite Hval. bind_ok. vm_proj.
  change (cur_frame (set_sp (set_ip (set_ip v (ip v + 1)) (ip v + 1 + 1))
                       (sp v - 1)))
    with (cur_frame v).
  rewrite Hcur. bind_ok. rewrite Hslot. bind_ok. rewrite Ho. bind_ok.
  destruct (assign_spec (heap v) a o Ha) as (h' & -> & Hd & Hl & _).
  bind_ok. eexists. split; [reflexivity |]. vm_proj.
  repeat (split; [first [reflexivity | lia | exact Hl] |]). exact Hd.
Qed.
End Bindings.

Section Values.
Context `{Imports}.

Lemma index_bounds {A} (l : list A) (i : Z) (x : A) :
  index l i = Ok x -> 0 <= i < len l.
Proof.
  intros Hi. apply index_Ok in Hi as [Hi Hl]. apply lookup_lt_Some in Hl.
  unfold len. lia.
Qed.

(** X14: [OpImmutable] on an array or a map replaces the top of the stack
    by an immutable value in a fresh cell that shares the elements of the
    original: the same slice of the same backing array, the same map.  The
    original variable still holds the mutable value.  On any other value
    the instruction does nothing. *)
Theorem immutable_is_shallow (v : VM) (b : byte) (p : Ptr) (o : Object) :
  code_at v (ip v + 1) [b] ->
  opcode_of b = Some compiler.OpImmutable ->
  index (stack v) (sp v - 1) = Ok p ->
  deref (heap v) p = Ok o ->
  match frozen o with
  | Some o' =>
      exists v',
        step v = Ok v' /\
        sp v' = sp v /\ ip v' = ip v + 1 /\
        value_at v' (sp v - 1) = Ok o' /\
        deref (heap v') p = Ok o /\
        (forall i, i <> sp v - 1 -> index (stack v') i = index (stack v) i) /\
        cells (heap v') = cells (heap v) ++ [o'] /\
        arrays (heap v') = arrays (heap v) /\ maps (heap v') = maps (heap v)
  | None => step v = Ok (set_ip v (ip v + 1))
  end.
Proof.
  intros Hcode Hop Hp Ho.
  pose proof (code_at_inst v _ _ 0 b (ip v + 1) Hcode eq_refl ltac:(lia)) as H0.
  pose proof (index_bounds _ _ _ Hp) as Hsp.
  rewrite (step_exec v b _ H0 Hop). cbn [exec snd].
  unfold exec_OpImmutable. vm_proj. rewrite Hp. bind_ok. rewrite Ho. bind_ok.
  assert (Hfresh : forall o',
    exists v',
      (let '(h, q) := new_cell (heap v) o' in
       st ← store (stack v) (sp v - 1) q;
       Ok (set_stack (set_heap (set_ip v (ip v + 1)) h) st)) = Ok v' /\
      sp v' = sp v /\ ip v' = ip v + 1 /\
      value_at v' (sp v - 1) = Ok o' /\
      deref (heap v') p = Ok o /\
      (forall i, i <> sp v - 1 -> index (stack v') i = index (stack v) i) /\
      cells (heap v') = cells (heap v) ++ [o'] /\
      arrays (heap v') = arrays (heap v) /\ maps (heap v') = maps (heap v)).
  { intros o'. destruct (new_cell (heap v) o') as [h' q] eqn:Hnew.
    destruct (new_cell_spec _ _ _ _ Hnew) as (Hq & Hcells & Hd & Hold & Ha & Hm & _).
    rewrite store_Ok by exact Hsp. bind_ok.
    eexists. split; [reflexivity |]. vm_proj.
    split; [reflexivity |]. split; [reflexivity |].
    split.
    { unfold value_at. vm_proj. rewrite index_store_eq by exact Hsp. exact Hd. }
    split; [apply Hold; exact Ho |].
    split; [intros i Hi; apply index_store_ne; lia |].
    repeat split; assumption. }
  destruct o; cbn [frozen]; try reflexivity; apply Hfresh.
Qed.

(** X15: [error(x).value] gives [x] back.  [OpError] wraps a copy of the
    value on top of the stack; [OpIndex] with the string "value" as key, on
    an error value (which is not [Indexable]), pushes the wrapped value.
    Run one after the other, with the key pushed in between, they leave
    the stack as deep as it was and the value on top of it. *)
Theorem error_value_round_trip (v : VM) (e c hi lo ix : byte) (k : nat)
    (o : Object) :
  code_at v (ip v + 1) [e; c; hi; lo; ix] ->
  opcode_of e = Some compiler.OpError ->
  opcode_of c = Some compiler.OpConstant ->
  opcode_of ix = Some compiler.OpIndex ->
  index (constants v) (u16 hi lo) = Ok k ->
  deref (heap v) (Some k) = Ok (objects.String "value") ->
  (forall f, Indexable (objects.Error f) = false) ->
  value_at v (sp v - 1) = Ok o ->
  sp v < StackSize -> sp v < len (stack v) ->
  exists v1 v3 f,
    step v = Ok v1 /\
    value_at v1 (sp v - 1) = Ok (objects.Error f) /\
    deref (heap v1) (Some f) = Ok o /\
    steps 3 v = Ok v3 /\
    sp v3 = sp v /\ ip v3 = ip v + 5 /\
    value_at v3 (sp v - 1) = Ok o /\
    index (stack v3) (sp v - 1) = Ok (Some f) /\
    heap v3 = heap v1.
Proof.
  intros Hcode Hope Hopc Hopi Hk Hkey Hnot Hval Hfull Hroom.
  pose proof (code_at_inst v _ _ 0 e (ip v + 1) Hcode eq_refl ltac:(lia)) as H0.
  pose proof (code_at_inst v _ _ 1 c (ip v + 1 + 1) Hcode eq_refl ltac:(lia)) as H1.
  pose proof (code_at_inst v _ _ 2 hi (ip v + 1 + 1 + 1) Hcode eq_refl ltac:(lia)) as H2.
  pose proof (code_at_inst v _ _ 3 lo (ip v + 1 + 1 + 2) Hcode eq_refl ltac:(lia)) as H3.
  pose proof (code_at_inst v _ _ 4 ix (ip v + 1 + 1 + 2 + 1) Hcode eq_refl ltac:(lia)) as H4.
  unfold value_at in Hval.
  destruct (index (stack v) (sp v - 1)) as [p | |] eqn:Hp; try discriminate.
  cbn [mbind Outcome_bind] in Hval.
  pose proof (index_bounds _ _ _ Hp) as Hsp.
  apply deref_Some in Hkey as (k' & [= <-] & Hkc).
  apply deref_Some in Hval as (a & -> & Hac).
  pose proof (lookup_lt_Some _ _ _ Hkc) as Hklt.
  pose proof (lookup_lt_Some _ _ _ Hac) as Halt.
  set (n := length (cells (heap v))) in *.
  set (h1 := set_cells (heap v) ((cells (heap v) ++ [o]) ++ [objects.Error n])).
  set (v1 := set_stack (set_heap (set_ip v (ip v + 1)) h1)
               (<[Z.to_nat (sp v - 1) := Some (S n)]> (stack v))).
  assert (Hs1 : step v = Ok v1).
  { rewrite (step_exec v e _ H0 Hope). cbn [exec snd].
    unfold exec_OpError. vm_proj. rewrite Hp. bind_ok.
    unfold deref. rewrite Hac. bind_ok.
    unfold alloc, new_cell. cbn [cells set_cells].
    rewrite store_Ok by exact Hsp. bind_ok.
    unfold v1, h1, n. rewrite length_app. cbn [length].
    replace (length (cells (heap v)) + 1)%nat
      with (S (length (cells (heap v)))) by lia.
    reflexivity. }
  assert (Hc1 : forall j x, cells (heap v) !! j = Some x ->
                            cells h1 !! j = Some x).
  { intros j x Hj. unfold h1. cbn [cells set_cells].
    rewrite <- app_assoc. apply lookup_app_l_Some. exact Hj. }
  assert (Hn : cells h1 !! n = Some o).
  { unfold h1. cbn [cells set_cells]. rewrite <- app_assoc.
    rewrite lookup_app_r by (unfold n; lia). unfold n.
    rewrite Nat.sub_diag. reflexivity. }
  assert (HSn : cells h1 !! S n = Some (objects.Error n)).
  { unfold h1. cbn [cells set_cells].
    rewrite lookup_app_r by (rewrite length_app; cbn; unfold n; lia).
    rewrite length_app. cbn [length]. unfold n.
    replace (S (length (cells (heap v))) - (length (cells (heap v)) + 1))%nat
      with 0%nat by lia.
    reflexivity. }
  set (v2 := set_sp (set_stack (set_ip v1 (ip v + 1 + 1 + 2))
                       (<[Z.to_nat (sp v) := Some k]> (stack v1)))
               (sp v + 1)).
  assert (Hlen1 : len (stack v1) = len (stack v)).
  { unfold v1, len. vm_proj. rewrite length_insert. reflexivity. }
  assert (Hs2 : step v1 = Ok v2).
  { assert (Hi : inst v1 (ip v1 + 1) = Ok c) by exact H1.
    rewrite (step_exec v1 c _ Hi Hopc). cbn [exec snd].
    unfold exec_OpConstant, operand16, inst.
    change (curInsts (set_ip v1 (ip v1 + 1))) with (curInsts v).
    change (ip (set_ip v1 (ip v1 + 1))) with (ip v + 1 + 1).
    unfold inst in *. rewrite H3. bind_ok. rewrite H2. bind_ok.
    fold (u16 hi lo). unfold check_stack.
    change (sp (set_ip (set_ip v1 (ip v1 + 1)) (ip v + 1 + 1 + 2)))
      with (sp v).
    rewrite bool_decide_eq_false_2 by lia. bind_ok.
    change (constants (set_ip (set_ip v1 (ip v1 + 1)) (ip v + 1 + 1 + 2)))
      with (constants v).
    rewrite Hk. bind_ok. unfold put.
    change (sp (set_ip (set_ip v1 (ip v1 + 1)) (ip v + 1 + 1 + 2)))
      with (sp v).
    change (stack (set_ip (set_ip v1 (ip v1 + 1)) (ip v + 1 + 1 + 2)))
      with (stack v1).
    rewrite store_Ok by lia. bind_ok. reflexivity. }
  set (v3 := set_sp (set_stack (set_sp (set_ip v2 (ip v + 1 + 1 + 2 + 1))
                                  (sp v - 1))
                       (<[Z.to_nat (sp v - 1) := Some n]> (stack v2)))
               (sp v)).
  assert (Hlen2 : len (stack v2) = len (stack v)).
  { unfold v2, len. vm_proj. rewrite length_insert. exact Hlen1. }
  assert (Hs3 : step v2 = Ok v3).
  { assert (Hi : inst v2 (ip v2 + 1) = Ok ix) by exact H4.
    rewrite (step_exec v2 ix _ Hi Hopi). cbn [exec snd].
    unfold exec_OpIndex.
    change (stack (set_ip v2 (ip v2 + 1))) with (stack v2).
    change (sp (set_ip v2 (ip v2 + 1))) with (sp v + 1).
    replace (sp v + 1 - 1) with (sp v) by lia.
    replace (sp v + 1 - 2) with (sp v - 1) by lia.
    assert (Htop : index (stack v2) (sp v) = Ok (Some k)).
    { unfold v2. vm_proj. apply index_store_eq. lia. }
    assert (Hleft : index (stack v2) (sp v - 1) = Ok (Some (S n))).
    { unfold v2. vm_proj. rewrite index_store_ne by lia.
      unfold v1. vm_proj. apply index_store_eq. lia. }
    rewrite Htop. bind_ok. rewrite Hleft. bind_ok.
    change (heap (set_sp (set_ip v2 (ip v2 + 1)) (sp v - 1))) with h1.
    assert (Hd1 : deref h1 (Some (S n)) = Ok (objects.Error n))
      by (unfold deref; rewrite HSn; reflexivity).
    assert (Hd2 : deref h1 (Some k) = Ok (objects.String "value"))
      by (unfold deref; rewrite (Hc1 _ _ Hkc); reflexivity).
    rewrite Hd1. bind_ok. rewrite Hnot. rewrite Hd2. bind_ok.
    unfold check_stack.
    change (sp (set_sp (set_ip v2 (ip v2 + 1)) (sp v - 1))) with (sp v - 1).
    rewrite bool_decide_eq_false_2 by lia. bind_ok. unfold put.
    change (sp (set_sp (set_ip v2 (ip v2 + 1)) (sp v - 1))) with (sp v - 1).
    change (stack (set_sp (set_ip v2 (ip v2 + 1)) (sp v - 1))) with (stack v2).
    rewrite store_Ok by lia. bind_ok.
    unfold v3. replace (sp v - 1 + 1) with (sp v) by lia. reflexivity. }
  exists v1, v3, n.
  split; [exact Hs1 |].
  split.
  { unfold value_at, v1. vm_proj. rewrite index_store_eq by lia. bind_ok.
    unfold deref. rewrite HSn. reflexivity. }
  split; [unfold deref; change (heap v1) with h1; rewrite Hn; reflexivity |].
  split.
  { cbn [steps]. rewrite Hs1. bind_ok. rewrite Hs2. bind_ok. rewrite Hs3.
    reflexivity. }
  split; [reflexivity |]. split; [unfold v3; vm_proj; lia |].
  assert (Hres : index (stack v3) (sp v - 1) = Ok (Some n)).
  { unfold v3. vm_proj. apply index_store_eq. lia. }
  split.
  { unfold value_at. rewrite Hres. bind_ok. change (heap v3) with h1.
    unfold deref. rewrite Hn. reflexivity. }
  split; [exact Hres | reflexivity].
Qed.
End Values.

Section Globals.
Context `{Imports}.

Lemma u16_nonneg (hi lo : byte) : 0 <= u16 hi lo.
Proof.
  unfold u16. apply Z.lor_nonneg. split; [apply int_of_byte_nonneg |].
  apply Z.shiftl_nonneg. apply int_of_byte_nonneg.
Qed.

(** X16: a global is a handle.  [OpSetGlobal g] pops the handle on top of
    the stack into slot [g] of the globals, and [OpGetGlobal g] pushes that
    same handle back: after the two the stack is as it was, the global and
    the top of the stack are aliases of one variable, and nothing was
    copied.  A slot number at or beyond the length of the globals (the
    operand goes up to 65535) makes [OpSetGlobal] panic: there is no
    check. *)
Theorem global_set_then_get (v : VM) (s g hi lo : byte) (x : Ptr) :
  code_at v (ip v + 1) [s; hi; lo; g; hi; lo] ->
  opcode_of s = Some compiler.OpSetGlobal ->
  opcode_of g = Some compiler.OpGetGlobal ->
  index (stack v) (sp v - 1) = Ok x ->
  sp v - 1 < StackSize ->
  (u16 hi lo < len (globals v) ->
   exists v2,
     steps 2 v = Ok v2 /\
     index (globals v2) (u16 hi lo) = Ok x /\
     index (stack v2) (sp v - 1) = Ok x /\
     (forall i, i <> u16 hi lo ->
                index (globals v2) i = index (globals v) i) /\
     stack v2 = stack v /\ sp v2 = sp v /\ ip v2 = ip v + 6 /\
     heap v2 = heap v) /\
  (len (globals v) <= u16 hi lo -> step v = Panic IndexOutOfRange).
Proof.
  intros Hcode Hops Hopg Hx Hfull.
  pose proof (u16_nonneg hi lo) as Hu.
  pose proof (index_bounds _ _ _ Hx) as Hsp.
  pose proof (code_at_inst v _ _ 0 s (ip v + 1) Hcode eq_refl ltac:(lia)) as H0.
  pose proof (code_at_inst v _ _ 1 hi (ip v + 1 + 1) Hcode eq_refl ltac:(lia)) as H1.
  pose proof (code_at_inst v _ _ 2 lo (ip v + 1 + 2) Hcode eq_refl ltac:(lia)) as H2.
  pose proof (code_at_inst v _ _ 3 g (ip v + 1 + 2 + 1) Hcode eq_refl ltac:(lia)) as H3.
  pose proof (code_at_inst v _ _ 4 hi (ip v + 1 + 2 + 1 + 1) Hcode eq_refl ltac:(lia)) as H4.
  pose proof (code_at_inst v _ _ 5 lo (ip v + 1 + 2 + 1 + 2) Hcode eq_refl ltac:(lia)) as H5.
  assert (Hs : step v =
               (gl ← store (globals v) (u16 hi lo) x;
                Ok (set_globals
                      (set_sp (set_ip (set_ip v (ip v + 1)) (ip v + 1 + 2))
                         (sp v - 1)) gl))).
  { rewrite (step_exec v s _ H0 Hops). cbn [exec snd].
    unfold inst in *. unfold exec_OpSetGlobal, operand16, inst. vm_proj.
    rewrite H2. bind_ok. rewrite H1. bind_ok. fold (u16 hi lo). vm_proj.
    rewrite Hx. bind_ok. reflexivity. }
  split.
  - intros Hin.
    rewrite store_Ok in Hs by lia. cbn [mbind Outcome_bind] in Hs.
    set (v1 := set_globals
                 (set_sp (set_ip (set_ip v (ip v + 1)) (ip v + 1 + 2))
                    (sp v - 1))
                 (<[Z.to_nat (u16 hi lo) := x]> (globals v))) in *.
    assert (Hg : index (globals v1) (u16 hi lo) = Ok x).
    { unfold v1. vm_proj. apply index_store_eq. lia. }
    assert (Hs2 : step v1 =
                  Ok (set_sp
                        (set_stack
                           (set_ip (set_ip v1 (ip v + 1 + 2 + 1))
                              (ip v + 1 + 2 + 1 + 2))
                           (<[Z.to_nat (sp v - 1) := x]> (stack v)))
                        (sp v - 1 + 1))).
    { assert (Hi : inst v1 (ip v1 + 1) = Ok g) by exact H3.
      rewrite (step_exec v1 g _ Hi Hopg). cbn [exec snd].
      unfold exec_OpGetGlobal, operand16, inst.
      change (curInsts (set_ip v1 (ip v1 + 1))) with (curInsts v).
      change (ip (set_ip v1 (ip v1 + 1))) with (ip v + 1 + 2 + 1).
      unfold inst in *. rewrite H5. bind_ok. rewrite H4. bind_ok.
      fold (u16 hi lo).
      change (globals (set_ip (set_ip v1 (ip v1 + 1)) (ip v + 1 + 2 + 1 + 2)))
        with (globals v1).
      rewrite Hg. bind_ok.
      destruct (push_spec (set_ip (set_ip v1 (ip v1 + 1)) (ip v + 1 + 2 + 1 + 2)) x)
        as [_ Hpush].
      rewrite Hpush; [reflexivity | unfold v1; vm_proj; lia
                      | unfold v1; vm_proj; lia]. }
    eexists. split.
    { cbn [steps]. rewrite Hs. bind_ok. rewrite Hs2. reflexivity. }
    vm_proj. split; [exact Hg |].
    split; [apply index_store_eq; lia |].
    split; [intros i Hi; unfold v1; vm_proj; apply index_store_ne; lia |].
    split.
    { apply list_insert_id. apply index_Ok in Hx. tauto. }
    split; [lia |]. split; [lia | reflexivity].
  - intros Hout. rewrite Hs. unfold store.
    rewrite bool_decide_eq_false_2 by (unfold len in Hout; lia). reflexivity.
Qed.

(** X17: [OpGetBuiltinModule] looks the module name on top of the stack up
    in the machine's modules and pushes the module's handle in its place.
    An unknown name fails with "module 'name' not found" at the position
    three bytes before the opcode; a name that is no string panics on the
    type assertion. *)
Theorem builtin_module_lookup (v : VM) (b : byte) (o : Object)
    (main : objects.CompiledFunction_struct) :
  code_at v (ip v + 1) [b] ->
  opcode_of b = Some compiler.OpGetBuiltinModule ->
  value_at v (sp v - 1) = Ok o ->
  cur_fn v = Ok main ->
  sp v - 1 < StackSize ->
  match o with
  | objects.String name =>
      match builtinModules v !! name with
      | Some module =>
          exists v',
            step v = Ok v' /\ sp v' = sp v /\ ip v' = ip v + 1 /\
            index (stack v') (sp v - 1) = Ok module /\
            (forall i, i <> sp v - 1 ->
                       index (stack v') i = index (stack v) i) /\
            heap v' = heap v
      | None =>
          step v =
            Err (objects.Errorf
                   (Position (default 0 (objects.SourceMap main
                                           !! (ip v + 1 - 3)))
                    +:+ ": module '" +:+ name +:+ "' not found"))
      end
  | _ => step v = Panic TypeAssertion
  end.
Proof.
  intros Hcode Hop Hval Hmain Hfull.
  pose proof (code_at_inst v _ _ 0 b (ip v + 1) Hcode eq_refl ltac:(lia)) as H0.
  unfold value_at in Hval.
  destruct (index (stack v) (sp v - 1)) as [p | |] eqn:Hp; try discriminate.
  cbn [mbind Outcome_bind] in Hval.
  pose proof (index_bounds _ _ _ Hp) as Hsp.
  rewrite (step_exec v b _ H0 Hop). cbn [exec snd].
  unfold exec_OpGetBuiltinModule. vm_proj. rewrite Hp. bind_ok. vm_proj.
  rewrite Hval. bind_ok.
  destruct o; try reflexivity.
  match goal with
  | |- context [builtinModules v !! ?name] =>
      destruct (builtinModules v !! name) as [module |] eqn:Hm
  end.
  - destruct (push_spec (set_sp (set_ip v (ip v + 1)) (sp v - 1)) module)
      as [_ Hpush].
    rewrite Hpush by (vm_proj; lia). vm_proj.
    eexists. split; [reflexivity |]. vm_proj.
    split; [lia |]. split; [reflexivity |].
    split; [apply index_store_eq; lia |].
    split; [intros i Hi; apply index_store_ne; lia | reflexivity].
  - unfold fail_at, filePos.
    change (cur_fn (set_sp (set_ip v (ip v + 1)) (sp v - 1))) with (cur_fn v).
    rewrite Hmain. reflexivity.
Qed.

Lemma collect_spec (v : VM) (os : list Object) :
  forall (fuel : nat) (i : Z) (acc : list Object),
    (length os <= fuel)%nat ->
    i + len os = sp v ->
    values_on_stack v i os ->
    collect fuel v i acc = Ok (acc ++ os).
Proof.
  induction os as [| x rest IH]; intros fuel i acc Hfuel Hi Hst.
  - unfold len in Hi. cbn in Hi. rewrite app_nil_r.
    destruct fuel; cbn [collect]; [reflexivity |].
    rewrite bool_decide_eq_false_2 by lia. reflexivity.
  - unfold len in Hi. cbn [length] in *.
    destruct fuel as [| fuel]; [lia |]. cbn [collect].
    rewrite bool_decide_eq_true_2 by lia.
    pose proof (Hst 0%nat x eq_refl) as Hx. unfold value_at in Hx.
    replace (i + Z.of_nat 0) with i in Hx by lia.
    rewrite Hx. bind_ok.
    rewrite (IH fuel (i + 1) (acc ++ [x])).
    + rewrite <- app_assoc. reflexivity.
    + lia.
    + unfold len. lia.
    + intros j y Hj. pose proof (Hst (S j) y Hj) as Hy.
      replace (i + 1 + Z.of_nat j) with (i + Z.of_nat (S j)) by lia.
      exact Hy.
Qed.

(** X18: [OpArray n] pops [n] slots and pushes one array whose elements
    are the values of those slots, bottom first.  The array gets a backing
    array of its own, holding the values and not the handles: assigning to
    the variables later does not change it.  [OpArray 0] pushes an empty
    array. *)
Theorem array_collects_values (v : VM) (b hi lo : byte) (os : list Object) :
  code_at v (ip v + 1) [b; hi; lo] ->
  opcode_of b = Some compiler.OpArray ->
  u16 hi lo = len os ->
  values_on_stack v (sp v - u16 hi lo) os ->
  0 <= sp v - u16 hi lo < len (stack v) ->
  sp v - u16 hi lo < StackSize ->
  exists v' s,
    step v = Ok v' /\
    sp v' = sp v - u16 hi lo + 1 /\ ip v' = ip v + 3 /\
    value_at v' (sp v - u16 hi lo) = Ok (objects.Array s) /\
    elems (heap v') s = os /\
    sl_arr s = length (arrays (heap v)) /\
    arrays (heap v') = arrays (heap v) ++ [os] /\
    (forall i, i <> sp v - u16 hi lo ->
               index (stack v') i = index (stack v) i).
Proof.
  intros Hcode Hop Hn Hst Hsp Hov.
  pose proof (code_at_inst v _ _ 0 b (ip v + 1) Hcode eq_refl ltac:(lia)) as H0.
  pose proof (code_at_inst v _ _ 1 hi (ip v + 1 + 1) Hcode eq_refl ltac:(lia)) as H1.
  pose proof (code_at_inst v _ _ 2 lo (ip v + 1 + 2) Hcode eq_refl ltac:(lia)) as H2.
  rewrite (step_exec v b _ H0 Hop). cbn [exec snd].
  unfold inst in *. unfold exec_OpArray, operand16, inst. vm_proj.
  rewrite H2. bind_ok. rewrite H1. bind_ok. fold (u16 hi lo). vm_proj.
  set (n := u16 hi lo) in *.
  rewrite (collect_spec _ os); [| unfold len in Hn; lia | vm_proj; lia | exact Hst].
  bind_ok. cbn [app]. unfold new_array. vm_proj.
  unfold check_stack. vm_proj.
  rewrite bool_decide_eq_false_2 by lia. bind_ok.
  match goal with
  | |- context [put_new ?v1 ?o] =>
      destruct (put_new_Ok v1 o)
        as (v' & Hput & Hsp' & Hip' & Htop & Hrest & _ & Harr & _);
        [vm_proj; lia |]
  end.
  vm_proj. cbn [arrays set_arrays] in Harr.
  eexists v', _. split; [exact Hput |]. split; [lia |]. split; [lia |].
  split; [exact Htop |].
  split.
  { unfold elems. cbn [sl_arr sl_off sl_len]. rewrite Harr.
    rewrite lookup_app_r by lia. rewrite Nat.sub_diag. cbn [lookup list_lookup default].
    rewrite drop_0. apply firstn_all. }
  split; [reflexivity |]. split; [exact Harr | exact Hrest].
Qed.
End Globals.

Section Operators.
Context `{Imports}.

(** [put_new] on a machine whose heap was just replaced. *)
Lemma put_new_result (v : VM) (o : Object) :
  0 <= sp v < len (stack v) ->
  exists v',
    put_new v o = Ok v' /\
    sp v' = sp v + 1 /\ ip v' = ip v /\
    value_at v' (sp v) = Ok o /\
    (forall i, i <> sp v -> index (stack v') i = index (stack v) i) /\
    cells (heap v') = cells (heap v) ++ [o].
Proof.
  intros Hsp.
  destruct (put_new_Ok v o Hsp) as (v' & Hput & Hsp' & Hip & Htop & Hrest & Hc & _).
  exists v'. repeat split; assumption.
Qed.

(** X19: the binary operators.  The left operand is the slot below the
    top, the right operand the top; both are popped and the result of
    [BinaryOp] on their values is pushed in a fresh cell.  When [BinaryOp]
    returns [ErrInvalidOperator] the step fails with "invalid operation:"
    followed by the type name of the left operand, the spelling of the
    operator and the type name of the right operand, at the position of
    the opcode; any other error is returned behind that position.
    [BinaryOp] is taken to leave the compiled functions in place. *)
Theorem binary_operator_result (v : VM) (b : byte) (op : compiler.Opcode)
    (tok : token.Token) (sym : string) (left right : Ptr) (l r : Object)
    (h' : Heap) (res : error + Object)
    (main : objects.CompiledFunction_struct) :
  code_at v (ip v + 1) [b] ->
  opcode_of b = Some op ->
  binary_of op = Some (Some (tok, sym)) ->
  index (stack v) (sp v - 2) = Ok left ->
  index (stack v) (sp v - 1) = Ok right ->
  deref (heap v) left = Ok l ->
  deref (heap v) right = Ok r ->
  BinaryOp tok l r (heap v) = (h', res) ->
  funcs h' = funcs (heap v) ->
  cur_fn v = Ok main ->
  sp v - 2 < StackSize ->
  let pos := Position (default 0 (objects.SourceMap main !! (ip v + 1))) in
  match res with
  | inr o =>
      exists v',
        step v = Ok v' /\
        sp v' = sp v - 1 /\ ip v' = ip v + 1 /\
        value_at v' (sp v - 2) = Ok o /\
        (forall i, i <> sp v - 2 -> index (stack v') i = index (stack v) i) /\
        cells (heap v') = cells h' ++ [o]
  | inl err =>
      if is_sentinel err objects.ErrInvalidOperator then
        forall l' r', deref h' left = Ok l' -> deref h' right = Ok r' ->
          step v = Err (objects.Errorf
                          (pos +:+ ": invalid operation: " +:+ TypeName l'
                           +:+ " " +:+ sym +:+ " " +:+ TypeName r'))
      else step v = Err (objects.Errorf (pos +:+ ": " +:+ Error_text err))
  end.
Proof.
  intros Hcode Hop Hbin Hleft Hright Hl Hr Hcall Hfuncs Hmain Hfull pos.
  pose proof (code_at_inst v _ _ 0 b (ip v + 1) Hcode eq_refl ltac:(lia)) as H0.
  pose proof (index_bounds _ _ _ Hleft) as Hsp.
  assert (Hs : step v = exec_binary tok sym (set_ip v (ip v + 1))).
  { rewrite (step_exec v b _ H0 Hop).
    destruct op; try discriminate Hbin; injection Hbin as <- <-; reflexivity. }
  rewrite Hs. unfold exec_binary. vm_proj.
  rewrite Hright. bind_ok. rewrite Hleft. bind_ok. vm_proj.
  rewrite Hl. bind_ok. rewrite Hr. bind_ok. rewrite Hcall.
  assert (Hpos : forall w, frames w = frames v -> curFrame w = curFrame v ->
                   funcs (heap w) = funcs (heap v) -> ip w = ip v + 1 ->
                   filePos w (ip w) = Ok pos).
  { intros w Hfr Hcf Hfn Hip. unfold filePos, cur_fn, cur_frame.
    rewrite Hfr, Hcf. unfold cur_fn, cur_frame in Hmain.
    destruct (index (frames v) (Z.of_nat (curFrame v))) as [fr | |];
      try discriminate.
    cbn [mbind Outcome_bind] in *.
    unfold fn_struct in *. rewrite Hfn.
    destruct (Frame.fn fr) as [a |]; [| discriminate].
    destruct (funcs (heap v) !! a); [| discriminate].
    injection Hmain as ->. cbn [mbind Outcome_bind]. rewrite Hip. reflexivity. }
  destruct res as [err | o].
  - rewrite Hpos by (vm_proj; first [reflexivity | exact Hfuncs]). bind_ok.
    destruct (is_sentinel err objects.ErrInvalidOperator).
    + intros l' r' Hl' Hr'. rewrite Hl'. bind_ok. rewrite Hr'. reflexivity.
    + reflexivity.
  - unfold check_stack. vm_proj.
    rewrite bool_decide_eq_false_2 by lia. bind_ok.
    match goal with
    | |- context [put_new ?v1 ?x] =>
        destruct (put_new_result v1 x)
          as (v' & Hput & Hsp' & Hip' & Htop & Hrest & Hcells);
          [vm_proj; lia |]
    end.
    vm_proj. exists v'. split; [exact Hput |]. split; [lia |].
    split; [exact Hip' |]. split; [exact Htop |]. split; assumption.
Qed.

(** X20: [OpMinus] on an integer pushes its negation as an [int64]: the
    negation of every integer but the least one, which is its own
    negation.  The operand's variable keeps its value: the result is a new
    variable. *)
Theorem minus_wraps (v : VM) (b : byte) (p : Ptr) (x : Z) :
  code_at v (ip v + 1) [b] ->
  opcode_of b = Some compiler.OpMinus ->
  index (stack v) (sp v - 1) = Ok p ->
  deref (heap v) p = Ok (objects.Int x) ->
  int64 x ->
  sp v - 1 < StackSize ->
  let y := if decide (x = - 2 ^ 63) then x else - x in
  int64 y /\
  exists v',
    step v = Ok v' /\
    sp v' = sp v /\ ip v' = ip v + 1 /\
    value_at v' (sp v - 1) = Ok (objects.Int y) /\
    deref (heap v') p = Ok (objects.Int x) /\
    (forall i, i <> sp v - 1 -> index (stack v') i = index (stack v) i).
Proof.
  intros Hcode Hop Hp Hx Hrange Hfull y.
  pose proof (code_at_inst v _ _ 0 b (ip v + 1) Hcode eq_refl ltac:(lia)) as H0.
  pose proof (index_bounds _ _ _ Hp) as Hsp.
  assert (Hy : wrap64 (- x) = y /\ int64 y).
  { unfold wrap64, y, int64 in *. destruct (decide (x = - 2 ^ 63)) as [-> | Hne].
    - split; [reflexivity | lia].
    - rewrite Z.mod_small by lia. lia. }
  destruct Hy as [Hw Hy]. split; [exact Hy |].
  rewrite (step_exec v b _ H0 Hop). cbn [exec snd].
  unfold exec_OpMinus. vm_proj. rewrite Hp. bind_ok. vm_proj.
  rewrite Hx. bind_ok. unfold check_stack. vm_proj.
  rewrite bool_decide_eq_false_2 by lia. bind_ok. rewrite Hw.
  match goal with
  | |- context [put_new ?v1 ?o] =>
      destruct (put_new_result v1 o)
        as (v' & Hput & Hsp' & Hip' & Htop & Hrest & Hcells);
        [vm_proj; lia |]
  end.
  vm_proj. exists v'. split; [exact Hput |]. split; [lia |].
  split; [exact Hip' |]. split; [exact Htop |].
  split; [| exact Hrest].
  apply deref_Some in Hx as (a & -> & Ha). unfold deref. rewrite Hcells.
  rewrite lookup_app_l by (apply lookup_lt_Some in Ha; exact Ha).
  rewrite Ha. reflexivity.
Qed.



End Operators.

Section AssignEdge.
Context `{Imports}.

(** X23: [indexAssign] with no selector never assigns.  It makes no call
    of [IndexGet] or [IndexSet] and leaves the heap as it is; it panics on
    [selectors[0]] when the destination is index-assignable, and returns
    "not index-assignable" otherwise (or panics on a [nil] destination). *)
Theorem index_assign_without_selectors (h : Heap) (dst src : Ptr) :
  exists r,
    indexAssign h dst src [] = (h, [], r) /\
    r <> Ok () /\
    (forall d, deref h dst = Ok d ->
       r = if IndexAssignable d then Panic IndexOutOfRange
           else Err (objects.Errorf
                       ("not index-assignable: " +:+ TypeName d))).
Proof.
  unfold indexAssign. cbn [length Nat.sub indexAssign_walk].
  unfold indexAssign_leaf, load_dst.
  destruct (deref h dst) as [d | e | p]; bind_ok.
  - destruct (IndexAssignable d) eqn:Hd.
    + cbn. eexists. split; [reflexivity |]. split; [discriminate |].
      intros d' [= <-]. rewrite Hd. reflexivity.
    + eexists. split; [reflexivity |]. split; [discriminate |].
      intros d' [= <-]. rewrite Hd. reflexivity.
  - eexists. split; [reflexivity |]. split; discriminate.
  - eexists. split; [reflexivity |]. split; discriminate.
Qed.
End AssignEdge.

Section Shape.
Context `{Imports}.

Lemma same_shape_refl (v : VM) : same_shape v v.
Proof. repeat split. Qed.

Lemma same_shape_trans (a b c : VM) :
  same_shape a b -> same_shape b c -> same_shape a c.
Proof.
  unfold same_shape. intros (? & ? & ? & ? & ? & ? & ?) (? & ? & ? & ? & ? & ? & ?).
  repeat split; congruence.
Qed.

Lemma copy_args_length (n : nat) (basePointer from : Z) :
  forall (p : Z) (st st' : list Ptr),
    copy_args n p basePointer from st = Ok st' -> length st' = length st.
Proof.
  induction n as [| n IH]; intros p st st'; cbn [copy_args].
  - intros [= <-]. reflexivity.
  - destruct (index st (from + p)); try discriminate. bind_ok.
    unfold store. case_bool_decide; [| discriminate]. bind_ok.
    intros Hc. apply IH in Hc. rewrite Hc, length_insert. reflexivity.
Qed.

(** Case analysis on everything a step decides on, outermost first. *)
Ltac scrutinee x :=
  lazymatch x with
  | @mbind _ _ _ _ _ ?y => scrutinee y
  | snd ?y => scrutinee y
  | match ?y with _ => _ end => scrutinee y
  | _ => x
  end.

Ltac crunch Hs :=
  repeat (cbn [mbind Outcome_bind fst snd] in Hs;
          lazymatch type of Hs with
          | Ok _ = Ok _ => injection Hs as <-
          | Err _ = Ok _ => discriminate Hs
          | Panic _ = Ok _ => discriminate Hs
          | ?lhs = Ok _ => let x := scrutinee lhs in destruct x eqn:?
          end).

Ltac shape_done :=
  unfold same_shape, same_frame; vm_proj;
  rewrite ?length_insert; repeat split;
  first [reflexivity | congruence
        | erewrite copy_args_length by eassumption; reflexivity].

Lemma exec_keeps_shape (op : compiler.Opcode) (v v' : VM) :
  (exec op v).2 = Ok v' ->
  same_shape v v' /\ (moves_frame op = false -> same_frame v v').
Proof.
  intros Hs.
  destruct op; cbn [exec snd moves_frame] in Hs |- *;
    unfold exec_binary, exec_equal, exec_OpConstant, exec_OpLNot,
      exec_OpBComplement, exec_OpMinus, exec_OpJumpFalsy, exec_OpAndJump,
      exec_OpOrJump, exec_OpJump, exec_OpSetGlobal, exec_OpGetGlobal,
      exec_OpSetSelGlobal, exec_OpSetSelLocal, exec_OpSetSelFree, exec_setsel,
      exec_OpArray, exec_OpMap, exec_OpError, exec_OpImmutable, exec_OpIndex,
      exec_OpSliceIndex, slice_bounds, exec_OpDefineLocal, exec_OpSetLocal,
      exec_OpGetLocal, exec_OpGetBuiltin, exec_OpGetBuiltinModule,
      exec_OpClosure, exec_OpGetFree, exec_OpSetFree, exec_OpIteratorInit,
      exec_OpIteratorNext, exec_iterator_get, exec_OpReturnValue,
      exec_OpReturn, pop_frame, exec_OpCall, call_function, call_callable,
      tail_call, push_frame, fail_at, push, put_new, put, check_stack,
      store, new_cell, new_array, new_map, alloc in Hs;
    crunch Hs;
    (split; [shape_done | first [discriminate | intros _; shape_done]]).
Qed.

Lemma step_keeps_shape (v v' : VM) : step v = Ok v' -> same_shape v v'.
Proof.
  unfold step, step_log.
  destruct (inst _ _) as [b | |]; try discriminate.
  destruct (opcode_of b) as [op |]; try discriminate.
  intros Hs. apply exec_keeps_shape in Hs as [Hs _].
  unfold same_shape in *. vm_proj. exact Hs.
Qed.

(** X24: what no run changes.  Whatever instructions are executed, the
    stack keeps its length, and so do the frame array and the globals: the
    machine never grows them, whatever the program.  The constants, the
    builtin functions and the modules stay the same handles, and no
    instruction touches the abort flag. *)
Theorem run_keeps_shape (n : nat) (v v' : VM) :
  steps n v = Ok v' -> same_shape v v'.
Proof.
  revert v. induction n as [| n IH]; intros v; cbn [steps].
  - intros [= <-]. apply same_shape_refl.
  - destruct (step v) as [v1 | |] eqn:Hs; try discriminate. bind_ok.
    intros Hn. apply (same_shape_trans v v1 v').
    + apply step_keeps_shape. exact Hs.
    + apply IH. exact Hn.
Qed.

(** X25: only [OpCall], [OpReturn] and [OpReturnValue] move between
    frames.  A step of any other opcode leaves the frames, the frame index,
    the current frame and its instructions as they are. *)
Theorem only_calls_move_frames (v v' : VM) (b : byte) (op : compiler.Opcode) :
  code_at v (ip v + 1) [b] ->
  opcode_of b = Some op ->
  moves_frame op = false ->
  step v = Ok v' ->
  same_frame v v'.
Proof.
  intros Hcode Hop Hmv Hs.
  pose proof (code_at_inst v _ _ 0 b (ip v + 1) Hcode eq_refl ltac:(lia)) as H0.
  rewrite (step_exec v b _ H0 Hop) in Hs.
  apply exec_keeps_shape in Hs as [_ Hs]. specialize (Hs Hmv).
  unfold same_frame in *. vm_proj. exact Hs.
Qed.
End Shape.

Section Comparisons.
Context `{Imports}.

(** X26: [OpEqual] and [OpNotEqual] pop two operands and push one of the
    two shared booleans: they allocate nothing, and on the same operands
    one pushes the true object exactly when the other pushes the false
    one.  [Equals] is asked of the left operand (the lower slot). *)
Theorem equality_pushes_shared_bool (v : VM) (b : byte)
    (op : compiler.Opcode) (left right : Ptr) (l r : Object) :
  code_at v (ip v + 1) [b] ->
  opcode_of b = Some op ->
  binary_of op = Some None ->
  index (stack v) (sp v - 2) = Ok left ->
  index (stack v) (sp v - 1) = Ok right ->
  deref (heap v) left = Ok l ->
  deref (heap v) right = Ok r ->
  sp v - 2 < StackSize ->
  exists v',
    step v = Ok v' /\
    sp v' = sp v - 1 /\ ip v' = ip v + 1 /\ heap v' = heap v /\
    index (stack v') (sp v - 2)
      = Ok (if xorb (Equals l r (heap v))
                 (compiler.Opcode_eqb op compiler.OpNotEqual)
            then truePtr else falsePtr) /\
    (forall i, i <> sp v - 2 -> index (stack v') i = index (stack v) i).
Proof.
  intros Hcode Hop Hbin Hleft Hright Hl Hr Hfull.
  pose proof (code_at_inst v _ _ 0 b (ip v + 1) Hcode eq_refl ltac:(lia)) as H0.
  pose proof (index_bounds _ _ _ Hleft) as Hsp.
  assert (Hs : step v =
               exec_equal (compiler.Opcode_eqb op compiler.OpNotEqual)
                 (set_ip v (ip v + 1))).
  { rewrite (step_exec v b _ H0 Hop).
    destruct op; try discriminate Hbin; reflexivity. }
  rewrite Hs. unfold exec_equal. vm_proj.
  rewrite Hright. bind_ok. rewrite Hleft. bind_ok. vm_proj.
  unfold check_stack. vm_proj.
  rewrite bool_decide_eq_false_2 by lia. bind_ok.
  rewrite Hl. bind_ok. rewrite Hr. bind_ok.
  assert (Hput : forall p,
            exists v',
              put (set_sp (set_ip v (ip v + 1)) (sp v - 2)) p = Ok v' /\
              sp v' = sp v - 1 /\ ip v' = ip v + 1 /\ heap v' = heap v /\
              index (stack v') (sp v - 2) = Ok p /\
              (forall i, i <> sp v - 2 ->
                         index (stack v') i = index (stack v) i)).
  { intros p. rewrite put_Ok by (vm_proj; lia). vm_proj.
    eexists. split; [reflexivity |]. vm_proj.
    split; [lia |]. split; [reflexivity |]. split; [reflexivity |].
    split; [apply index_store_eq; lia | intros i Hi; apply index_store_ne; lia]. }
  destruct (xorb _ _); apply Hput.
Qed.

(** X27: the iterator opcodes on a value that cannot be iterated.
    [OpIteratorInit] on a value that is not [Iterable] fails with "not
    iterable:" and the type name, at the position of the opcode;
    [OpIteratorNext], [OpIteratorKey] and [OpIteratorValue] on a value that
    is no [Iterator] panic on the type assertion. *)
Theorem iteration_needs_iterable (v : VM) (b : byte) (op : compiler.Opcode)
    (o : Object) (main : objects.CompiledFunction_struct) :
  code_at v (ip v + 1) [b] ->
  opcode_of b = Some op ->
  value_at v (sp v - 1) = Ok o ->
  cur_fn v = Ok main ->
  (op = compiler.OpIteratorInit -> Iterable o = false ->
   step v =
     Err (objects.Errorf
            (Position (default 0 (objects.SourceMap main !! (ip v + 1)))
             +:+ ": not iterable: " +:+ TypeName o))) /\
  (op = compiler.OpIteratorNext \/ op = compiler.OpIteratorKey \/
   op = compiler.OpIteratorValue ->
   IsIterator o = false ->
   step v = Panic TypeAssertion).
Proof.
  intros Hcode Hop Hval Hmain.
  pose proof (code_at_inst v _ _ 0 b (ip v + 1) Hcode eq_refl ltac:(lia)) as H0.
  unfold value_at in Hval.
  destruct (index (stack v) (sp v - 1)) as [p | |] eqn:Hp; try discriminate.
  cbn [mbind Outcome_bind] in Hval.
  rewrite (step_exec v b _ H0 Hop). split.
  - intros -> Hnot. cbn [exec snd]. unfold exec_OpIteratorInit. vm_proj.
    rewrite Hp. bind_ok. vm_proj. rewrite Hval. bind_ok. rewrite Hnot.
    unfold fail_at, filePos.
    change (cur_fn (set_sp (set_ip v (ip v + 1)) (sp v - 1))) with (cur_fn v).
    rewrite Hmain. reflexivity.
  - intros [-> | [-> | ->]] Hnot; cbn [exec snd];
      unfold exec_OpIteratorNext, exec_iterator_get; vm_proj;
      rewrite Hp; bind_ok; vm_proj; rewrite Hval; bind_ok; rewrite Hnot;
      reflexivity.
Qed.

(** X28: [Run] can be called again.  The reset at its head depends on
    frame 0 only: wherever an earlier run stopped, the next one starts in
    the main function with an empty stack, the abort flag cleared and the
    globals, the heap and the frames as they were left; resetting twice is
    resetting once. *)
Theorem reset_restarts (v v' : VM) :
  reset v = Ok v' ->
  sp v' = 0 /\ ip v' = -1 /\ framesIndex v' = 1 /\ curFrame v' = 0%nat /\
  aborting v' = 0 /\
  (exists fr main,
     index (frames v) 0 = Ok fr /\
     fn_struct (heap v) (Frame.fn fr) = Ok main /\
     curInsts v' = objects.Instructions main /\
     curIPLimit v' = len (objects.Instructions main) - 1) /\
  globals v' = globals v /\ heap v' = heap v /\ stack v' = stack v /\
  frames v' = frames v /\ constants v' = constants v /\
  reset v' = Ok v' /\
  forall fuel aborts, Run fuel aborts v = Run fuel aborts v'.
Proof.
  unfold reset at 1. vm_proj.
  destruct (index (frames v) 0) as [fr | |] eqn:Hfr; try discriminate.
  bind_ok. unfold cur_fn, cur_frame. vm_proj. change (Z.of_nat 0) with 0.
  rewrite Hfr. bind_ok.
  destruct (fn_struct (heap v) (Frame.fn fr)) as [main | |] eqn:Hmain;
    try discriminate.
  bind_ok. vm_proj. intros [= <-]. vm_proj.
  assert (Hagain : forall w, frames w = frames v -> heap w = heap v ->
            reset w =
            Ok (set_aborting
                  (set_ip
                     (set_framesIndex
                        (set_curIPLimit
                           (set_curInsts (set_curFrame (set_sp w 0) 0%nat)
                              (objects.Instructions main))
                           (len (objects.Instructions main) - 1)) 1) (-1)) 0)).
  { intros w Hf Hh. unfold reset. vm_proj. rewrite Hf, Hfr. bind_ok.
    unfold cur_fn, cur_frame. vm_proj. change (Z.of_nat 0) with 0.
    rewrite Hf, Hfr. bind_ok. rewrite Hh, Hmain. bind_ok. vm_proj.
    reflexivity. }
  repeat (split; [reflexivity |]).
  split; [exists fr, main; repeat split; assumption |].
  repeat (split; [reflexivity |]).
  split.
  - rewrite Hagain by reflexivity. reflexivity.
  - intros fuel aborts. unfold Run.
    rewrite (Hagain v) by reflexivity. rewrite Hagain by reflexivity.
    reflexivity.
Qed.
End Comparisons.

(** ** The properties on concrete machines

    Each machine below is the one [NewVM] makes for a small program, run
    for the rounds stated, under the instance [Sample.imports]. *)

Section Concrete.
Import compiler Sample Examples.

(** C1: the script [f := func() { return 1 + f() }; f()].  [Run] neither
    returns [ErrStackOverflow] nor any other error: with 1024 frames in use
    and the operand stack not yet full, the next [OpCall] indexes [v.frames]
    at [MaxFrames] and the run panics with an index out of range. *)
Theorem frame_overflow_panics :
  exists v',
    machine deep_consts deep_funcs = Ok deep_start /\
    Run 4000 never deep_start = Panics IndexOutOfRange v' /\
    framesIndex v' = MaxFrames /\ len (frames v') = MaxFrames /\
    sp v' < StackSize /\
    step v' = Panic IndexOutOfRange.
Proof.
  eexists. split; [vm_compute; reflexivity |].
  split; [vm_compute; reflexivity |].
  split; [reflexivity |]. split; [reflexivity |]. split; [reflexivity |].
  vm_compute. reflexivity.
Qed.

(** C2, on a machine: [f := func(x) { return f(x) }; f(1)], about to make
    the call inside [f]. *)
Lemma tail_call_reuses_frame_witness :
  (forall v', step tail_state = Ok v' ->
     framesIndex v' = 2 /\ frames v' = frames tail_state /\
     curFrame v' = curFrame tail_state /\
     curInsts v' = curInsts tail_state /\
     heap v' = heap tail_state /\ ip v' = -1 /\ sp v' = 2) /\
  (exists v',
     step tail_state = Ok v' /\
     (forall p, 0 <= p < 1 ->
        index (stack v') (1 + p) = index (stack tail_state) (3 + p)) /\
     (forall i, ~ (1 <= i < 2) ->
        index (stack v') i = index (stack tail_state) i)).
Proof.
  destruct (@tail_call_reuses_frame imports tail_state (Op OpCall) x01
              (objects.Closure 1 []) 1%nat []
              (func [Op OpGetGlobal; x00; x00; Op OpGetLocal; x00;
                     Op OpCall; x01; Op OpReturnValue] 1 1)
              {| Frame.fn := Some 1%nat; Frame.freeVars := [];
                 Frame.ip := 0; Frame.basePointer := 1 |})
    as [A B].
  - code_here.
  - by_running.
  - by_running.
  - by_running.
  - by_running.
  - by_running.
  - by_running.
  - by_running.
  - left. exists (Op OpReturnValue). split; [code_here | by_running].
  - split; [exact A |]. apply B.
    + vm_compute. split; discriminate.
    + vm_compute. discriminate.
Defined.

(** [f := func(x) { return f(x) }; f(1)] never ends and never grows the
    frame stack: once inside [f], three rounds (fetch [f], fetch [x], the
    tail call) bring the machine back to the very same state, so that after
    any number of rounds the frame index is 2. *)
Lemma tail_loop_cycle (q : nat) : steps (3 * q) tail_loop = Ok tail_loop.
Proof.
  induction q as [| q IH]; [reflexivity |].
  replace (3 * S q)%nat with (3 + 3 * q)%nat by lia.
  rewrite steps_add.
  replace (steps 3 tail_loop) with (Ok tail_loop) by (vm_compute; reflexivity).
  exact IH.
Qed.

Lemma tail_recursion_never_grows (n : nat) :
  exists v, steps n tail_loop = Ok v /\ framesIndex v = 2.
Proof.
  rewrite (Nat.div_mod_eq n 3), steps_add, tail_loop_cycle. bind_ok.
  assert (Hr : (n mod 3 < 3)%nat) by (apply Nat.mod_upper_bound; lia).
  destruct (n mod 3)%nat as [| [| [| r]]]; [| | | lia];
    eexists; (split; [vm_compute; reflexivity | reflexivity]).
Qed.

(** C3 as stated fails: the program made of a lone [OpPop] runs to its end
    with no error and no abort, and leaves [sp = -1]. *)
Lemma clean_exit_negative_sp :
  exists v',
    machine [] pop_funcs = Ok pop_start /\
    Run 2 never pop_start = Returns None v' /\
    aborting v' = 0 /\ sp v' = -1 /\ sp v' <> 0.
Proof.
  eexists. split; [vm_compute; reflexivity |].
  split; [vm_compute; reflexivity |].
  split; [reflexivity |]. split; [reflexivity | discriminate].
Qed.

(** C3, as amended, on machines: [true] followed by [OpPop] ends with an
    empty stack; a lone [OpTrue] ends in the panic. *)
Lemma clean_exit_stack_not_positive_witness :
  (exists v',
     Run 3 never true_pop_start = Returns None v' /\
     aborting v' = 0 /\ sp v' <= 0 /\ (0 <= sp v' -> sp v' = 0)) /\
  mainloop 1 never 1 lone_true_state =
    Panics (NonEmptyStack 1) lone_true_state.
Proof.
  destruct (@clean_exit_stack_not_positive imports) as [A B]. split.
  - eexists. split; [vm_compute; reflexivity |].
    split; [reflexivity |].
    eapply (A 3%nat never true_pop_start); [vm_compute; reflexivity | reflexivity].
  - apply (B 0%nat never 1%nat lone_true_state).
    + vm_compute. discriminate.
    + vm_compute. reflexivity.
    + vm_compute. reflexivity.
Defined.

(** C4, on a machine: [for { true }] after four rounds, two values on the
    stack, when an [Abort] lands. *)
Lemma abort_exits_cleanly_witness :
  (exists v0,
     reset (Abort spin_state) = Ok v0 /\ aborting v0 = 0 /\
     Run 9 (abort_at 4) (Abort spin_state) = mainloop 9 (abort_at 4) 0 v0) /\
  (exists v',
     mainloop 1 (abort_at 4) 4 spin_state = Returns None v' /\
     same_but_flag spin_state v' /\ sp v' = 2).
Proof.
  destruct (@abort_exits_cleanly imports) as (A & B & C). split.
  - eexists. split; [vm_compute; reflexivity |]. split.
    + eapply (A (Abort spin_state)). vm_compute. reflexivity.
    + apply (B 9%nat (abort_at 4) (Abort spin_state)). vm_compute. reflexivity.
  - destruct (C 0%nat (abort_at 4) 4%nat spin_state) as (v' & Hv' & Hs).
    + vm_compute. discriminate.
    + exists v'. split; [exact Hv' |]. split; [exact Hs |].
      unfold same_but_flag in Hs.
      change (sp v') with (sp (set_aborting v' 0)). rewrite Hs. reflexivity.
Defined.

(** An [Abort] that lands before the fifth load stops [for { true }] after
    four rounds; [Run] returns [nil] with two values left on the stack. *)
Lemma abort_stops_spinning :
  exists v v',
    machine [] spin_funcs = Ok v /\
    Run 100 (abort_at 4) v = Returns None v' /\
    sp v' = 2 /\ aborting v' = 1 /\ same_but_flag spin_state v'.
Proof.
  eexists. eexists. split; [vm_compute; reflexivity |].
  split; [vm_compute; reflexivity |].
  split; [reflexivity |]. split; reflexivity.
Qed.


(** C6 as stated fails: after [a := [7, 7, 7]], a call of a function with
    one parameter and two locals finds the handle of a [7] in local slot 1,
    not [Undefined]. *)
Lemma new_frame_local_not_undefined :
  exists v' fr,
    machine stale_consts stale_funcs ≫= steps 7 = Ok stale_state /\
    step stale_state = Ok v' /\
    framesIndex stale_state = 1 /\ framesIndex v' = 2 /\
    cur_frame v' = Ok fr /\
    (fn_struct (heap v') (Frame.fn fr) ≫= fun f =>
       Ok (objects.NumParameters f, objects.NumLocals f)) = Ok (1, 2) /\
    index (stack v') (Frame.basePointer fr + 1) ≫= deref (heap v')
      = Ok (objects.Int 7) /\
    objects.Int 7 <> objects.Undefined.
Proof.
  eexists. eexists. split; [vm_compute; reflexivity |].
  split; [vm_compute; reflexivity |].
  split; [reflexivity |]. split; [reflexivity |].
  split; [vm_compute; reflexivity |].
  split; [vm_compute; reflexivity |].
  split; [vm_compute; reflexivity | discriminate].
Qed.

(** C6, as amended, on that machine. *)
Lemma new_frame_locals_witness :
  exists v' fr,
    step stale_state = Ok v' /\
    cur_frame v' = Ok fr /\
    Frame.fn fr = Some 1%nat /\ Frame.freeVars fr = [] /\
    Frame.basePointer fr = 1 /\
    framesIndex v' = 2 /\ sp v' = 3 /\
    stack v' = stack stale_state /\ heap v' = heap stale_state /\
    (forall p,
       index (stack v') (Frame.basePointer fr + p) =
       index (stack stale_state) (1 + p)).
Proof.
  apply (@new_frame_locals imports stale_state (Op OpCall) x01
           (objects.CompiledFunction 1) 1%nat []
           (func [Op OpReturn] 2 1)
           {| Frame.fn := Some 0%nat; Frame.freeVars := [];
              Frame.ip := -1; Frame.basePointer := 0 |}).
  - code_here.
  - by_running.
  - by_running.
  - by_running.
  - by_running.
  - by_running.
  - by_running.
  - left. discriminate.
  - vm_compute. split; [discriminate | reflexivity].
Defined.


(** [m := {a: {b: 1}}; m.a.b = 5], run to its end: the calls made by
    [OpSetSelGlobal], and the inner map holding 5 under ["b"]. *)
Lemma chain_assignment_runs :
  exists v v',
    machine chain_consts chain_funcs = Ok v /\
    Run 20 never v = Returns None v' /\
    (step_log chain_state).1 =
      [CallIndexGet 1 (objects.Map 1) (objects.String "a")
         (inr (Some (objects.Map 0)));
       CallIndexSet 0 (objects.Map 0) (objects.String "b") (objects.Int 5)
         None] /\
    maps (heap v') !! 0%nat = Some {[ "b" := objects.Int 5 ]}.
Proof.
  eexists. eexists. split; [vm_compute; reflexivity |].
  split; [vm_compute; reflexivity |].
  split; vm_compute; reflexivity.
Qed.

(** C8 as stated fails: [{a: 1}] is compiled to [OpMap 2]; the step pops
    two slots, one pair, not two pairs. *)
Lemma map_operand_counts_slots :
  exists v' m,
    machine map_consts map_funcs ≫= steps 2 = Ok map_state /\
    code_at map_state (ip map_state + 1) [Op OpMap; x00; x02] /\
    u16 x00 x02 = 2 /\
    step map_state = Ok v' /\
    sp v' = sp map_state - 2 + 1 /\
    sp v' <> sp map_state - 2 * 2 + 1 /\
    index (stack v') 0 ≫= deref (heap v') = Ok (objects.Map m) /\
    maps (heap v') !! m = Some {[ "a" := objects.Int 1 ]}.
Proof.
  eexists. eexists. split; [vm_compute; reflexivity |].
  split; [code_here |]. split; [reflexivity |].
  split; [vm_compute; reflexivity |].
  split; [reflexivity |]. split; [vm_compute; discriminate |].
  split; [vm_compute; reflexivity |]. vm_compute. reflexivity.
Qed.

(** C8, as amended, on that machine. *)
Lemma map_pops_operand_slots_witness :
  exists v' m,
    step map_state = Ok v' /\
    sp v' = 1 /\ ip v' = 8 /\
    index (stack v') 0 ≫= deref (heap v') = Ok (objects.Map m) /\
    maps (heap v') !! m = Some (kv_of [("a", objects.Int 1)]).
Proof.
  apply (@map_pops_operand_slots imports map_state (Op OpMap) x00 x02
           [("a", objects.Int 1)]).
  - code_here.
  - by_running.
  - by_running.
  - intros j k x Hj. destruct j as [| j]; [| destruct j; discriminate Hj].
    injection Hj as <- <-. split; vm_compute; reflexivity.
  - vm_compute. split; [discriminate | reflexivity].
  - vm_compute. reflexivity.
Defined.

(** C9, on a machine: [OpClosure] over the constant [7]. *)
Lemma closure_over_non_function_fails_witness :
  mainloop 1 never 0 notfn_state =
  Returns (Some (objects.Errorf "test:0: not function: compiled-function"))
    notfn_state.
Proof.
  apply (@closure_over_non_function_fails imports 0 never 0%nat notfn_state
           (Op OpClosure) x00 x00 x00 3%nat (objects.Int 7)
           (func [Op OpClosure; x00; x00; x00; Op OpPop] 0 0)).
  - by_running.
  - by_running.
  - code_here.
  - by_running.
  - by_running.
  - by_running.
  - intros fn. discriminate.
  - by_running.
Defined.



End Concrete.

(** ** The rest of the machine, on concrete machines *)

Section MoreConcrete.
Import compiler Sample Examples Programs.

(** X1, on machines: [true] at the start of a program, and the [true] of
    [for { true }] once the stack is full. *)
Lemma literal_push_or_overflow_witness :
  (step full_state = Err objects.ErrStackOverflow /\
   mainloop 1 never 0 full_state
     = Returns (Some objects.ErrStackOverflow) full_state) /\
  (exists v',
     step true_pop_start = Ok v' /\
     sp v' = 1 /\ ip v' = 0 /\ heap v' = heap true_pop_start /\
     index (stack v') 0 = Ok truePtr /\
     forall i, i <> 0 -> index (stack v') i = index (stack true_pop_start) i).
Proof.
  split.
  - destruct (@literal_push_or_overflow imports full_state (Op OpTrue) OpTrue)
      as [A _]; [code_here | by_running | reflexivity |].
    destruct A as [A B]; [vm_compute; discriminate |].
    split; [exact A |]. apply (B 0%nat never 0%nat); by_running.
  - destruct (@literal_push_or_overflow imports true_pop_start (Op OpTrue)
                OpTrue) as [_ B]; [code_here | by_running | reflexivity |].
    apply B; vm_compute; [split; [discriminate | reflexivity] | reflexivity].
Defined.

(** X2, on a machine: the byte 255 as first instruction. *)
Lemma unknown_opcode_panics_witness :
  step unknown_start = Panic (UnknownOpcode xff) /\
  mainloop 1 never 0 unknown_start = Panics (UnknownOpcode xff) unknown_start.
Proof.
  apply (@unknown_opcode_panics imports 0 never 0%nat unknown_start xff).
  - by_running.
  - by_running.
  - code_here.
  - by_running.
Defined.

(** X3, on a machine: [OpReturn] as first instruction of the main
    function. *)
Lemma return_in_main_panics_witness :
  step return_start = Panic IndexOutOfRange.
Proof.
  apply (@return_in_main_panics imports return_start (Op OpReturn) OpReturn).
  - code_here.
  - by_running.
  - left. reflexivity.
  - reflexivity.
Defined.

(** X4, on a machine: [OpAdd] on the empty stack. *)
Lemma binary_underflow_panics_witness :
  step add_start = Panic IndexOutOfRange.
Proof.
  apply (@binary_underflow_panics imports add_start (Op OpAdd) OpAdd).
  - code_here.
  - by_running.
  - eexists. reflexivity.
  - reflexivity.
Defined.

(** X5, on a machine: the one [NewVM] makes for the program [OpPop]. *)
Lemma new_vm_is_reset_witness :
  reset pop_start = Ok pop_start /\
  (forall fuel aborts,
     Run fuel aborts pop_start = mainloop fuel aborts 0 pop_start) /\
  FrameInfo pop_start = (0, -1) /\
  sp pop_start = 0 /\ aborting pop_start = 0 /\
  len (stack pop_start) = StackSize /\
  (forall i, 0 <= i < StackSize -> index (stack pop_start) i = Ok None) /\
  len (frames pop_start) = MaxFrames /\
  cur_frame pop_start ≫= (fun f => Ok (Frame.fn f, Frame.basePointer f))
    = Ok (Some 0%nat, 0) /\
  (@None (list Ptr) = None ->
   len (globals pop_start) = GlobalsSize /\
   forall i, 0 <= i < GlobalsSize -> index (globals pop_start) i = Ok None) /\
  (@None (gmap string Ptr) = None -> builtinModules pop_start = ∅).
Proof.
  apply (@new_vm_is_reset imports (heap_of [] pop_funcs) [] ∅
           (bytecode_of []) None None pop_start).
  by_running.
Defined.

(** X6, on a machine: the program with no instruction. *)
Lemma run_empty_program_witness :
  Run 1 never empty_start = Returns None empty_start.
Proof.
  apply (@run_empty_program imports (heap_of [] empty_funcs) [] ∅
           (bytecode_of []) None None empty_start 0 never).
  - by_running.
  - reflexivity.
Defined.

(** X7, on a machine: [f(1)] for [f] with the body [OpReturn], from the
    call to the return. *)
Lemma call_then_return_witness :
  exists v3,
    step stale_called = Ok v3 /\
    framesIndex v3 = 1 /\ curFrame v3 = 0%nat /\ ip v3 = 22 /\
    curInsts v3 = curInsts stale_state /\
    curIPLimit v3 = 23 /\
    sp v3 = 1 /\
    index (stack v3) 0 = Ok undefinedPtr /\
    (forall i, i <> 0 -> index (stack v3) i = index (stack stale_called) i) /\
    heap v3 = heap stale_called /\ frames v3 = frames stale_called.
Proof.
  apply (@call_then_return imports stale_state stale_called (Op OpCall) x01
           (Op OpReturn) (objects.CompiledFunction 1) 1%nat []
           (func [Op OpReturn] 2 1)
           (func [Op OpConstant; x00; x02; Op OpConstant; x00; x02;
                  Op OpConstant; x00; x02; Op OpArray; x00; x03;
                  Op OpSetGlobal; x00; x00;
                  Op OpConstant; x00; x00; Op OpConstant; x00; x01;
                  Op OpCall; x01; Op OpPop] 0 0)
           {| Frame.fn := Some 0%nat; Frame.freeVars := [];
              Frame.ip := -1; Frame.basePointer := 0 |}
           OpReturn undefinedPtr) with (v1 := stale_called).
  - code_here.
  - by_running.
  - by_running.
  - by_running.
  - by_running.
  - by_running.
  - by_running.
  - left. discriminate.
  - reflexivity.
  - vm_compute. discriminate.
  - vm_compute. reflexivity.
  - reflexivity.
  - vm_compute. reflexivity.
  - eexists. split; [vm_compute; reflexivity | reflexivity].
  - by_running.
  - vm_compute. split; discriminate.
  - code_here.
  - by_running.
  - left. split; reflexivity.
Defined.

(** X8, on a machine: [f()] for a function of one parameter. *)
Lemma wrong_number_of_arguments_witness :
  step arity_state =
    Err (objects.Errorf
           "test:0: wrong number of arguments: want=1, got=0") /\
  forall fuel aborts k,
    ip arity_state < curIPLimit arity_state ->
    aborting (load_aborting aborts k arity_state) = 0 ->
    mainloop (S fuel) aborts k arity_state =
      Returns (Some (objects.Errorf
                       "test:0: wrong number of arguments: want=1, got=0"))
        arity_state.
Proof.
  apply (@wrong_number_of_arguments imports arity_state (Op OpCall) x00
           (objects.CompiledFunction 1) 1%nat [] (func [Op OpReturn] 1 1)
           (func [Op OpConstant; x00; x00; Op OpCall; x00; Op OpPop] 0 0)).
  - code_here.
  - by_running.
  - by_running.
  - by_running.
  - by_running.
  - vm_compute. discriminate.
  - by_running.
Defined.

(** X9, on a machine: [7()]. *)
Lemma not_callable_fails_witness :
  step seven_state = Err (objects.Errorf "test:0: not callable: int") /\
  forall fuel aborts k,
    ip seven_state < curIPLimit seven_state ->
    aborting (load_aborting aborts k seven_state) = 0 ->
    mainloop (S fuel) aborts k seven_state =
      Returns (Some (objects.Errorf "test:0: not callable: int")) seven_state.
Proof.
  apply (@not_callable_fails imports seven_state (Op OpCall) x00
           (objects.Int 7)
           (func [Op OpConstant; x00; x01; Op OpCall; x00; Op OpPop] 0 0)).
  - code_here.
  - by_running.
  - by_running.
  - reflexivity.
  - reflexivity.
  - by_running.
Defined.

(** X10, on a machine: [f := func(x) { x = 5 }; f(1)], at the assignment.
    The parameter's slot holds the handle [OpConstant] pushed for the
    argument, constant 1 of the pool: the assignment overwrites that
    constant. *)
Lemma set_local_writes_through_witness :
  index (constants param_state) 1 = Ok 4%nat /\
  deref (heap param_state) (Some 4%nat) = Ok (objects.Int 1) /\
  exists v',
    step param_state = Ok v' /\
    stack v' = stack param_state /\ sp v' = 2 /\ ip v' = 4 /\
    frames v' = frames param_state /\ globals v' = globals param_state /\
    constants v' = constants param_state /\
    length (cells (heap v')) = length (cells (heap param_state)) /\
    forall p, deref (heap v') p =
              if decide (p = Some 4%nat) then Ok (objects.Int 5)
              else deref (heap param_state) p.
Proof.
  split; [reflexivity |]. split; [reflexivity |].
  apply (@set_local_writes_through imports param_state (Op OpSetLocal) x00
           {| Frame.fn := Some 1%nat; Frame.freeVars := [];
              Frame.ip := 0; Frame.basePointer := 1 |}
           (Some 5%nat) (objects.Int 5) 4%nat).
  - code_here.
  - by_running.
  - by_running.
  - by_running.
  - by_running.
  - by_running.
  - vm_compute. lia.
Defined.

(** X11, on a machine: [a := 1] inside a function. *)
Lemma define_local_is_fresh_witness :
  exists v',
    step local_state = Ok v' /\
    sp v' = 2 /\ ip v' = 4 /\
    index (stack v') 1 = Ok (Some 5%nat) /\
    (forall i, i <> 1 -> index (stack v') i = index (stack local_state) i) /\
    cells (heap v') = cells (heap local_state) ++ [objects.Int 1] /\
    (forall q x, deref (heap local_state) q = Ok x ->
                 deref (heap v') q = Ok x) /\
    frames v' = frames local_state /\ globals v' = globals local_state.
Proof.
  apply (@define_local_is_fresh imports local_state (Op OpDefineLocal) x00
           {| Frame.fn := Some 1%nat; Frame.freeVars := [];
              Frame.ip := 0; Frame.basePointer := 1 |}
           (objects.Int 1)).
  - code_here.
  - by_running.
  - by_running.
  - by_running.
  - vm_compute. split; [discriminate | reflexivity].
Defined.

(** X12, on a machine: a closure over the variable on top of the stack. *)
Lemma closure_captures_handles_witness :
  exists v' free,
    step capture_state = Ok v' /\
    sp v' = 1 /\ ip v' = 6 /\
    value_at v' 0 = Ok (objects.Closure 1 free) /\
    len free = 1 /\
    (forall i, 0 <= i < 1 ->
               index free i = index (stack capture_state) (0 + i)) /\
    (forall i, i <> 0 -> index (stack v') i = index (stack capture_state) i) /\
    cells (heap v') = cells (heap capture_state) ++ [objects.Closure 1 free].
Proof.
  apply (@closure_captures_handles imports capture_state (Op OpClosure)
           x00 x00 x01 3%nat 1%nat).
  - code_here.
  - by_running.
  - by_running.
  - by_running.
  - vm_compute. discriminate.
  - vm_compute. discriminate.
  - vm_compute. reflexivity.
  - vm_compute. reflexivity.
Defined.

(** X13, on a machine: the body of that closure assigns 5 to the captured
    variable. *)
Lemma set_free_writes_through_witness :
  exists v',
    step free_state = Ok v' /\
    stack v' = stack free_state /\ sp v' = 1 /\ ip v' = 4 /\
    frames v' = frames free_state /\ globals v' = globals free_state /\
    length (cells (heap v')) = length (cells (heap free_state)) /\
    forall p, deref (heap v') p =
              if decide (p = Some 4%nat) then Ok (objects.Int 5)
              else deref (heap free_state) p.
Proof.
  apply (@set_free_writes_through imports free_state (Op OpSetFree) x00
           {| Frame.fn := Some 1%nat; Frame.freeVars := [Some 4%nat];
              Frame.ip := 0; Frame.basePointer := 1 |}
           (Some 5%nat) (objects.Int 5) 4%nat).
  - code_here.
  - by_running.
  - by_running.
  - by_running.
  - by_running.
  - by_running.
  - vm_compute. lia.
Defined.

(** X14, on a machine: [immutable([7])]. *)
Lemma immutable_is_shallow_witness :
  exists v',
    step frozen_state = Ok v' /\
    sp v' = 1 /\ ip v' = 6 /\
    value_at v' 0
      = Ok (objects.ImmutableArray
              {| sl_arr := 0; sl_off := 0; sl_len := 1 |}) /\
    deref (heap v') (Some 4%nat)
      = Ok (objects.Array {| sl_arr := 0; sl_off := 0; sl_len := 1 |}) /\
    (forall i, i <> 0 -> index (stack v') i = index (stack frozen_state) i) /\
    cells (heap v')
      = cells (heap frozen_state)
        ++ [objects.ImmutableArray
              {| sl_arr := 0; sl_off := 0; sl_len := 1 |}] /\
    arrays (heap v') = arrays (heap frozen_state) /\
    maps (heap v') = maps (heap frozen_state).
Proof.
  apply (@immutable_is_shallow imports frozen_state (Op OpImmutable)
           (Some 4%nat)
           (objects.Array {| sl_arr := 0; sl_off := 0; sl_len := 1 |})).
  - code_here.
  - by_running.
  - by_running.
  - by_running.
Defined.

(** X15, on a machine: [error(7).value]. *)
Lemma error_value_round_trip_witness :
  exists v1 v3 f,
    step wrapped_state = Ok v1 /\
    value_at v1 0 = Ok (objects.Error f) /\
    deref (heap v1) (Some f) = Ok (objects.Int 7) /\
    steps 3 wrapped_state = Ok v3 /\
    sp v3 = 1 /\ ip v3 = 7 /\
    value_at v3 0 = Ok (objects.Int 7) /\
    index (stack v3) 0 = Ok (Some f) /\
    heap v3 = heap v1.
Proof.
  apply (@error_value_round_trip imports wrapped_state (Op OpError)
           (Op OpConstant) x00 x01 (Op OpIndex) 4%nat (objects.Int 7)).
  - code_here.
  - by_running.
  - by_running.
  - by_running.
  - by_running.
  - by_running.
  - intros f. reflexivity.
  - by_running.
  - vm_compute. reflexivity.
  - vm_compute. reflexivity.
Defined.

(** X16, on machines: [g = true; g] for global 0, and for global 1024 of
    the 1024 there are. *)
Lemma global_set_then_get_witness :
  (exists v2,
     steps 2 global_state = Ok v2 /\
     index (globals v2) 0 = Ok truePtr /\
     index (stack v2) 0 = Ok truePtr /\
     (forall i, i <> 0 -> index (globals v2) i = index (globals global_state) i) /\
     stack v2 = stack global_state /\ sp v2 = 1 /\ ip v2 = 6 /\
     heap v2 = heap global_state) /\
  step global_state_far = Panic IndexOutOfRange.
Proof.
  split.
  - destruct (@global_set_then_get imports global_state (Op OpSetGlobal)
                (Op OpGetGlobal) x00 x00 truePtr) as [A _];
      [code_here | by_running | by_running | by_running
       | vm_compute; reflexivity |].
    apply A. vm_compute. reflexivity.
  - destruct (@global_set_then_get imports global_state_far (Op OpSetGlobal)
                (Op OpGetGlobal) x04 x00 truePtr) as [_ B];
      [code_here | by_running | by_running | by_running
       | vm_compute; reflexivity |].
    apply B. vm_compute. discriminate.
Defined.

(** X17, on machines: [import("math")] with a module of that name,
    [import("nope")] and [import(7)]. *)
Lemma builtin_module_lookup_witness :
  (exists v',
     step module_state = Ok v' /\ sp v' = 1 /\ ip v' = 3 /\
     index (stack v') 0 = Ok undefinedPtr /\
     (forall i, i <> 0 -> index (stack v') i = index (stack module_state) i) /\
     heap v' = heap module_state) /\
  step module_state_none
    = Err (objects.Errorf "test:0: module 'nope' not found") /\
  step module_state_int = Panic TypeAssertion.
Proof.
  split; [| split].
  - apply (@builtin_module_lookup imports module_state
             (Op OpGetBuiltinModule) (objects.String "math")
             (func [Op OpConstant; x00; x00; Op OpGetBuiltinModule;
                    Op OpPop] 0 0));
      [code_here | by_running | by_running | by_running | vm_compute; reflexivity].
  - apply (@builtin_module_lookup imports module_state_none
             (Op OpGetBuiltinModule) (objects.String "nope")
             (func [Op OpConstant; x00; x01; Op OpGetBuiltinModule;
                    Op OpPop] 0 0));
      [code_here | by_running | by_running | by_running | vm_compute; reflexivity].
  - apply (@builtin_module_lookup imports module_state_int
             (Op OpGetBuiltinModule) (objects.Int 7)
             (func [Op OpConstant; x00; x02; Op OpGetBuiltinModule;
                    Op OpPop] 0 0));
      [code_here | by_running | by_running | by_running | vm_compute; reflexivity].
Defined.

(** X18, on a machine: [[7, 7, 7]]. *)
Lemma array_collects_values_witness :
  exists v' s,
    step array_state = Ok v' /\
    sp v' = 1 /\ ip v' = 11 /\
    value_at v' 0 = Ok (objects.Array s) /\
    elems (heap v') s = [objects.Int 7; objects.Int 7; objects.Int 7] /\
    sl_arr s = 0%nat /\
    arrays (heap v')
      = arrays (heap array_state)
        ++ [[objects.Int 7; objects.Int 7; objects.Int 7]] /\
    (forall i, i <> 0 -> index (stack v') i = index (stack array_state) i).
Proof.
  apply (@array_collects_values imports array_state (Op OpArray) x00 x03
           [objects.Int 7; objects.Int 7; objects.Int 7]).
  - code_here.
  - by_running.
  - reflexivity.
  - intros j x Hj.
    destruct j as [| [| [| j]]]; try discriminate Hj;
      injection Hj as <-; vm_compute; reflexivity.
  - vm_compute. split; [discriminate | reflexivity].
  - vm_compute. reflexivity.
Defined.

(** X19, on machines: [1 + 2] and [1 + "a"]. *)
Lemma binary_operator_result_witness :
  (exists v',
     step sum_state = Ok v' /\
     sp v' = 1 /\ ip v' = 6 /\
     value_at v' 0 = Ok (objects.Int 3) /\
     (forall i, i <> 0 -> index (stack v') i = index (stack sum_state) i) /\
     cells (heap v') = cells (heap sum_state) ++ [objects.Int 3]) /\
  step sum_state_bad
    = Err (objects.Errorf "test:0: invalid operation: int + string").
Proof.
  split.
  - apply (@binary_operator_result imports sum_state (Op OpAdd) OpAdd
             token.Add "+" (Some 3%nat) (Some 4%nat)
             (objects.Int 1) (objects.Int 2) (heap sum_state)
             (inr (objects.Int 3))
             (func [Op OpConstant; x00; x00; Op OpConstant; x00; x01;
                    Op OpAdd; Op OpPop] 0 0)).
    + code_here.
    + by_running.
    + reflexivity.
    + by_running.
    + by_running.
    + by_running.
    + by_running.
    + by_running.
    + reflexivity.
    + by_running.
    + vm_compute. reflexivity.
  - apply (@binary_operator_result imports sum_state_bad (Op OpAdd) OpAdd
             token.Add "+" (Some 3%nat) (Some 5%nat)
             (objects.Int 1) (objects.String "a") (heap sum_state_bad)
             (inl objects.ErrInvalidOperator)
             (func [Op OpConstant; x00; x00; Op OpConstant; x00; x02;
                    Op OpAdd; Op OpPop] 0 0)
             ltac:(code_here) ltac:(by_running) eq_refl
             ltac:(by_running) ltac:(by_running) ltac:(by_running)
             ltac:(by_running) ltac:(by_running) eq_refl ltac:(by_running)
             ltac:(vm_compute; reflexivity)
             (objects.Int 1) (objects.String "a")).
    + by_running.
    + by_running.
Defined.

(** X20, on a machine: the negation of the least integer. *)
Lemma minus_wraps_witness :
  int64 (- 2 ^ 63) /\
  exists v',
    step least_state = Ok v' /\
    sp v' = 1 /\ ip v' = 3 /\
    value_at v' 0 = Ok (objects.Int (- 2 ^ 63)) /\
    deref (heap v') (Some 3%nat) = Ok (objects.Int (- 2 ^ 63)) /\
    (forall i, i <> 0 -> index (stack v') i = index (stack least_state) i).
Proof.
  apply (@minus_wraps imports least_state (Op OpMinus) (Some 3%nat)
           (- 2 ^ 63)).
  - code_here.
  - by_running.
  - by_running.
  - by_running.
  - unfold int64. lia.
  - vm_compute. reflexivity.
Defined.



(** X24, on a machine: one round of [f := func(x) { return f(x) }; f(1)]. *)
Lemma run_keeps_shape_witness :
  same_shape tail_state tail_loop.
Proof.
  apply (@run_keeps_shape imports 1 tail_state tail_loop). by_running.
Defined.

(** X25, on a machine: the [true] of [true; pop]. *)
Lemma only_calls_move_frames_witness :
  exists v',
    step true_pop_start = Ok v' /\ same_frame true_pop_start v'.
Proof.
  eexists. split; [vm_compute; reflexivity |].
  apply (@only_calls_move_frames imports true_pop_start _ (Op OpTrue) OpTrue).
  - code_here.
  - by_running.
  - reflexivity.
  - vm_compute. reflexivity.
Defined.

(** X26, on machines: [1 == 2] and [1 != 2]. *)
Lemma equality_pushes_shared_bool_witness :
  (exists v',
     step equal_state = Ok v' /\
     sp v' = 1 /\ ip v' = 6 /\ heap v' = heap equal_state /\
     index (stack v') 0 = Ok falsePtr /\
     (forall i, i <> 0 -> index (stack v') i = index (stack equal_state) i)) /\
  (exists v',
     step unequal_state = Ok v' /\
     sp v' = 1 /\ ip v' = 6 /\ heap v' = heap unequal_state /\
     index (stack v') 0 = Ok truePtr /\
     (forall i, i <> 0 -> index (stack v') i = index (stack unequal_state) i)).
Proof.
  split.
  - apply (@equality_pushes_shared_bool imports equal_state (Op OpEqual)
             OpEqual (Some 3%nat) (Some 4%nat) (objects.Int 1) (objects.Int 2));
      [code_here | by_running | reflexivity | by_running | by_running
       | by_running | by_running | vm_compute; reflexivity].
  - apply (@equality_pushes_shared_bool imports unequal_state (Op OpNotEqual)
             OpNotEqual (Some 3%nat) (Some 4%nat) (objects.Int 1)
             (objects.Int 2));
      [code_here | by_running | reflexivity | by_running | by_running
       | by_running | by_running | vm_compute; reflexivity].
Defined.

(** X27, on machines: [OpIteratorInit] and [OpIteratorNext] on the
    integer 7. *)
Lemma iteration_needs_iterable_witness :
  step iterate_state = Err (objects.Errorf "test:0: not iterable: int") /\
  step next_state = Panic TypeAssertion.
Proof.
  split.
  - destruct (@iteration_needs_iterable imports iterate_state
                (Op OpIteratorInit) OpIteratorInit (objects.Int 7)
                (func [Op OpConstant; x00; x00; Op OpIteratorInit;
                       Op OpPop] 0 0)) as [A _];
      [code_here | by_running | by_running | by_running |].
    apply A; reflexivity.
  - destruct (@iteration_needs_iterable imports next_state
                (Op OpIteratorNext) OpIteratorNext (objects.Int 7)
                (func [Op OpConstant; x00; x00; Op OpIteratorNext;
                       Op OpPop] 0 0)) as [_ B];
      [code_here | by_running | by_running | by_running |].
    apply B; [left; reflexivity | reflexivity].
Defined.

(** X28, on a machine: a reset in the middle of a call. *)
Lemma reset_restarts_witness :
  exists v',
    reset stale_called = Ok v' /\
    framesIndex stale_called = 2 /\ sp stale_called = 3 /\
    sp v' = 0 /\ ip v' = -1 /\ framesIndex v' = 1 /\ curFrame v' = 0%nat /\
    aborting v' = 0 /\
    (exists fr main,
       index (frames stale_called) 0 = Ok fr /\
       fn_struct (heap stale_called) (Frame.fn fr) = Ok main /\
       curInsts v' = objects.Instructions main /\
       curIPLimit v' = len (objects.Instructions main) - 1) /\
    globals v' = globals stale_called /\ heap v' = heap stale_called /\
    stack v' = stack stale_called /\ frames v' = frames stale_called /\
    constants v' = constants stale_called /\
    reset v' = Ok v' /\
    forall fuel aborts, Run fuel aborts stale_called = Run fuel aborts v'.
Proof.
  eexists. split; [vm_compute; reflexivity |].
  split; [reflexivity |]. split; [reflexivity |].
  apply (@reset_restarts imports stale_called). vm_compute. reflexivity.
Defined.
End MoreConcrete.
